(** * The offline location-update queue and the payment calculation

    A shallow embedding of the payment-collection utility
    ([calculateDriverCollection], [safeCalculateCollection],
    [getErrorFallback], [formatCurrency], [getCollectionLabel],
    [validateOrderData], [runTests]), of the application short code
    ([getAppCode]) and of the [LocationUpdateQueue] singleton of
    [src/utils/locationUpdateQueue.js].  The definitions come first, the
    properties after them.

    The payment functions are pure functions on JavaScript values;
    numbers are IEEE 754 doubles, the kernel's primitive [float], and the
    built-in functions they call ([parseFloat], [Math.max], [toFixed],
    [trim]) are written out.

    The queue is asynchronous JavaScript.  Every [async] method is cut at
    its [await]s: the code between two awaits runs without interruption
    and is a function on the state, and a method suspended at an await is
    a [Task] that records the program point and the local variables that
    are live there.  The host (AsyncStorage, NetInfo, the transport
    [actions.logsApi], the clock) is an [Env] that says how each awaited
    promise settles.  A storage operation takes effect at the moment its
    promise settles (AsyncStorage completes its operations in the order
    in which their promises settle).  The entry under
    [LOCATION_QUEUE_KEY] is written by this class only, so what is read
    back is an array of items as [addToQueue] builds them. *)

From Stdlib Require Import ZArith Lia Bool String Ascii Floats DecimalString.
From stdpp Require Import base option list.

Open Scope Z_scope.

Module PaymentCalculations.

(** ** JavaScript values and numbers *)

(** The values a field of the order record can hold.  A number is an
    IEEE 754 binary64, the kernel's [float].  An object or an array is
    kept as the string its [toString] gives. *)
Inductive JsValue : Type :=
| JsUndefined
| JsNull
| JsBool (b : bool)
| JsNumber (x : float)
| JsString (s : string)
| JsObject (shown : string).

Definition isNaN (x : float) : bool := PrimFloat.is_nan x.


(** [ToBoolean] *)
Definition truthy (v : JsValue) : bool :=
  match v with
  | JsUndefined | JsNull => false
  | JsBool b => b
  | JsNumber x => negb (isNaN x || PrimFloat.is_zero x)
  | JsString s => negb (String.eqb s "")
  | JsObject _ => true
  end.

(** [a || b] and [a ?? b] *)
Definition js_or (a b : JsValue) : JsValue := if truthy a then a else b.

Definition js_nullish (a b : JsValue) : JsValue :=
  match a with
  | JsUndefined | JsNull => b
  | _ => a
  end.

(** [v === 'literal'] *)
Definition is_string (v : JsValue) (literal : string) : bool :=
  match v with
  | JsString s => String.eqb s literal
  | _ => false
  end.

(** [Math.max(0, x)]: NaN if [x] is NaN, and [+0] for [-0]. *)
Definition max0 (x : float) : float :=
  if isNaN x then PrimFloat.nan
  else if PrimFloat.ltb PrimFloat.zero x then x else PrimFloat.zero.

(** *** parseFloat *)

(** The ASCII part of [StrWhiteSpaceChar]. *)
Definition is_space (c : ascii) : bool :=
  match nat_of_ascii c with
  | 9%nat | 10%nat | 11%nat | 12%nat | 13%nat | 32%nat => true
  | _ => false
  end.

Fixpoint trim_start (s : string) : string :=
  match s with
  | String c s' => if is_space c then trim_start s' else s
  | EmptyString => s
  end.

Definition digit_of (c : ascii) : option Z :=
  let n := nat_of_ascii c in
  if (48 <=? n)%nat && (n <=? 57)%nat then Some (Z.of_nat n - 48) else None.

(** The longest run of decimal digits at the head of [s]: its value
    appended to [acc], the number of digits, and the rest of [s]. *)
Fixpoint digits (s : string) (acc : Z) (count : Z) : Z * Z * string :=
  match s with
  | String c s' =>
      match digit_of c with
      | Some d => digits s' (10 * acc + d) (count + 1)
      | None => (acc, count, s)
      end
  | EmptyString => (acc, count, s)
  end.

(** The double nearest to [m * 10^k] (ties to even), for [m > 0]. *)
Definition decimal_to_float (negative : bool) (m : positive) (k : Z) : float :=
  SF2Prim
    (match k with
     | Zneg n =>
         let den := 10 ^ Zpos n in
         let p := 64 + Z.log2 den + 1 in
         let q := (Zpos m * 2 ^ p) / den in
         let r := (Zpos m * 2 ^ p) mod den in
         let loc := if r =? 0 then SpecFloat.loc_Exact
                    else SpecFloat.loc_Inexact (2 * r ?= den) in
         SpecFloat.binary_round_aux prec emax negative q (- p) loc
     | _ =>
         match Zpos m * 10 ^ k with
         | Zpos n => SpecFloat.binary_round prec emax negative n 0
         | _ => S754_zero negative
         end
     end).

(** [ExponentPart]: [e] or [E], an optional sign and at least one digit;
    0 when there is none. *)
Definition exponent (s : string) : Z :=
  match s with
  | String c s' =>
      if Ascii.eqb c "e" || Ascii.eqb c "E" then
        let '(negative, s'') :=
          match s' with
          | String "-" t => (true, t)
          | String "+" t => (false, t)
          | _ => (false, s')
          end in
        let '(e, count, _) := digits s'' 0 0 in
        if count =? 0 then 0 else if negative then - e else e
      else 0
  | EmptyString => 0
  end.

(** [parseFloat] of a string: the value of its longest prefix that is a
    [StrDecimalLiteral], after leading white space; NaN if there is
    none. *)
Definition parseFloat_string (s : string) : float :=
  let s := trim_start s in
  let '(negative, s) :=
    match s with
    | String "-" t => (true, t)
    | String "+" t => (false, t)
    | _ => (false, s)
    end in
  if String.prefix "Infinity" s
  then (if negative then PrimFloat.neg_infinity else PrimFloat.infinity)
  else
    let '(int_part, int_count, rest) := digits s 0 0 in
    let '(mantissa, frac_count, rest) :=
      match rest with
      | String "." t => digits t int_part 0
      | _ => (int_part, 0, rest)
      end in
    if (int_count =? 0) && (frac_count =? 0) then PrimFloat.nan
    else
      match mantissa with
      | Zpos m => decimal_to_float negative m (exponent rest - frac_count)
      | _ => if negative then PrimFloat.neg_zero else PrimFloat.zero
      end.

(** [parseFloat(v)]: [v] is converted to a string first.  A number prints
    to a literal that reads back as itself, except that [-0] prints as
    ["0"]. *)
Definition parseFloat (v : JsValue) : float :=
  match v with
  | JsUndefined | JsNull | JsBool _ => PrimFloat.nan
  | JsNumber x => if PrimFloat.is_zero x then PrimFloat.zero else x
  | JsString s => parseFloat_string s
  | JsObject shown => parseFloat_string shown
  end.

(** ** The order record and the result *)

(** The fields of [orderData] the calculation reads; a field that is
    absent is [JsUndefined]. *)
Record Order : Type := mkOrder {
  order_source : JsValue;
  delivery_fee_paid_by : JsValue;
  collect_delivery_fees : JsValue;
  cash_to_be_collected : JsValue;
  amount : JsValue;
  order_cost : JsValue
}.

Record Breakdown : Type := mkBreakdown {
  customerPayment : float;
  deliveryFees : float;
  actualDeliveryFee : option float;
  note : string
}.

Record Collection : Type := mkCollection {
  totalAmount : float;
  includesDeliveryFees : bool;
  orderType : string;
  breakdown : Breakdown
}.

(** ** The functions

    [orderData] is [None] when it is [null], [undefined] or another falsy
    value; a truthy value without these properties is the record whose
    fields are all [JsUndefined].  The [console] calls are left out. *)

(** [getErrorFallback] *)
Definition getErrorFallback (orderData : option Order) : Collection :=
  let fallbackAmount :=
    match orderData with
    | Some o =>
        parseFloat (js_or (js_or (cash_to_be_collected o) (amount o))
                          (JsNumber PrimFloat.zero))
    | None => PrimFloat.zero
    end in
  let safeFallback :=
    max0 (if isNaN fallbackAmount then PrimFloat.zero else fallbackAmount) in
  mkCollection safeFallback false "Error"
    (mkBreakdown safeFallback PrimFloat.zero None
       "Error in calculation - using customer payment only").

(** [calculateDriverCollection] *)
Definition calculateDriverCollection (orderData : option Order) : Collection :=
  match orderData with
  | None => getErrorFallback None
  | Some o =>
      let cashToCollect :=
        parseFloat (js_or (js_or (cash_to_be_collected o) (amount o))
                          (JsNumber PrimFloat.zero)) in
      let deliveryFees :=
        parseFloat (js_or (order_cost o) (JsNumber PrimFloat.zero)) in
      if isNaN cashToCollect then getErrorFallback (Some o)
      else
        let safeCashToCollect := max0 cashToCollect in
        let safeDeliveryFees := max0 deliveryFees in
        let orderSource := js_or (order_source o) (JsString "dispatch_panel") in
        let deliveryFeePaidBy :=
          js_or (delivery_fee_paid_by o) (JsString "restaurant") in
        let collectDeliveryFees :=
          js_nullish (collect_delivery_fees o) (JsBool false) in
        if is_string orderSource "dispatch_panel"
           || is_string deliveryFeePaidBy "restaurant"
        then
          mkCollection safeCashToCollect false "B2B"
            (mkBreakdown safeCashToCollect PrimFloat.zero (Some safeDeliveryFees)
               "Delivery fee paid by restaurant")
        else if truthy collectDeliveryFees
                || is_string deliveryFeePaidBy "customer"
                || is_string orderSource "customer_app"
                || is_string orderSource "website"
        then
          mkCollection (PrimFloat.add safeCashToCollect safeDeliveryFees) true "B2C"
            (mkBreakdown safeCashToCollect safeDeliveryFees None
               "Customer pays all fees")
        else
          mkCollection safeCashToCollect false "Unknown"
            (mkBreakdown safeCashToCollect PrimFloat.zero (Some safeDeliveryFees)
               "Using fallback calculation (defaulting to B2B)")
  end.


(** [testCases]: each order with the expected [totalAmount], [orderType]
    and [includesDeliveryFees]. *)
Definition testCases : list (Order * (float * string * bool)) :=
  [ (mkOrder (JsString "dispatch_panel") (JsString "restaurant") (JsBool false)
             (JsString "50.00") JsUndefined (JsString "13.00"),
     (50%float, "B2B"%string, false));
    (mkOrder (JsString "customer_app") (JsString "customer") (JsBool true)
             (JsString "80.00") JsUndefined (JsString "13.00"),
     (93%float, "B2C"%string, true));
    (mkOrder JsUndefined JsUndefined JsUndefined
             (JsString "25.00") JsUndefined (JsString "10.00"),
     (25%float, "B2B"%string, false));
    (mkOrder (JsString "website") (JsString "customer") JsUndefined
             (JsString "100.00") JsUndefined (JsString "15.00"),
     (115%float, "B2C"%string, true));
    (mkOrder (JsString "customer_app") (JsString "customer") (JsBool true)
             (JsString "50.00") JsUndefined (JsString "0.00"),
     (50%float, "B2C"%string, true)) ].

(** [runTests().allPassed]; [===] on numbers is [PrimFloat.eqb]. *)
Definition runTests : bool :=
  forallb (fun tc : Order * (float * string * bool) =>
             let '(order, (total, type, fees)) := tc in
             let result := calculateDriverCollection (Some order) in
             PrimFloat.eqb (totalAmount result) total
             && String.eqb (orderType result) type
             && Bool.eqb (includesDeliveryFees result) fees)
          testCases.

(** A B2C order whose [order_cost] is not a number. *)
Definition order_with_bad_cost : Order :=
  mkOrder (JsString "customer_app") (JsString "customer") (JsBool true)
          (JsString "80.00") JsUndefined (JsString "abc").



(** A double that is not below zero: NaN, [+0], positive and finite, or
    [+Infinity]. *)
Definition not_negative (f : spec_float) : bool :=
  match f with
  | S754_nan => true
  | S754_zero s | S754_infinity s | S754_finite s _ _ => negb s
  end.

(** An order of the customer app without an amount, and one whose amount
    is negative. *)
Definition order_without_amount : Order :=
  mkOrder (JsString "customer_app") (JsString "customer") (JsBool true)
          JsUndefined (JsNumber PrimFloat.zero) (JsString "13.00").

Definition order_with_negative_amount : Order :=
  mkOrder (JsString "dispatch_panel") (JsString "restaurant") (JsBool false)
          (JsString "-5.00") JsUndefined (JsString "13.00").

(** ** The other functions of the payment utility *)

(** The value of the local [cashToCollect] (line 272), which is also the
    [cashValue] of [validateOrderData] (line 481) and the
    [fallbackAmount] of [getErrorFallback] (line 387). *)
Definition cashToCollect (o : Order) : float :=
  parseFloat (js_or (js_or (cash_to_be_collected o) (amount o))
                    (JsNumber PrimFloat.zero)).

(** [getCollectionLabel] (lines 434-442); the arguments are any values. *)
Definition getCollectionLabel (orderType includesDeliveryFees : JsValue)
    : string :=
  if is_string orderType "B2B" || negb (truthy includesDeliveryFees)
  then "Customer Payment"
  else if is_string orderType "B2C" || truthy includesDeliveryFees
  then "Total to Collect"
  else "Amount to Collect".

(** The result of [validateOrderData]. *)
Record Validation : Type := mkValidation {
  isValid : bool;
  errors : list string;
  warnings : list string
}.

(** [validateOrderData] (lines 453-495): [errors.push] and
    [warnings.push] append, in the order of the checks. *)
Definition validateOrderData (orderData : option Order) : Validation :=
  match orderData with
  | None => mkValidation false ["Order data is null or undefined"%string] []
  | Some o =>
      let errors :=
        if negb (truthy (cash_to_be_collected o)) && negb (truthy (amount o))
        then ["Missing cash_to_be_collected or amount field"%string] else [] in
      let warnings :=
        if negb (truthy (order_source o))
        then ["Missing order_source field - using fallback logic"%string]
        else [] in
      let warnings :=
        warnings ++
        if negb (truthy (delivery_fee_paid_by o))
        then ["Missing delivery_fee_paid_by field - using fallback logic"%string]
        else [] in
      let warnings :=
        warnings ++
        match collect_delivery_fees o with
        | JsUndefined =>
            ["Missing collect_delivery_fees field - using fallback logic"%string]
        | _ => []
        end in
      let cashValue :=
        parseFloat (js_or (js_or (cash_to_be_collected o) (amount o))
                          (JsNumber PrimFloat.zero)) in
      let errors :=
        errors ++
        if isNaN cashValue then ["Invalid cash_to_be_collected value"%string]
        else [] in
      let warnings :=
        warnings ++
        if PrimFloat.ltb cashValue PrimFloat.zero
        then ["Negative cash_to_be_collected value detected"%string] else [] in
      mkValidation (length errors =? 0)%nat errors warnings
  end.

(** [runTests().summary]: the number of test cases, of those that passed
    and of those that failed. *)
Definition runTests_summary : nat * nat * nat :=
  let results :=
    List.map (fun tc : Order * (float * string * bool) =>
                let '(order, (total, type, fees)) := tc in
                let result := calculateDriverCollection (Some order) in
                PrimFloat.eqb (totalAmount result) total
                && String.eqb (orderType result) type
                && Bool.eqb (includesDeliveryFees result) fees)
             testCases in
  (length results,
   length (List.filter (fun passed => passed) results),
   length (List.filter negb results)).

(** ** Displaying an amount: [formatCurrency] (lines 416-425)

    A string is the sequence of its UTF-8 bytes. *)

(** *** Number::toString and Number.prototype.toFixed *)

(** The decimal digits of a natural number; ["0"] for 0. *)
Definition decimal (n : Z) : string :=
  NilZero.string_of_uint (N.to_uint (Z.to_N n)).

Fixpoint zeros (n : nat) : string :=
  match n with
  | O => EmptyString
  | S n' => String "0" (zeros n')
  end.

(** The value [m * 2^e] of a finite double, as a fraction. *)
Definition fraction (m : positive) (e : Z) : Z * Z :=
  (Zpos m * 2 ^ Z.max e 0, 2 ^ Z.max (- e) 0).

(** The [n] with [10^(n-1) <= num/den < 10^n], for [num/den > 0]. *)
Definition magnitude10 (num den : Z) : Z :=
  if den <=? num then Z.of_nat (String.length (decimal (num / den)))
  else
    let l := Z.of_nat (String.length (decimal (den / num))) in
    if num * 10 ^ (l - 1) =? den then 2 - l else 1 - l.

(** [(num/den) / 10^e], as a fraction. *)
Definition scaled (num den e : Z) : Z * Z :=
  (num * 10 ^ Z.max (- e) 0, den * 10 ^ Z.max e 0).

(** The double nearest to [s * 10^e] is [x]. *)
Definition reads_back (x : float) (s e : Z) : bool :=
  match s with
  | Zpos m => PrimFloat.eqb (decimal_to_float false m e) x
  | _ => false
  end.

(** Step 5 of Number::toString for [x = num/den > 0] of magnitude [n]:
    the decimal [s * 10^e] with the fewest digits that reads back as [x],
    and of those the one closest to [x] (the even one of two).  With [k]
    digits the two candidates are the neighbours of [x / 10^(n-k)]; [k]
    counts up from 1, and 17 digits always suffice. *)
Fixpoint shortest (fuel : nat) (x : float) (num den n k : Z) : Z * Z :=
  let e := n - k in
  let '(a, b) := scaled num den e in
  let lo := a / b in
  let hi := lo + 1 in
  let lo_first :=
    match 2 * (a mod b) ?= b with
    | Lt => true
    | Gt => false
    | Eq => Z.even lo
    end in
  let '(first, second) := if lo_first then (lo, hi) else (hi, lo) in
  if reads_back x first e then (first, e)
  else if reads_back x second e then (second, e)
  else
    match fuel with
    | O => (first, e)
    | S fuel' => shortest fuel' x num den n (k + 1)
    end.

(** [s * 10^e] with the trailing zeros of [s] moved to the exponent. *)
Fixpoint strip_zeros (fuel : nat) (s e : Z) : Z * Z :=
  match fuel with
  | O => (s, e)
  | S fuel' =>
      if (0 <? s) && (s mod 10 =? 0) then strip_zeros fuel' (s / 10) (e + 1)
      else (s, e)
  end.

(** Steps 5 to 11 of Number::toString(x, 10) for a finite [x > 0] whose
    value is [num/den]. *)
Definition Number_toString_positive (x : float) (num den : Z) : string :=
  let '(s, e) := shortest 16 x num den (magnitude10 num den) 1 in
  let '(s, e) := strip_zeros 20 s e in
  let digits := decimal s in
  let k := Z.of_nat (String.length digits) in
  let n := e + k in
  if (-5 <=? n) && (n <=? 21) then
    if k <=? n then (digits ++ zeros (Z.to_nat (n - k)))%string
    else if 0 <? n then
      (substring 0 (Z.to_nat n) digits ++ "." ++
       substring (Z.to_nat n) (Z.to_nat (k - n)) digits)%string
    else ("0." ++ zeros (Z.to_nat (- n)) ++ digits)%string
  else
    let exponentSign := if n <? 0 then "-"%string else "+"%string in
    if k =? 1
    then (digits ++ "e" ++ exponentSign ++ decimal (Z.abs (n - 1)))%string
    else
      (substring 0 1 digits ++ "." ++ substring 1 (Z.to_nat (k - 1)) digits ++
       "e" ++ exponentSign ++ decimal (Z.abs (n - 1)))%string.

(** Number::toString(x, 10) *)
Definition Number_toString (x : float) : string :=
  match Prim2SF x with
  | S754_nan => "NaN"
  | S754_zero _ => "0"
  | S754_infinity s => if s then "-Infinity" else "Infinity"
  | S754_finite s m e =>
      let '(num, den) := fraction m e in
      ((if s then "-" else "") ++
       Number_toString_positive (PrimFloat.abs x) num den)%string
  end.

(** [ToString], as a template literal applies it. *)
Definition ToString (v : JsValue) : string :=
  match v with
  | JsUndefined => "undefined"
  | JsNull => "null"
  | JsBool b => if b then "true" else "false"
  | JsNumber x => Number_toString x
  | JsString s => s
  | JsObject shown => shown
  end.

(** [ToIntegerOrInfinity] of a number; [None] is an infinity. *)
Definition ToIntegerOrInfinity (d : float) : option Z :=
  match Prim2SF d with
  | S754_nan | S754_zero _ => Some 0
  | S754_infinity _ => None
  | S754_finite s m e =>
      let '(num, den) := fraction m e in
      Some (if s then - (num / den) else num / den)
  end.

(** The integer [n] for which [n / 10^f - num/den] is closest to zero,
    the larger one if there are two. *)
Definition nearest_scaled (num den f : Z) : Z :=
  (2 * num * 10 ^ f + den) / (2 * den).

(** Step 11 of [toFixed]: the digits of [n] with a point before the last
    [f] of them, padded with zeros on the left. *)
Definition fixed_point (n f : Z) : string :=
  let m := decimal n in
  if f =? 0 then m
  else
    let k := Z.of_nat (String.length m) in
    let m := if k <=? f then (zeros (Z.to_nat (f + 1 - k)) ++ m)%string else m in
    let k := if k <=? f then f + 1 else k in
    (substring 0 (Z.to_nat (k - f)) m ++ "." ++
     substring (Z.to_nat (k - f)) (Z.to_nat f) m)%string.

(** What a call gives: a value, or the [RangeError] it throws. *)
Inductive Completion (A : Type) : Type :=
| Normal (a : A)
| RangeError.
Arguments Normal {A} a.
Arguments RangeError {A}.

(** [x.toFixed(fractionDigits)] *)
Definition toFixed (x : float) (fractionDigits : float) : Completion string :=
  match ToIntegerOrInfinity fractionDigits with
  | None => RangeError
  | Some f =>
      if (f <? 0) || (100 <? f) then RangeError
      else
        Normal
          match Prim2SF x with
          | S754_nan => "NaN"%string
          | S754_infinity s => (if s then "-Infinity" else "Infinity")%string
          | S754_zero _ => fixed_point 0 f
          | S754_finite s m e =>
              let '(num, den) := fraction m e in
              ((if s then "-" else "") ++
               if (10 ^ 21 * den <=? num)%Z
               then Number_toString_positive (PrimFloat.abs x) num den
               else fixed_point (nearest_scaled num den f) f)%string
          end
  end.

(** *** String.prototype.trim *)

Definition byte (c : ascii) (n : N) : bool := (N_of_ascii c =? n)%N.

(** The rest of [s] after the white space or line terminator at its head,
    if there is one: U+0009 to U+000D, U+0020, U+00A0, U+1680, U+2000 to
    U+200A, U+2028, U+2029, U+202F, U+205F, U+3000 and U+FEFF. *)
Definition white_space (s : string) : option string :=
  match s with
  | String c1 rest =>
      if is_space c1 then Some rest
      else
        match rest with
        | String c2 rest2 =>
            if byte c1 194 && byte c2 160 then Some rest2
            else
              match rest2 with
              | String c3 rest3 =>
                  if (byte c1 225 && byte c2 154 && byte c3 128)
                     || (byte c1 226 && byte c2 128
                         && ((128 <=? N_of_ascii c3)%N && (N_of_ascii c3 <=? 138)%N
                             || byte c3 168 || byte c3 169 || byte c3 175))
                     || (byte c1 226 && byte c2 129 && byte c3 159)
                     || (byte c1 227 && byte c2 128 && byte c3 128)
                     || (byte c1 239 && byte c2 187 && byte c3 191)
                  then Some rest3
                  else None
              | EmptyString => None
              end
        | EmptyString => None
        end
  | EmptyString => None
  end.

Fixpoint trimStart_from (fuel : nat) (s : string) : string :=
  match fuel with
  | O => s
  | S fuel' =>
      match white_space s with
      | Some rest => trimStart_from fuel' rest
      | None => s
      end
  end.

Definition trimStart (s : string) : string :=
  trimStart_from (String.length s) s.

(** [s] without the longest suffix that is white space only. *)
Fixpoint trimEnd (s : string) : string :=
  match s with
  | EmptyString => EmptyString
  | String c rest =>
      match trimStart s with
      | EmptyString => EmptyString
      | _ => String c (trimEnd rest)
      end
  end.

Definition trim (s : string) : string := trimEnd (trimStart s).

(** *** formatCurrency *)

(** The fields of [currency] the function reads. *)
Record Currency : Type := mkCurrency {
  symbol : JsValue;
  iso_code : JsValue
}.

(** [formatCurrency(amount, currency, decimals)].  [currency] is [None]
    when it is falsy; [decimals] is a number, [None] when it is left out
    (or [undefined]), which selects the default. *)
Definition formatCurrency (amount : JsValue) (currency : option Currency)
    (decimals : option float) : Completion string :=
  let decimals := default 2%float decimals in
  match currency, amount with
  | Some currency, JsNumber amount =>
      if isNaN amount then Normal "0.00"%string
      else
        match toFixed amount decimals with
        | Normal formattedAmount =>
            let symbol :=
              js_or (js_or (symbol currency) (iso_code currency))
                    (JsString "") in
            Normal (trim (formattedAmount ++ " " ++ ToString symbol)%string)
        | RangeError => RangeError
        end
  | _, _ => Normal "0.00"%string
  end.

(** *** Bytes that no white space contains *)

(** An ASCII character that is not white space. *)
Definition solid (c : ascii) : bool :=
  (N_of_ascii c <? 128)%N && negb (is_space c).

Fixpoint has_solid (s : string) : bool :=
  match s with
  | EmptyString => false
  | String c rest => solid c || has_solid rest
  end.

Fixpoint all_solid (s : string) : bool :=
  match s with
  | EmptyString => true
  | String c rest => solid c && all_solid rest
  end.

Definition is_digit (c : ascii) : bool :=
  match digit_of c with
  | Some _ => true
  | None => false
  end.

Fixpoint all_digits (s : string) : bool :=
  match s with
  | EmptyString => true
  | String c rest => is_digit c && all_digits rest
  end.

(** The currency of the example of lines 412-414: the symbol is U+062F,
    a full stop and U+0625. *)
Definition currency_AED : Currency :=
  mkCurrency
    (JsString (String "216" (String "175" (String "."
                (String "216" (String "165" EmptyString))))))
    (JsString "AED").

End PaymentCalculations.

(** * The application short code

    [src/utils/constants/DynamicAppKeys] and
    [src/Screens/ShortCode/getAppCode.ts]. *)

Module DynamicAppKeys.
Import PaymentCalculations.

(** [Platform.OS] *)
Inductive OS : Type := ios | android | macos | windows | web.

(** [Platform.select({ios: a, android: b})]: the entry for the platform,
    [undefined] when the object has none (it has no [native] and no
    [default] entry either). *)
Definition Platform_select (os : OS) (for_ios for_android : string) : JsValue :=
  match os with
  | ios => JsString for_ios
  | android => JsString for_android
  | _ => JsUndefined
  end.

(** [shortCodes.yabalash] and [appIds.yabalash] *)
Definition shortCodes_yabalash : string := "976d51".

Definition appIds_yabalash (os : OS) : JsValue :=
  Platform_select os "com.yabalash.dispatcher" "com.yabalash.dispatcher".

(** [getAppCode], given the platform and what [getBundleId()] returns;
    [switch] compares with [===]. *)
Definition getAppCode (os : OS) (bundleId : string) : string :=
  match appIds_yabalash os with
  | JsString id => if String.eqb bundleId id then shortCodes_yabalash else "976d51"
  | _ => "976d51"
  end.

End DynamicAppKeys.

Module LocationUpdateQueue.

(** ** Constants (lines 12-14 and the literal of line 67) *)

Definition LOCATION_QUEUE_KEY : string := "failedLocationUpdates".
Definition MAX_RETRY_COUNT : Z := 3.
Definition RETRY_INTERVAL : Z := 30000.
Definition MAX_QUEUE_SIZE : nat := 50.

(** A settled promise: fulfilled with a value, or rejected.  The code
    never inspects the error it catches (it only logs it), so a rejection
    carries nothing. *)
Inductive Outcome (A : Type) : Type :=
| Resolved (a : A)
| Rejected.
Arguments Resolved {A} a.
Arguments Rejected {A}.

(** ** Data model

    The payload ([locationData]) and the headers are opaque to the queue:
    it stores them and hands them to the transport. *)

Section Types.

Context {Payload Headers : Type}.

(** The object built at lines 57-62. *)
Record QueueItem : Type := mkItem {
  data : Payload;
  headers : Headers;
  timestamp : Z;
  retryCount : Z
}.

(** The host: how the [t]-th promise to settle settles.  [fetch] gives
    [netInfo.isConnected], [logsApi] the truthiness of [result.error] (a
    result whose [error] cannot be read, such as [undefined], throws
    inside the [try] and counts as a rejection); [getItem_ok] and
    [setItem_ok] say whether the storage operation succeeds; [now] is
    [Date.now()]. *)
Record Env : Type := mkEnv {
  fetch : nat -> Outcome bool;
  getItem_ok : nat -> bool;
  setItem_ok : nat -> bool;
  logsApi : nat -> Payload -> Headers -> Outcome bool;
  now : nat -> Z
}.

End Types.

(** ** Concrete hosts and items

    Payloads and headers are numbers.  [host_down] is a host on which the
    store works, the device is online and every delivery fails;
    [host_unreadable] is the same host with a store that cannot be read. *)

Definition host_down : @Env nat nat :=
  mkEnv (fun _ => Resolved true) (fun _ => true) (fun _ => true)
        (fun _ _ _ => Resolved true) (fun t => Z.of_nat t).

Definition host_unreadable : @Env nat nat :=
  mkEnv (fun _ => Resolved true) (fun _ => false) (fun _ => true)
        (fun _ _ _ => Resolved true) (fun t => Z.of_nat t).

(** [host_up] delivers everything; [host_unwritable] is [host_up] with a
    store that cannot be written; on [host_offline] NetInfo reports no
    connection. *)
Definition host_up : @Env nat nat :=
  mkEnv (fun _ => Resolved true) (fun _ => true) (fun _ => true)
        (fun _ _ _ => Resolved false) (fun t => Z.of_nat t).

Definition host_unwritable : @Env nat nat :=
  mkEnv (fun _ => Resolved true) (fun _ => true) (fun _ => false)
        (fun _ _ _ => Resolved false) (fun t => Z.of_nat t).

Definition host_offline : @Env nat nat :=
  mkEnv (fun _ => Resolved false) (fun _ => true) (fun _ => true)
        (fun _ _ _ => Resolved false) (fun t => Z.of_nat t).

Definition item_A : @QueueItem nat nat := mkItem 1%nat 0%nat 100 0.
Definition item_B : @QueueItem nat nat := mkItem 2%nat 0%nat 200 0.
Definition item_C : @QueueItem nat nat := mkItem 3%nat 0%nat 300 0.


Section Model.

Context {Payload Headers : Type}.

Local Abbreviation QueueItem := (@QueueItem Payload Headers).
Local Abbreviation Env := (@Env Payload Headers).

(** ** The instance and the host *)

(** [item.retryCount++] *)
Definition incrRetry (item : QueueItem) : QueueItem :=
  mkItem (data item) (headers item) (timestamp item) (retryCount item + 1).

(** The instance fields set by the constructor (lines 18-20), and the part
    of the host they refer to: the AsyncStorage entry under
    [LOCATION_QUEUE_KEY] (a JSON array written by [JSON.stringify] and
    read back by [JSON.parse]; [None] when the key has no entry), the
    pending timeouts and the registered NetInfo listeners.  Handles are
    positive, hence truthy in [if (this.retryTimer)]. *)
Record State : Type := mkState {
  isProcessing : bool;
  retryTimer : option positive;
  networkUnsubscribe : option positive;
  storage : option (list QueueItem);
  timers : list positive;
  listeners : list positive;
  fresh : positive
}.

Definition set_isProcessing (b : bool) (s : State) : State :=
  mkState b (retryTimer s) (networkUnsubscribe s) (storage s)
          (timers s) (listeners s) (fresh s).

Definition set_storage (q : list QueueItem) (s : State) : State :=
  mkState (isProcessing s) (retryTimer s) (networkUnsubscribe s) (Some q)
          (timers s) (listeners s) (fresh s).

(** [new LocationUpdateQueue()] on a host whose storage holds [store]. *)
Definition constructor (store : option (list QueueItem)) : State :=
  mkState false None None store [] [] 1%positive.

(** What the persisted entry denotes: no entry is the empty queue. *)
Definition persisted (s : State) : list QueueItem :=
  default [] (storage s).

(** ** Effects *)

Inductive Event : Type :=
| EGetItem                              (* AsyncStorage.getItem(KEY) *)
| ESetItem (queue : list QueueItem)     (* AsyncStorage.setItem(KEY, ...) *)
| EFetch                                (* NetInfo.fetch() *)
| ELogsApi (d : Payload) (h : Headers)  (* actions.logsApi(d, h) *)
| ESetTimeout (id : positive) (delay : Z)
| EClearTimeout (id : positive)
| ESubscribe (id : positive)            (* NetInfo.addEventListener *)
| EUnsubscribe (id : positive)
| ELog (msg : string).                  (* console.log *)

(** A method suspended at an [await]. *)
Inductive Task : Type :=
| PQ_fetch                                   (* processQueue, line 119 *)
| PQ_getQueue                                (* processQueue, line 128 *)
| PQ_logsApi (item : QueueItem) (rest remainingItems : list QueueItem)
                                             (* processQueue, line 139 *)
| PQ_saveQueue (remainingItems : list QueueItem)
                                             (* processQueue, line 162 *)
| AQ_getQueue (locationData : Payload) (hdrs : Headers)
                                             (* addToQueue, line 56 *)
| AQ_setItem (queue : list QueueItem)        (* addToQueue, line 71 *)
| AQ_fetch.                                  (* addToQueue, line 75 *)

(** Where a run of synchronous code ends: at an await, at a return (the
    method's promise is fulfilled), or with an exception that leaves the
    method (its promise is rejected). *)
Inductive Next : Type :=
| Await (t : Task)
| Return
| Throw.

Record Step : Type := mkStep {
  after : State;
  next : Next;
  spawned : list Task;   (* tasks of calls that were not awaited *)
  emitted : list Event
}.

Definition ret (s : State) : Step := mkStep s Return [] [].
Definition throw (s : State) : Step := mkStep s Throw [] [].
Definition await (t : Task) (ev : Event) (s : State) : Step :=
  mkStep s (Await t) [] [ev].

Definition suspended (n : Next) : list Task :=
  match n with Await t => [t] | _ => [] end.

(** [callee(); rest]: a call to an async method whose promise is dropped.
    The callee runs up to its first await, then the caller goes on. *)
Definition detached (callee rest : State -> Step) (s : State) : Step :=
  let c := callee s in
  let r := rest (after c) in
  mkStep (after r) (next r)
         (spawned c ++ suspended (next c) ++ spawned r)
         (emitted c ++ emitted r).

(** [sync; rest] for synchronous code that only changes the state and
    emits events. *)
Definition seq (sync : State -> State * list Event) (rest : State -> Step)
    (s : State) : Step :=
  let '(s1, ev) := sync s in
  let r := rest s1 in
  mkStep (after r) (next r) (spawned r) (ev ++ emitted r).

(** [try { body } catch (error) { console.log(msg, error) }] *)
Definition try_catch (msg : string) (body : Step) : Step :=
  match next body with
  | Throw => mkStep (after body) Return (spawned body)
                    (emitted body ++ [ELog msg])
  | _ => body
  end.

(** ** The host operations *)

Definition setTimeout (delay : Z) (s : State) : positive * State * list Event :=
  let id := fresh s in
  (id,
   mkState (isProcessing s) (retryTimer s) (networkUnsubscribe s) (storage s)
           (timers s ++ [id]) (listeners s) (Pos.succ id),
   [ESetTimeout id delay]).

Definition clearTimeout (id : positive) (s : State) : State * list Event :=
  (mkState (isProcessing s) (retryTimer s) (networkUnsubscribe s) (storage s)
           (List.filter (fun x => negb (Pos.eqb x id)) (timers s))
           (listeners s) (fresh s),
   [EClearTimeout id]).

Definition addEventListener (s : State) : positive * State * list Event :=
  let id := fresh s in
  (id,
   mkState (isProcessing s) (retryTimer s) (networkUnsubscribe s) (storage s)
           (timers s) (listeners s ++ [id]) (Pos.succ id),
   [ESubscribe id]).

Definition unsubscribe (id : positive) (s : State) : State * list Event :=
  (mkState (isProcessing s) (retryTimer s) (networkUnsubscribe s) (storage s)
           (timers s)
           (List.filter (fun x => negb (Pos.eqb x id)) (listeners s))
           (fresh s),
   [EUnsubscribe id]).

(** [await AsyncStorage.getItem(KEY)] followed by [JSON.parse]. *)
Definition AsyncStorage_getItem (ok : bool) (s : State)
    : Outcome (option (list QueueItem)) :=
  if ok then Resolved (storage s) else Rejected.

(** [await AsyncStorage.setItem(KEY, JSON.stringify(queue))]: a failed
    write leaves the entry as it was. *)
Definition AsyncStorage_setItem (ok : bool) (queue : list QueueItem)
    (s : State) : Outcome unit * State :=
  if ok then (Resolved tt, set_storage queue s) else (Rejected, s).

Definition set_retryTimer (id : positive) (s : State) : State :=
  mkState (isProcessing s) (Some id) (networkUnsubscribe s) (storage s)
          (timers s) (listeners s) (fresh s).

Definition set_networkUnsubscribe (id : positive) (s : State) : State :=
  mkState (isProcessing s) (retryTimer s) (Some id) (storage s)
          (timers s) (listeners s) (fresh s).

(** ** The methods of [LocationUpdateQueue] *)

(** Whether [require('@react-native-community/netinfo')] succeeded
    (lines 5-10): [NetInfo] is the module or [null]. *)
Variable NetInfo : bool.

Variable env : Env.

(** [getQueue] (lines 91-99), given how its [getItem] settled. *)
Definition getQueue (r : Outcome (option (list QueueItem)))
    : Outcome (list QueueItem) * list Event :=
  match r with
  | Resolved queueStr =>
      (Resolved (match queueStr with Some queue => queue | None => [] end), [])
  | Rejected => (Resolved [], [ELog "Error getting location queue:"])
  end.

(** [saveQueue] (lines 102-108), given how its [setItem] settled. *)
Definition saveQueue (r : Outcome unit) : Outcome unit * list Event :=
  match r with
  | Resolved _ => (Resolved tt, [])
  | Rejected => (Resolved tt, [ELog "Error saving location queue:"])
  end.

(** [scheduleRetry] (lines 177-185). *)
Definition scheduleRetry (s : State) : State * list Event :=
  let '(s1, ev1) :=
    match retryTimer s with
    | Some id => clearTimeout id s
    | None => (s, [])
    end in
  let '(id, s2, ev2) := setTimeout RETRY_INTERVAL s1 in
  (set_retryTimer id s2, ev1 ++ ev2).

(** *** processQueue (lines 111-174) *)

(** The [try ... catch ... finally] of lines 116 and 169-173, around the
    code that runs up to the next await. *)
Definition pq_try (body : Step) : Step :=
  match next body with
  | Await _ => body
  | Return =>
      mkStep (set_isProcessing false (after body)) Return (spawned body)
             (emitted body)
  | Throw =>
      mkStep (set_isProcessing false (after body)) Return (spawned body)
             (emitted body ++ [ELog "Error processing location queue:"])
  end.

(** The body of the [for] loop for one item (lines 138-158), given how
    [logsApi] settled: the item to push on [remainingItems], if any. *)
Definition attempt (item : QueueItem) (r : Outcome bool)
    : option QueueItem * list Event :=
  match r with
  | Resolved error =>
      if negb error || (retryCount item >=? MAX_RETRY_COUNT)
      then (None, [])
      else (Some (incrRetry item), [])
  | Rejected =>
      (if retryCount item <? MAX_RETRY_COUNT
       then Some (incrRetry item) else None,
       [ELog "Error processing queued location:"])
  end.

(** The head of the loop (line 137) and, once the queue is exhausted, the
    call of [saveQueue] (line 162). *)
Definition pq_loop (queue remainingItems : list QueueItem) (s : State) : Step :=
  match queue with
  | item :: rest =>
      await (PQ_logsApi item rest remainingItems)
            (ELogsApi (data item) (headers item)) s
  | [] => await (PQ_saveQueue remainingItems) (ESetItem remainingItems) s
  end.

Definition pq_load (s : State) : Step := await PQ_getQueue EGetItem s.

Definition pq_begin (s : State) : Step :=
  if NetInfo then await PQ_fetch EFetch s else pq_load s.

Definition processQueue (s : State) : Step :=
  if isProcessing s then ret s
  else pq_try (pq_begin (set_isProcessing true s)).

(** After [NetInfo.fetch()] (lines 119-126). *)
Definition pq_fetched (r : Outcome bool) (s : State) : Step :=
  match r with
  | Resolved isConnected =>
      if negb isConnected
      then seq scheduleRetry ret (set_isProcessing false s)
      else pq_load s
  | Rejected => throw s
  end.

(** After [getQueue()] (lines 128-137). *)
Definition pq_loaded (r : Outcome (list QueueItem) * list Event)
    (s : State) : Step :=
  match r with
  | (Resolved queue, ev) =>
      seq (fun s => (s, ev))
          (fun s => if (length queue =? 0)%nat
                    then ret (set_isProcessing false s)
                    else pq_loop queue [] s) s
  | (Rejected, ev) => seq (fun s => (s, ev)) throw s
  end.

(** After [logsApi] for [item] (lines 139-159). *)
Definition pq_attempted (item : QueueItem) (rest remainingItems : list QueueItem)
    (r : Outcome bool) (s : State) : Step :=
  let '(keep, ev) := attempt item r in
  seq (fun s => (s, ev))
      (pq_loop rest (remainingItems ++ option_list keep)) s.

(** After [saveQueue(remainingItems)] (lines 162-167). *)
Definition pq_saved (remainingItems : list QueueItem) (ok : bool)
    (s : State) : Step :=
  let '(w, s1) := AsyncStorage_setItem ok remainingItems s in
  match saveQueue w with
  | (Resolved _, ev) =>
      seq (fun s => (s, ev))
          (fun s => if (0 <? length remainingItems)%nat
                    then seq scheduleRetry ret s
                    else ret s) s1
  | (Rejected, ev) => seq (fun s => (s, ev)) throw s1
  end.

(** *** addToQueue (lines 54-88) *)

Definition aq_try (body : Step) : Step :=
  try_catch "Error adding to location queue:" body.

Definition addToQueue (locationData : Payload) (hdrs : Headers)
    (s : State) : Step :=
  aq_try (await (AQ_getQueue locationData hdrs) EGetItem s).

(** [queue.push(newItem)] and the bound of lines 67-69. *)
Definition push_bounded (queue : list QueueItem) (newItem : QueueItem)
    : list QueueItem :=
  let queue := queue ++ [newItem] in
  if (MAX_QUEUE_SIZE <? length queue)%nat then tail queue else queue.

(** After [getQueue()] (lines 56-71). *)
Definition aq_loaded (locationData : Payload) (hdrs : Headers) (date_now : Z)
    (r : Outcome (list QueueItem) * list Event) (s : State) : Step :=
  match r with
  | (Resolved queue, ev) =>
      let newItem := mkItem locationData hdrs date_now 0 in
      let queue := push_bounded queue newItem in
      seq (fun s => (s, ev)) (await (AQ_setItem queue) (ESetItem queue)) s
  | (Rejected, ev) => seq (fun s => (s, ev)) throw s
  end.

(** [if (!this.isProcessing) this.processQueue()] *)
Definition aq_kick (s : State) : Step :=
  if negb (isProcessing s) then detached processQueue ret s else ret s.

(** After [setItem] (lines 71-84). *)
Definition aq_stored (queue : list QueueItem) (ok : bool) (s : State) : Step :=
  match AsyncStorage_setItem ok queue s with
  | (Resolved _, s1) =>
      if NetInfo then await AQ_fetch EFetch s1 else aq_kick s1
  | (Rejected, s1) => throw s1
  end.

(** After [NetInfo.fetch()] (lines 75-78). *)
Definition aq_fetched (r : Outcome bool) (s : State) : Step :=
  match r with
  | Resolved isConnected =>
      if isConnected && negb (isProcessing s)
      then detached processQueue ret s
      else ret s
  | Rejected => throw s
  end.

(** *** init, destroy and the callbacks *)

(** The listener of lines 27-31. *)
Definition onNetInfo (isConnected : bool) (s : State) : Step :=
  if isConnected && negb (isProcessing s)
  then detached processQueue ret s
  else ret s.

(** The timeout callback of lines 182-184. *)
Definition onTimeout (s : State) : Step := detached processQueue ret s.

(** [init] (lines 24-41). *)
Definition init (s : State) : Step :=
  seq (fun s => if NetInfo
                then let '(id, s1, ev) := addEventListener s in
                     (set_networkUnsubscribe id s1, ev)
                else (s, []))
      (detached processQueue
         (fun s => if negb NetInfo then seq scheduleRetry ret s else ret s))
      s.

(** [destroy] (lines 44-51). *)
Definition destroy (s : State) : Step :=
  seq (fun s => match networkUnsubscribe s with
                | Some id => unsubscribe id s
                | None => (s, [])
                end)
      (seq (fun s => match retryTimer s with
                     | Some id => clearTimeout id s
                     | None => (s, [])
                     end)
           ret)
      s.

(** ** Resuming a suspended method

    The promise awaited by [task] settles as the [t]-th one; the method
    runs on to its next await or to its end. *)
Definition resume (t : nat) (task : Task) (s : State) : Step :=
  match task with
  | PQ_fetch => pq_try (pq_fetched (fetch env t) s)
  | PQ_getQueue =>
      pq_try (pq_loaded
                (getQueue (AsyncStorage_getItem (getItem_ok env t) s)) s)
  | PQ_logsApi item rest remainingItems =>
      pq_try (pq_attempted item rest remainingItems
                (logsApi env t (data item) (headers item)) s)
  | PQ_saveQueue remainingItems =>
      pq_try (pq_saved remainingItems (setItem_ok env t) s)
  | AQ_getQueue locationData hdrs =>
      aq_try (aq_loaded locationData hdrs (now env t)
                (getQueue (AsyncStorage_getItem (getItem_ok env t) s)) s)
  | AQ_setItem queue => aq_try (aq_stored queue (setItem_ok env t) s)
  | AQ_fetch => aq_try (aq_fetched (fetch env t) s)
  end.

(** ** The whole system: the instance, the host and the methods in flight *)

Record Sys : Type := mkSys {
  state : State;
  inflight : list Task;
  tick : nat;               (* number of promises settled so far *)
  trace : list Event
}.

(** What the host can do next: call a public method, fire a pending
    timeout, report a connectivity change to the listeners, or settle the
    promise awaited by the [i]-th method in flight. *)
Inductive Action : Type :=
| CallInit
| CallDestroy
| CallAddToQueue (locationData : Payload) (hdrs : Headers)
| CallProcessQueue
| TimerFires (id : positive)
| NetChange (isConnected : bool)
| Settle (i : nat).

Definition commit (sys : Sys) (others : list Task) (t' : nat) (st : Step) : Sys :=
  mkSys (after st)
        (others ++ suspended (next st) ++ spawned st)
        t'
        (trace sys ++ emitted st).

Definition drop_timer (id : positive) (s : State) : State :=
  mkState (isProcessing s) (retryTimer s) (networkUnsubscribe s) (storage s)
          (List.filter (fun x => negb (Pos.eqb x id)) (timers s))
          (listeners s) (fresh s).

(** Every registered listener is called in turn. *)
Fixpoint notify (ls : list positive) (isConnected : bool) (s : State) : Step :=
  match ls with
  | [] => ret s
  | _ :: ls' => detached (onNetInfo isConnected) (notify ls' isConnected) s
  end.

Definition step (a : Action) (sys : Sys) : option Sys :=
  let s := state sys in
  match a with
  | CallInit => Some (commit sys (inflight sys) (tick sys) (init s))
  | CallDestroy => Some (commit sys (inflight sys) (tick sys) (destroy s))
  | CallAddToQueue d h =>
      Some (commit sys (inflight sys) (tick sys) (addToQueue d h s))
  | CallProcessQueue =>
      Some (commit sys (inflight sys) (tick sys) (processQueue s))
  | TimerFires id =>
      if existsb (Pos.eqb id) (timers s)
      then Some (commit sys (inflight sys) (tick sys)
                        (onTimeout (drop_timer id s)))
      else None
  | NetChange isConnected =>
      match listeners s with
      | [] => None
      | ls => Some (commit sys (inflight sys) (tick sys)
                           (notify ls isConnected s))
      end
  | Settle i =>
      match inflight sys !! i with
      | Some task =>
          Some (commit sys (delete i (inflight sys)) (S (tick sys))
                       (resume (tick sys) task s))
      | None => None
      end
  end.

Fixpoint exec (acts : list Action) (sys : Sys) : option Sys :=
  match acts with
  | [] => Some sys
  | a :: acts' =>
      match step a sys with
      | Some sys' => exec acts' sys'
      | None => None
      end
  end.

(** The system just after [new LocationUpdateQueue()]. *)
Definition boot (store : option (list QueueItem)) : Sys :=
  mkSys (constructor store) [] 0%nat [].

Definition reachable (store : option (list QueueItem)) (sys : Sys) : Prop :=
  exists acts, exec acts (boot store) = Some sys.

(** ** Running a method to its end, nothing else interleaved *)

(** [st] followed by [st']. *)
Definition then_ (st st' : Step) : Step :=
  mkStep (after st') (next st') (spawned st ++ spawned st')
         (emitted st ++ emitted st').

(** Settle the awaited promise again and again, at most [fuel] times. *)
Fixpoint finish (fuel : nat) (t : nat) (st : Step) : nat * Step :=
  match fuel, next st with
  | S fuel', Await task =>
      finish fuel' (S t) (then_ st (resume t task (after st)))
  | _, _ => (t, st)
  end.

(** One drain pass: a call of [processQueue] run to its end.  The fuel
    covers the connectivity probe, the load, one transport call for each
    persisted item and the save. *)
Definition drain (t : nat) (s : State) : nat * Step :=
  finish (3 + length (persisted s)) t (processQueue s).

(** [k] drain passes, one after the other. *)
Fixpoint drains (k : nat) (t : nat) (s : State) : nat * State :=
  match k with
  | O => (t, s)
  | S k' => let '(t', st) := drain t s in drains k' t' (after st)
  end.

(** A call of [addToQueue] run to its own end; a drain pass it starts is
    left in flight (in [spawned]). *)
Definition enqueue (t : nat) (locationData : Payload) (hdrs : Headers)
    (s : State) : nat * Step :=
  finish 3 t (addToQueue locationData hdrs s).

(** ** Observations *)

Definition is_pass (task : Task) : bool :=
  match task with
  | PQ_fetch | PQ_getQueue | PQ_logsApi _ _ _ | PQ_saveQueue _ => true
  | _ => false
  end.

(** The drain passes in flight. *)
Definition passes (l : list Task) : list Task := List.filter is_pass l.

(** The transport calls of a trace, in the order in which they were made. *)
Definition attempts (tr : list Event) : list (Payload * Headers) :=
  omap (fun e => match e with ELogsApi d h => Some (d, h) | _ => None end) tr.

(** The queues written to the store in a trace. *)
Definition writes (tr : list Event) : list (list QueueItem) :=
  omap (fun e => match e with ESetItem q => Some q | _ => None end) tr.

(** The events that touch the store, the transport or the timers. *)
Definition is_effect (e : Event) : bool :=
  match e with
  | EGetItem | ESetItem _ | ELogsApi _ _ | ESetTimeout _ _
  | EClearTimeout _ => true
  | _ => false
  end.

(** A retry timer is armed: the handle in [this.retryTimer] is pending. *)
Definition armed (s : State) : bool :=
  match retryTimer s with
  | Some id => existsb (Pos.eqb id) (timers s)
  | None => false
  end.

(** ** Mutual exclusion of drain passes *)

Definition flag (s : State) : nat := if isProcessing s then 1%nat else 0%nat.

(** The number of drain passes among the methods a step leaves in flight. *)
Definition started (st : Step) : nat :=
  length (passes (suspended (next st) ++ spawned st)).

(** A step sets the flag exactly when it starts a pass. *)
Definition balanced (s : State) (st : Step) : Prop :=
  flag (after st) = (flag s + started st)%nat.

Definition exclusive (sys : Sys) : Prop :=
  length (passes (inflight sys)) = flag (state sys).

(** ** Invariants of every queue the system holds

    A property of queues that holds of the empty queue and is kept by the
    bounded push of a fresh item and by one loop iteration holds, in every
    reachable state, of the persisted queue and of every queue a method
    in flight is about to write. *)

(** The queue a suspended method works on. *)
Definition held (task : Task) : list QueueItem :=
  match task with
  | PQ_logsApi item rest remainingItems => remainingItems ++ item :: rest
  | PQ_saveQueue remainingItems => remainingItems
  | AQ_setItem queue => queue
  | _ => []
  end.

(** A step that leaves the store alone and starts only methods that hold
    no queue yet. *)
Definition quiet (s : State) (st : Step) : Prop :=
  storage (after st) = storage s /\
  Forall (fun task => held task = []) (suspended (next st) ++ spawned st).

(** [P] holds of the persisted queue and of every queue held by a method
    in flight. *)
Definition sound (P : list QueueItem -> Prop) (sys : Sys) : Prop :=
  P (persisted (state sys)) /\ Forall (fun task => P (held task)) (inflight sys).

(** ** The two invariants of the persisted queue *)

Definition within_capacity (queue : list QueueItem) : Prop :=
  (length queue <= MAX_QUEUE_SIZE)%nat.


(** ** Enqueuing, one call after the other *)


(** ** One drain pass, run to its end *)

(** The items the loop re-queues when the first transport call settles as
    the [t]-th promise: the final value of [remainingItems]. *)
Fixpoint survivors (t : nat) (queue : list QueueItem) : list QueueItem :=
  match queue with
  | [] => []
  | item :: rest =>
      option_list (fst (attempt item (logsApi env t (data item) (headers item))))
        ++ survivors (S t) rest
  end.

Definition payload (item : QueueItem) : Payload * Headers :=
  (data item, headers item).

(** The tick at which the load of a pass started at [t] settles. *)
Definition load_tick (t : nat) : nat := if NetInfo then S t else t.

(** The device is online as far as the pass started at [t] can tell. *)
Definition online (t : nat) : Prop :=
  NetInfo = true -> fetch env t = Resolved true.

(** ** Items whose delivery always fails *)

(** [item] after [k] failed attempts. *)
Definition bump (k : nat) (item : QueueItem) : QueueItem :=
  mkItem (data item) (headers item) (timestamp item)
         (retryCount item + Z.of_nat k).



(** ** Retry without NetInfo *)

(** The methods suspended at a connectivity probe. *)
Definition probes (task : Task) : bool :=
  match task with
  | PQ_fetch | AQ_fetch => true
  | _ => false
  end.

(** Pending items are not forgotten: a timeout is pending or a drain pass
    is in flight. *)
Definition healing (sys : Sys) : Prop :=
  persisted (state sys) <> [] ->
  timers (state sys) <> [] \/ passes (inflight sys) <> [].

Definition is_destroy (a : Action) : bool :=
  match a with CallDestroy => true | _ => false end.

Definition self_healing (sys : Sys) : Prop :=
  exclusive sys /\
  Forall (fun task => probes task = false) (inflight sys) /\
  healing sys.

(** ** The retry timeout *)

(** No timeout is pending but the one whose handle is in
    [this.retryTimer]. *)
Definition timer_tracked (s : State) : Prop :=
  timers s = [] \/ exists id, timers s = [id] /\ retryTimer s = Some id.

(** ** Progress *)

(** A bound on the number of promises a method in flight still awaits,
    those of the drain pass it may start included. *)
Definition weight (task : Task) : nat :=
  match task with
  | PQ_saveQueue _ => 1
  | PQ_logsApi _ rest _ => length rest + 2
  | PQ_getQueue => MAX_QUEUE_SIZE + 3
  | PQ_fetch => MAX_QUEUE_SIZE + 4
  | AQ_fetch => MAX_QUEUE_SIZE + 5
  | AQ_setItem _ => MAX_QUEUE_SIZE + 6
  | AQ_getQueue _ _ => MAX_QUEUE_SIZE + 7
  end%nat.

Definition backlog (l : list Task) : nat :=
  foldr (fun task n => (weight task + n)%nat) 0%nat l.

(** * Properties *)

(** ** Mutual exclusion of drain passes *)

Lemma passes_app (l1 l2 : list Task) : passes (l1 ++ l2) = passes l1 ++ passes l2.
Proof. apply List.filter_app. Qed.

Lemma started_eq (st : Step) :
  started st = (length (passes (suspended (next st))) + length (passes (spawned st)))%nat.
Proof. unfold started. rewrite passes_app, length_app. reflexivity. Qed.

Lemma balanced_ret (s : State) : balanced s (ret s).
Proof. unfold balanced; rewrite started_eq; simpl; lia. Qed.

Lemma balanced_processQueue (s : State) : balanced s (processQueue s).
Proof.
  unfold balanced, processQueue, flag. rewrite started_eq.
  destruct (isProcessing s) eqn:E; simpl; [rewrite E; reflexivity|].
  unfold pq_begin, pq_load; destruct NetInfo; reflexivity.
Qed.

Lemma balanced_detached (callee rest : State -> Step) (s : State) :
  balanced s (callee s) ->
  (forall s', balanced s' (rest s')) ->
  balanced s (detached callee rest s).
Proof.
  unfold balanced; intros Hc Hr.
  specialize (Hr (after (callee s))).
  rewrite started_eq in *. unfold detached; simpl.
  rewrite !passes_app, !length_app. lia.
Qed.

Lemma balanced_seq (sync : State -> State * list Event) (rest : State -> Step)
    (s : State) :
  isProcessing (fst (sync s)) = isProcessing s ->
  (forall s', balanced s' (rest s')) ->
  balanced s (seq sync rest s).
Proof.
  unfold balanced, seq; intros Hs Hr.
  destruct (sync s) as [s1 ev]; simpl in *.
  specialize (Hr s1). rewrite started_eq in *; simpl.
  unfold flag in *. rewrite <- Hs. exact Hr.
Qed.

Lemma scheduleRetry_isProcessing (s : State) :
  isProcessing (fst (scheduleRetry s)) = isProcessing s.
Proof. unfold scheduleRetry; destruct (retryTimer s); reflexivity. Qed.

Lemma scheduleRetry_storage (s : State) :
  storage (fst (scheduleRetry s)) = storage s.
Proof. unfold scheduleRetry; destruct (retryTimer s); reflexivity. Qed.

Lemma balanced_try_catch (msg : string) (s : State) (st : Step) :
  balanced s st -> balanced s (try_catch msg st).
Proof.
  unfold balanced, try_catch; rewrite !started_eq.
  destruct (next st) eqn:E; simpl; rewrite ?E; simpl; auto.
Qed.

Lemma balanced_onNetInfo (c : bool) (s : State) : balanced s (onNetInfo c s).
Proof.
  unfold onNetInfo. destruct (c && negb (isProcessing s)).
  - apply balanced_detached; auto using balanced_processQueue, balanced_ret.
  - apply balanced_ret.
Qed.

Lemma balanced_notify (ls : list positive) (c : bool) (s : State) :
  balanced s (notify ls c s).
Proof.
  revert s; induction ls as [|l ls IH]; intros s; simpl.
  - apply balanced_ret.
  - apply balanced_detached; auto using balanced_onNetInfo.
Qed.

Lemma balanced_onTimeout (s : State) : balanced s (onTimeout s).
Proof.
  apply balanced_detached; auto using balanced_processQueue, balanced_ret.
Qed.

Lemma balanced_init (s : State) : balanced s (init s).
Proof.
  unfold init. apply balanced_seq.
  - destruct NetInfo; reflexivity.
  - intros s'. apply balanced_detached; [apply balanced_processQueue|].
    intros s''. destruct (negb NetInfo); [|apply balanced_ret].
    apply balanced_seq; auto using scheduleRetry_isProcessing, balanced_ret.
Qed.

Lemma balanced_destroy (s : State) : balanced s (destroy s).
Proof.
  unfold destroy. apply balanced_seq.
  - destruct (networkUnsubscribe s); reflexivity.
  - intros s'. apply balanced_seq; [|apply balanced_ret].
    destruct (retryTimer s'); reflexivity.
Qed.

Lemma balanced_addToQueue (d : Payload) (h : Headers) (s : State) :
  balanced s (addToQueue d h s).
Proof. unfold balanced; rewrite started_eq; simpl; lia. Qed.

(** Resuming [addToQueue] starts a pass exactly when it sets the flag. *)
Lemma balanced_resume_enqueue (t : nat) (task : Task) (s : State) :
  is_pass task = false -> balanced s (resume t task s).
Proof.
  destruct task; simpl; try discriminate; intros _; apply balanced_try_catch.
  - unfold aq_loaded, AsyncStorage_getItem, getQueue.
    destruct (getItem_ok env t); [destruct (storage s)|];
      unfold balanced; rewrite started_eq; simpl; lia.
  - unfold aq_stored, AsyncStorage_setItem.
    destruct (setItem_ok env t);
      [|unfold balanced; rewrite started_eq; simpl; lia].
    destruct NetInfo;
      [unfold balanced; rewrite started_eq; unfold flag; simpl; lia|].
    unfold aq_kick.
    change (isProcessing (set_storage queue s)) with (isProcessing s).
    destruct (isProcessing s) eqn:E; simpl.
    + unfold balanced; rewrite started_eq; unfold flag; simpl. lia.
    + pose proof (balanced_detached processQueue ret (set_storage queue s)
                    (balanced_processQueue _) balanced_ret) as B.
      unfold balanced in *. rewrite B. unfold flag; simpl. reflexivity.
  - unfold aq_fetched. destruct (fetch env t) as [c|].
    + apply (balanced_onNetInfo c s).
    + unfold balanced; rewrite started_eq; simpl; lia.
Qed.

(** Resuming a drain pass either suspends it again with the flag still
    set, or ends it with the flag cleared; it starts nothing else. *)
Lemma resume_pass (t : nat) (task : Task) (s : State) :
  is_pass task = true ->
  isProcessing s = true ->
  flag (after (resume t task s)) = started (resume t task s).
Proof.
  intros Hp Hs. rewrite started_eq.
  destruct task; simpl in Hp; try discriminate; simpl.
  - unfold pq_fetched. destruct (fetch env t) as [[|]|]; simpl.
    + unfold flag; simpl; rewrite Hs; reflexivity.
    + unfold pq_try, seq. destruct (scheduleRetry _) eqn:E; simpl. reflexivity.
    + reflexivity.
  - unfold pq_loaded, AsyncStorage_getItem, getQueue.
    destruct (getItem_ok env t); [destruct (storage s) as [[|it q]|]|];
      simpl; try reflexivity.
    unfold flag; simpl; rewrite Hs; reflexivity.
  - unfold pq_attempted. destruct (attempt item _) as [keep ev].
    destruct rest; simpl; unfold flag; simpl; rewrite Hs; reflexivity.
  - unfold pq_saved, AsyncStorage_setItem.
    destruct (setItem_ok env t); simpl;
      destruct (0 <? length remainingItems)%nat; simpl; try reflexivity;
      unfold pq_try, seq; destruct (scheduleRetry _); reflexivity.
Qed.

Lemma passes_delete (l : list Task) (i : nat) (task : Task) :
  l !! i = Some task ->
  length (passes l) =
  (length (passes (delete i l)) + (if is_pass task then 1 else 0))%nat.
Proof.
  revert i; induction l as [|x l IH]; intros [|i] H; simpl in *; try discriminate.
  - injection H as ->. destruct (is_pass task); simpl; lia.
  - specialize (IH i H). destruct (is_pass x); simpl; lia.
Qed.

Lemma commit_exclusive (sys : Sys) (t' : nat) (st : Step) :
  exclusive sys -> balanced (state sys) st ->
  exclusive (commit sys (inflight sys) t' st).
Proof.
  unfold exclusive, balanced, started, commit; simpl; intros E B.
  rewrite passes_app, length_app. lia.
Qed.

Lemma step_exclusive (a : Action) (sys sys' : Sys) :
  exclusive sys -> step a sys = Some sys' -> exclusive sys'.
Proof.
  intros E H. destruct a; simpl in H.
  - injection H as <-. apply commit_exclusive; auto using balanced_init.
  - injection H as <-. apply commit_exclusive; auto using balanced_destroy.
  - injection H as <-. apply commit_exclusive; auto using balanced_addToQueue.
  - injection H as <-. apply commit_exclusive; auto using balanced_processQueue.
  - destruct (existsb _ _); [|discriminate]. injection H as <-.
    pose proof (balanced_onTimeout (drop_timer id (state sys))) as B.
    remember (onTimeout (drop_timer id (state sys))) as st.
    unfold exclusive, balanced, started, commit in *; simpl.
    rewrite passes_app, length_app.
    change (flag (drop_timer id (state sys))) with (flag (state sys)) in B. lia.
  - destruct (listeners (state sys)) as [|l ls] eqn:L; [discriminate|].
    injection H as <-. apply commit_exclusive; [exact E|].
    apply (balanced_notify (l :: ls)).
  - destruct (inflight sys !! i) as [task|] eqn:L; [|discriminate].
    injection H as <-.
    pose proof (passes_delete _ _ _ L) as D.
    unfold exclusive, commit in *; simpl.
    rewrite passes_app, length_app. fold (started (resume (tick sys) task (state sys))).
    destruct (is_pass task) eqn:P.
    + assert (isProcessing (state sys) = true) as F.
      { unfold flag in E. destruct (isProcessing (state sys)); [reflexivity|lia]. }
      rewrite (resume_pass _ _ _ P F). unfold flag in E; rewrite F in E. lia.
    + rewrite (balanced_resume_enqueue _ _ _ P). lia.
Qed.

Lemma exec_exclusive (acts : list Action) (sys sys' : Sys) :
  exclusive sys -> exec acts sys = Some sys' -> exclusive sys'.
Proof.
  revert sys; induction acts as [|a acts IH]; intros sys E H; simpl in H.
  - injection H as <-. exact E.
  - destruct (step a sys) as [sys1|] eqn:S; [|discriminate].
    eauto using step_exclusive.
Qed.

Lemma reachable_exclusive (store : option (list QueueItem)) (sys : Sys) :
  reachable store sys -> exclusive sys.
Proof. intros [acts H]. eapply exec_exclusive; [|exact H]. reflexivity. Qed.

(** ** Invariants of every queue the system holds *)

Lemma quiet_ret (s : State) : quiet s (ret s).
Proof. split; [reflexivity|constructor]. Qed.

Lemma quiet_processQueue (s : State) : quiet s (processQueue s).
Proof.
  unfold processQueue. destruct (isProcessing s); [apply quiet_ret|].
  unfold pq_begin, pq_load; destruct NetInfo; split; simpl; auto.
Qed.

Lemma quiet_detached (callee rest : State -> Step) (s : State) :
  quiet s (callee s) -> (forall s', quiet s' (rest s')) ->
  quiet s (detached callee rest s).
Proof.
  intros [Hc1 Hc2] Hr. destruct (Hr (after (callee s))) as [Hr1 Hr2].
  split; simpl; [congruence|].
  apply Forall_app in Hc2 as [Hc2 Hc3]. apply Forall_app in Hr2 as [Hr2 Hr3].
  rewrite !Forall_app. auto.
Qed.

Lemma quiet_seq (sync : State -> State * list Event) (rest : State -> Step)
    (s : State) :
  storage (fst (sync s)) = storage s -> (forall s', quiet s' (rest s')) ->
  quiet s (seq sync rest s).
Proof.
  unfold seq; intros Hs Hr. destruct (sync s) as [s1 ev]; simpl in *.
  destruct (Hr s1) as [Hr1 Hr2]. split; simpl; [congruence|exact Hr2].
Qed.

Lemma quiet_onNetInfo (c : bool) (s : State) : quiet s (onNetInfo c s).
Proof.
  unfold onNetInfo. destruct (c && negb (isProcessing s));
    auto using quiet_detached, quiet_processQueue, quiet_ret.
Qed.

Lemma quiet_notify (ls : list positive) (c : bool) (s : State) :
  quiet s (notify ls c s).
Proof.
  revert s; induction ls as [|l ls IH]; intros s; simpl;
    auto using quiet_detached, quiet_onNetInfo, quiet_ret.
Qed.

Lemma quiet_onTimeout (s : State) : quiet s (onTimeout s).
Proof. apply quiet_detached; auto using quiet_processQueue, quiet_ret. Qed.

Lemma quiet_init (s : State) : quiet s (init s).
Proof.
  unfold init. apply quiet_seq; [destruct NetInfo; reflexivity|].
  intros s'. apply quiet_detached; [apply quiet_processQueue|].
  intros s''. destruct (negb NetInfo); [|apply quiet_ret].
  apply quiet_seq; auto using scheduleRetry_storage, quiet_ret.
Qed.

Lemma quiet_destroy (s : State) : quiet s (destroy s).
Proof.
  unfold destroy. apply quiet_seq; [destruct (networkUnsubscribe s); reflexivity|].
  intros s'. apply quiet_seq; [destruct (retryTimer s'); reflexivity|].
  apply quiet_ret.
Qed.

Lemma quiet_addToQueue (d : Payload) (h : Headers) (s : State) :
  quiet s (addToQueue d h s).
Proof. split; simpl; auto. Qed.

(** A pass that has saved ends: the store holds [remainingItems] if the
    write succeeded and is unchanged otherwise. *)
Lemma pq_saved_facts (remainingItems : list QueueItem) (ok : bool) (s : State) :
  storage (after (pq_try (pq_saved remainingItems ok s))) =
    (if ok then Some remainingItems else storage s) /\
  next (pq_try (pq_saved remainingItems ok s)) = Return /\
  spawned (pq_try (pq_saved remainingItems ok s)) = [] /\
  isProcessing (after (pq_try (pq_saved remainingItems ok s))) = false.
Proof.
  unfold pq_saved, AsyncStorage_setItem, pq_try, seq, scheduleRetry.
  destruct ok; destruct (0 <? length remainingItems)%nat; simpl;
    destruct (retryTimer s); simpl; auto.
Qed.

Lemma try_catch_facts (msg : string) (st : Step) :
  after (try_catch msg st) = after st /\
  suspended (next (try_catch msg st)) = suspended (next st) /\
  spawned (try_catch msg st) = spawned st.
Proof. unfold try_catch. destruct (next st) eqn:E; simpl; rewrite ?E; auto. Qed.

Section QueueInvariant.

Variable P : list QueueItem -> Prop.
Hypothesis P_nil : P [].
Hypothesis P_push :
  forall queue d h ts, P queue -> P (push_bounded queue (mkItem d h ts 0)).
Hypothesis P_attempt :
  forall remainingItems item rest r,
    P (remainingItems ++ item :: rest) ->
    P ((remainingItems ++ option_list (fst (attempt item r))) ++ rest).

Lemma quiet_sound (s : State) (st : Step) :
  quiet s st -> P (persisted s) ->
  P (persisted (after st)) /\
  Forall (fun task => P (held task)) (suspended (next st) ++ spawned st).
Proof.
  intros [Q1 Q2] Hp. unfold persisted in *. rewrite Q1. split; [exact Hp|].
  eapply Forall_impl; [exact Q2|]. simpl. intros task ->. exact P_nil.
Qed.

Lemma resume_sound (t : nat) (task : Task) (s : State) :
  P (persisted s) -> P (held task) ->
  P (persisted (after (resume t task s))) /\
  Forall (fun task' => P (held task'))
         (suspended (next (resume t task s)) ++ spawned (resume t task s)).
Proof.
  intros Hs Ht.
  assert (forall s0, P (persisted s0) ->
            P (persisted (after (pq_try (seq scheduleRetry ret s0))))) as R.
  { intros s0 H0. unfold pq_try, seq.
    pose proof (scheduleRetry_storage s0) as S.
    destruct (scheduleRetry s0) as [s1 ev]; simpl in *.
    unfold persisted in *; simpl. rewrite S. exact H0. }
  assert (forall s0, next (pq_try (seq scheduleRetry ret s0)) = Return
            /\ spawned (pq_try (seq scheduleRetry ret s0)) = []) as N.
  { intros s0. unfold pq_try, seq.
    destruct (scheduleRetry s0) as [s1 ev]; simpl; auto. }
  destruct task; simpl in *.
  - unfold pq_fetched. destruct (fetch env t) as [[|]|]; simpl;
      try (split; [assumption|repeat constructor; assumption]).
    destruct (N (set_isProcessing false s)) as [-> ->].
    split; [apply R; exact Hs|constructor].
  - unfold pq_loaded, AsyncStorage_getItem, getQueue.
    unfold persisted in *.
    destruct (getItem_ok env t); [destruct (storage s) as [[|it q]|] eqn:E|];
      simpl in *; rewrite ?E; (split; [assumption|repeat constructor; assumption]).
  - unfold pq_attempted.
    pose proof (P_attempt _ _ _ (logsApi env t (data item) (headers item)) Ht) as A.
    destruct (attempt item _) as [keep ev]; simpl in A.
    destruct rest; simpl; (split; [assumption|repeat constructor]); simpl.
    + rewrite app_nil_r in A. exact A.
    + exact A.
  - destruct (pq_saved_facts remainingItems (setItem_ok env t) s)
      as (F1 & -> & -> & _).
    unfold persisted; rewrite F1. split; [|constructor].
    destruct (setItem_ok env t); assumption.
  - unfold aq_loaded, AsyncStorage_getItem, getQueue.
    unfold persisted in *.
    destruct (getItem_ok env t); [destruct (storage s) eqn:E|]; simpl in *;
      rewrite ?E; (split; [assumption|repeat constructor]); simpl;
      apply P_push; assumption.
  - unfold aq_stored, AsyncStorage_setItem.
    destruct (setItem_ok env t);
      [|simpl; split; [assumption|constructor]].
    destruct NetInfo; [simpl; split; [assumption|repeat constructor; assumption]|].
    assert (quiet (set_storage queue s) (aq_kick (set_storage queue s))) as Q.
    { unfold aq_kick. destruct (negb _);
        auto using quiet_detached, quiet_processQueue, quiet_ret. }
    apply quiet_sound in Q; [|exact Ht].
    unfold aq_try. destruct (try_catch_facts "Error adding to location queue:"
      (aq_kick (set_storage queue s))) as (-> & -> & ->). exact Q.
  - unfold aq_fetched. destruct (fetch env t) as [c|];
      [|simpl; split; [assumption|constructor]].
    pose proof (quiet_sound _ _ (quiet_onNetInfo c s) Hs) as Q.
    unfold aq_try. destruct (try_catch_facts "Error adding to location queue:"
      (onNetInfo c s)) as (F1 & F2 & F3).
    unfold onNetInfo in *. rewrite F1, F2, F3. exact Q.
Qed.

Lemma step_sound (a : Action) (sys sys' : Sys) :
  sound P sys -> step a sys = Some sys' -> sound P sys'.
Proof.
  intros [S1 S2] H.
  assert (forall st t', quiet (state sys) st ->
            sound P (commit sys (inflight sys) t' st)) as Q.
  { intros st t' Hq. destruct (quiet_sound _ _ Hq S1) as [Q1 Q2].
    split; simpl; [exact Q1|]. apply Forall_app; auto. }
  destruct a; simpl in H.
  - injection H as <-. apply Q, quiet_init.
  - injection H as <-. apply Q, quiet_destroy.
  - injection H as <-. apply Q, quiet_addToQueue.
  - injection H as <-. apply Q, quiet_processQueue.
  - destruct (existsb _ _); [|discriminate]. injection H as <-.
    destruct (quiet_sound _ _ (quiet_onTimeout (drop_timer id (state sys))) S1)
      as [Q1 Q2].
    split; simpl; [exact Q1|]. apply Forall_app; auto.
  - destruct (listeners (state sys)) as [|l ls] eqn:L; [discriminate|].
    injection H as <-. apply Q, (quiet_notify (l :: ls)).
  - destruct (inflight sys !! i) as [task|] eqn:L; [|discriminate].
    injection H as <-.
    assert (P (held task)) as Ht.
    { rewrite Forall_lookup in S2. exact (S2 _ _ L). }
    destruct (resume_sound (tick sys) task (state sys) S1 Ht) as [R1 R2].
    split; simpl; [exact R1|]. apply Forall_app; split; [|exact R2].
    apply Forall_delete. exact S2.
Qed.

Lemma exec_sound (acts : list Action) (sys sys' : Sys) :
  sound P sys -> exec acts sys = Some sys' -> sound P sys'.
Proof.
  revert sys; induction acts as [|a acts IH]; intros sys E H; simpl in H.
  - injection H as <-. exact E.
  - destruct (step a sys) as [sys1|] eqn:S; [|discriminate].
    eauto using step_sound.
Qed.

Lemma reachable_sound (store : option (list QueueItem)) (sys : Sys) :
  P (default [] store) -> reachable store sys -> sound P sys.
Proof.
  intros Hp [acts H]. eapply exec_sound; [|exact H].
  split; [exact Hp|constructor].
Qed.

End QueueInvariant.

(** ** Capacity and retry range *)

Lemma length_tail {A : Type} (l : list A) : length (tail l) = (length l - 1)%nat.
Proof. destruct l; simpl; lia. Qed.

Lemma push_bounded_capacity (queue : list QueueItem) (item : QueueItem) :
  within_capacity queue -> within_capacity (push_bounded queue item).
Proof.
  unfold within_capacity, push_bounded; intros H.
  destruct (Nat.ltb_spec MAX_QUEUE_SIZE (length (queue ++ [item]))) as [L|L].
  - rewrite length_tail, length_app; simpl. lia.
  - exact L.
Qed.

Lemma attempt_length (item : QueueItem) (r : Outcome bool) :
  (length (option_list (fst (attempt item r))) <= 1)%nat.
Proof.
  unfold attempt. destruct r as [e|];
    [destruct (negb e || _)|destruct (_ <? _)]; simpl; lia.
Qed.

Lemma attempt_capacity (remainingItems : list QueueItem) (item : QueueItem)
    (rest : list QueueItem) (r : Outcome bool) :
  within_capacity (remainingItems ++ item :: rest) ->
  within_capacity ((remainingItems ++ option_list (fst (attempt item r))) ++ rest).
Proof.
  unfold within_capacity. pose proof (attempt_length item r).
  rewrite !length_app; simpl. lia.
Qed.

(** What [attempt] keeps is the item with its count raised by one, and it
    keeps it only below the limit. *)
Lemma attempt_keeps (item kept : QueueItem) (r : Outcome bool) :
  fst (attempt item r) = Some kept ->
  kept = incrRetry item /\ retryCount item < MAX_RETRY_COUNT.
Proof.
  unfold attempt. destruct r as [e|]; simpl.
  - destruct (negb e || (retryCount item >=? MAX_RETRY_COUNT)) eqn:E;
      simpl; intros H; [discriminate|]. injection H as <-.
    apply orb_false_iff in E as [_ E]. rewrite Z.geb_leb in E.
    apply Z.leb_gt in E. auto.
  - destruct (retryCount item <? MAX_RETRY_COUNT) eqn:E; intros H;
      [|discriminate]. injection H as <-. apply Z.ltb_lt in E. auto.
Qed.



(** ** Enqueuing, one call after the other *)







(** ** One drain pass, run to its end *)

Lemma attempts_app (e1 e2 : list Event) :
  attempts (e1 ++ e2) = attempts e1 ++ attempts e2.
Proof. apply omap_app. Qed.

Lemma writes_app (e1 e2 : list Event) :
  writes (e1 ++ e2) = writes e1 ++ writes e2.
Proof. apply omap_app. Qed.

Lemma attempt_events (item : QueueItem) (r : Outcome bool) :
  attempts (snd (attempt item r)) = [] /\ writes (snd (attempt item r)) = [] /\
  List.filter is_effect (snd (attempt item r)) = [].
Proof.
  unfold attempt. destruct r as [e|]; [destruct (negb e || _)|]; auto.
Qed.

(** The events of the step that ends a pass after its save. *)
Lemma pq_saved_events (remainingItems : list QueueItem) (ok : bool) (s : State) :
  attempts (emitted (pq_try (pq_saved remainingItems ok s))) = [] /\
  writes (emitted (pq_try (pq_saved remainingItems ok s))) = [].
Proof.
  unfold pq_saved, AsyncStorage_setItem, pq_try, seq, scheduleRetry.
  destruct ok; destruct (0 <? length remainingItems)%nat; simpl;
    destruct (retryTimer s); simpl; auto.
Qed.

(** From the head of the loop to the end of the pass. *)
Lemma finish_loop (queue : list QueueItem) :
  forall (remainingItems : list QueueItem) (t fuel : nat) (s : State)
         (sp : list Task) (ev : list Event),
    (length queue < fuel)%nat ->
    let st := mkStep s (next (pq_loop queue remainingItems s)) sp
                     (ev ++ emitted (pq_loop queue remainingItems s)) in
    let fin := pq_try (pq_saved (remainingItems ++ survivors t queue)
                                (setItem_ok env (t + length queue)) s) in
    fst (finish fuel t st) = S (t + length queue) /\
    after (snd (finish fuel t st)) = after fin /\
    next (snd (finish fuel t st)) = Return /\
    spawned (snd (finish fuel t st)) = sp /\
    attempts (emitted (snd (finish fuel t st))) = attempts ev ++ map payload queue /\
    writes (emitted (snd (finish fuel t st))) =
      writes ev ++ [remainingItems ++ survivors t queue].
Proof.
  induction queue as [|item rest IH]; intros rem t fuel s sp ev Hf;
    (destruct fuel as [|fuel]; [simpl in Hf; lia|]).
  - cbn [finish next pq_loop await suspended length survivors resume then_
         after spawned emitted].
    rewrite Nat.add_0_r, app_nil_r.
    destruct (pq_saved_facts rem (setItem_ok env t) s) as (_ & N & Sp & _).
    destruct (pq_saved_events rem (setItem_ok env t) s) as (A & W).
    assert (forall st', next st' = Return -> finish fuel (S t) st' = (S t, st')) as F.
    { intros st' E. destruct fuel; simpl; rewrite ?E; reflexivity. }
    rewrite F by exact N. unfold then_.
    cbn [fst snd after next spawned emitted].
    rewrite Sp, app_nil_r, !attempts_app, !writes_app, A, W.
    cbn. rewrite !app_nil_r. repeat split; auto.
  - cbn [finish next pq_loop await suspended resume after]. unfold then_.
    cbn [after next spawned emitted resume]. unfold pq_attempted.
    destruct (attempt_events item (logsApi env t (data item) (headers item)))
      as (A & W & _).
    destruct (attempt item (logsApi env t (data item) (headers item)))
      as [keep ev1] eqn:E.
    cbn [fst snd] in *.
    assert (pq_try (seq (fun s0 => (s0, ev1))
                        (pq_loop rest (rem ++ option_list keep)) s)
            = mkStep s (next (pq_loop rest (rem ++ option_list keep) s)) []
                     (ev1 ++ emitted (pq_loop rest (rem ++ option_list keep) s)))
      as ->.
    { destruct rest; reflexivity. }
    cbn [after next spawned emitted await].
    rewrite app_nil_r.
    replace ((ev ++ [ELogsApi (data item) (headers item)]) ++
             ev1 ++ emitted (pq_loop rest (rem ++ option_list keep) s))
      with ((ev ++ [ELogsApi (data item) (headers item)] ++ ev1) ++
            emitted (pq_loop rest (rem ++ option_list keep) s))
      by (rewrite <- !app_assoc; reflexivity).
    specialize (IH (rem ++ option_list keep) (S t) fuel s sp
                   (ev ++ [ELogsApi (data item) (headers item)] ++ ev1)).
    cbn zeta in IH. destruct IH as (I1 & I2 & I3 & I4 & I5 & I6);
      [simpl in Hf; lia|].
    cbn [length survivors map]. rewrite E. cbn [fst].
    rewrite I1, I2, I3, I4, I5, I6.
    rewrite !attempts_app, !writes_app, A, W. cbn.
    rewrite <- !app_assoc, ?app_nil_r. cbn.
    replace (t + S (length rest))%nat with (S (t + length rest)) by lia.
    repeat split; auto.
Qed.

Lemma finish_loop_from (queue remainingItems : list QueueItem) (t fuel : nat)
    (st : Step) (ev : list Event) :
  (length queue < fuel)%nat ->
  next st = next (pq_loop queue remainingItems (after st)) ->
  emitted st = ev ++ emitted (pq_loop queue remainingItems (after st)) ->
  fst (finish fuel t st) = S (t + length queue) /\
  after (snd (finish fuel t st)) =
    after (pq_try (pq_saved (remainingItems ++ survivors t queue)
                            (setItem_ok env (t + length queue)) (after st))) /\
  next (snd (finish fuel t st)) = Return /\
  spawned (snd (finish fuel t st)) = spawned st /\
  attempts (emitted (snd (finish fuel t st))) = attempts ev ++ map payload queue /\
  writes (emitted (snd (finish fuel t st))) =
    writes ev ++ [remainingItems ++ survivors t queue].
Proof.
  destruct st as [s n sp e]; simpl. intros Hf -> ->.
  apply (finish_loop queue remainingItems t fuel s sp ev Hf).
Qed.

Lemma finish_done (fuel t : nat) (st : Step) :
  next st <> Throw -> (forall task, next st <> Await task) ->
  finish fuel t st = (t, st).
Proof.
  intros H1 H2. destruct fuel; simpl; [reflexivity|].
  destruct (next st) as [task| |]; try reflexivity. elim (H2 task); reflexivity.
Qed.

(** A call made while a pass is in flight does nothing. *)
Lemma drain_busy (t : nat) (s : State) :
  isProcessing s = true -> drain t s = (t, ret s).
Proof.
  intros H. unfold drain, processQueue. rewrite H. reflexivity.
Qed.

Lemma finish_step (fuel t : nat) (st : Step) (task : Task) :
  next st = Await task ->
  finish (S fuel) t st = finish fuel (S t) (then_ st (resume t task (after st))).
Proof. intros E. simpl. rewrite E. reflexivity. Qed.

Lemma resume_fetch_online (t : nat) (s : State) :
  fetch env t = Resolved true ->
  resume t PQ_fetch s = await PQ_getQueue EGetItem s.
Proof. intros E. simpl. unfold pq_fetched. rewrite E. reflexivity. Qed.

Lemma resume_getQueue_items (t : nat) (s : State) (item : QueueItem)
    (q : list QueueItem) :
  getItem_ok env t = true -> storage s = Some (item :: q) ->
  resume t PQ_getQueue s = pq_loop (item :: q) [] s.
Proof.
  intros E1 E2. simpl. unfold AsyncStorage_getItem. rewrite E1, E2. reflexivity.
Qed.

(** A load that fails or finds nothing ends the pass. *)
Lemma resume_getQueue_empty (t : nat) (s : State) :
  getItem_ok env t = false \/ persisted s = [] ->
  resume t PQ_getQueue s =
  mkStep (set_isProcessing false (set_isProcessing false s)) Return []
         (if getItem_ok env t then [] else [ELog "Error getting location queue:"]).
Proof.
  intros H. simpl. unfold AsyncStorage_getItem, persisted in *.
  destruct (getItem_ok env t).
  - destruct H as [H|H]; [discriminate|].
    destruct (storage s) as [q|]; simpl in H; [subst q|]; reflexivity.
  - reflexivity.
Qed.

(** A pass over a non-empty queue. *)
Lemma drain_items (t : nat) (s : State) :
  isProcessing s = false -> online t ->
  getItem_ok env (load_tick t) = true -> persisted s <> [] ->
  fst (drain t s) = S (S (load_tick t) + length (persisted s)) /\
  after (snd (drain t s)) =
    after (pq_try (pq_saved (survivors (S (load_tick t)) (persisted s))
                     (setItem_ok env (S (load_tick t) + length (persisted s)))
                     (set_isProcessing true s))) /\
  next (snd (drain t s)) = Return /\
  spawned (snd (drain t s)) = [] /\
  attempts (emitted (snd (drain t s))) = map payload (persisted s) /\
  writes (emitted (snd (drain t s))) =
    [survivors (S (load_tick t)) (persisted s)].
Proof.
  intros Hf Hon Hr Hq. unfold drain, processQueue, load_tick, online in *.
  rewrite Hf. unfold pq_begin, pq_load.
  assert (exists item q, storage s = Some (item :: q) /\ persisted s = item :: q)
    as (item & q & Es & Ep).
  { unfold persisted in *.
    destruct (storage s) as [[|item q]|]; simpl in Hq; try congruence; eauto. }
  rewrite Ep.
  change (3 + length (item :: q))%nat with (S (S (S (length (item :: q))))).
  destruct NetInfo.
  - rewrite (finish_step _ _ _ PQ_fetch) by reflexivity.
    rewrite resume_fetch_online by auto.
    rewrite (finish_step _ _ _ PQ_getQueue) by reflexivity.
    rewrite (resume_getQueue_items _ _ item q) by auto.
    match goal with |- context [finish ?f ?t' ?st] =>
      destruct (finish_loop_from (item :: q) [] t' f st [EFetch; EGetItem])
        as (I1 & I2 & I3 & I4 & I5 & I6); [simpl; lia|reflexivity|reflexivity|]
    end.
    rewrite I1, I2, I3, I4, I5, I6. repeat split; reflexivity.
  - rewrite (finish_step _ _ _ PQ_getQueue) by reflexivity.
    rewrite (resume_getQueue_items _ _ item q) by auto.
    match goal with |- context [finish ?f ?t' ?st] =>
      destruct (finish_loop_from (item :: q) [] t' f st [EGetItem])
        as (I1 & I2 & I3 & I4 & I5 & I6); [simpl; lia|reflexivity|reflexivity|]
    end.
    rewrite I1, I2, I3, I4, I5, I6. repeat split; reflexivity.
Qed.

(** A pass that loads an empty queue leaves the state as it found it. *)
Lemma drain_empty (t : nat) (s : State) :
  isProcessing s = false -> online t ->
  getItem_ok env (load_tick t) = false \/ persisted s = [] ->
  fst (drain t s) = S (load_tick t) /\
  after (snd (drain t s)) = s /\
  next (snd (drain t s)) = Return /\
  spawned (snd (drain t s)) = [] /\
  List.filter is_effect (emitted (snd (drain t s))) = [EGetItem].
Proof.
  intros Hf Hon Hq. unfold drain, processQueue, load_tick, online in *.
  rewrite Hf. unfold pq_begin, pq_load.
  assert (set_isProcessing false (set_isProcessing false (set_isProcessing true s)) = s) as Es.
  { destruct s; simpl in *; subst; reflexivity. }
  change (3 + length (persisted s))%nat
    with (S (S (S (length (persisted s))))).
  destruct NetInfo.
  - rewrite (finish_step _ _ _ PQ_fetch) by reflexivity.
    rewrite resume_fetch_online by auto.
    rewrite (finish_step _ _ _ PQ_getQueue) by reflexivity.
    rewrite resume_getQueue_empty by exact Hq.
    rewrite finish_done by (simpl; congruence).
    cbn. rewrite Es. destruct (getItem_ok env (S t)); auto.
  - rewrite (finish_step _ _ _ PQ_getQueue) by reflexivity.
    rewrite resume_getQueue_empty by exact Hq.
    rewrite finish_done by (simpl; congruence).
    cbn. rewrite Es. destruct (getItem_ok env t); auto.
Qed.

(** ** Items whose delivery always fails *)

Section Doomed.

(** [doomed]: the payloads the transport never delivers. *)
Variable doomed : Payload -> Headers -> bool.

Hypothesis always_fails :
  forall t d h, doomed d h = true -> logsApi env t d h <> Resolved false.




End Doomed.

(** What one pass persists when the device is online and the store works. *)
Lemma drain_persisted (t : nat) (s : State) :
  isProcessing s = false -> online t ->
  getItem_ok env (load_tick t) = true ->
  setItem_ok env (S (load_tick t) + length (persisted s)) = true ->
  persisted (after (snd (drain t s))) = survivors (S (load_tick t)) (persisted s) /\
  isProcessing (after (snd (drain t s))) = false /\
  next (snd (drain t s)) = Return.
Proof.
  intros Hf Hon Hr Hw.
  destruct (persisted s) as [|item q] eqn:Ep.
  - destruct (drain_empty t s Hf Hon (or_intror Ep)) as (_ & -> & N & _).
    rewrite Ep. auto.
  - assert (persisted s <> []) as Hq by (rewrite Ep; discriminate).
    destruct (drain_items t s Hf Hon Hr Hq) as (_ & -> & N & _).
    rewrite Ep in *. rewrite Hw.
    destruct (pq_saved_facts (survivors (S (load_tick t)) (item :: q)) true
                (set_isProcessing true s)) as (F1 & _ & _ & F4).
    unfold persisted. rewrite F1. auto.
Qed.








(** ** Order of delivery *)

(** A pass that finds the device offline, or whose connectivity probe
    fails, ends without touching the store or the transport. *)
Lemma drain_offline (t : nat) (s : State) :
  isProcessing s = false -> NetInfo = true -> fetch env t <> Resolved true ->
  storage (after (snd (drain t s))) = storage s /\
  isProcessing (after (snd (drain t s))) = false /\
  next (snd (drain t s)) = Return /\
  attempts (emitted (snd (drain t s))) = [] /\
  writes (emitted (snd (drain t s))) = [] /\
  spawned (snd (drain t s)) = [].
Proof.
  intros Hf Hn Hc. unfold drain, processQueue, pq_begin. rewrite Hf, Hn.
  change (3 + length (persisted s))%nat
    with (S (S (S (length (persisted s))))).
  rewrite (finish_step _ _ _ PQ_fetch) by reflexivity.
  cbn [resume]. unfold pq_fetched.
  destruct (fetch env t) as [[|]|]; [congruence| |].
  - rewrite finish_done.
    + unfold then_, pq_try, seq, scheduleRetry. cbn.
      destruct (retryTimer s); cbn; repeat split; auto.
    + unfold then_, pq_try, seq, scheduleRetry. cbn.
      destruct (retryTimer s); cbn; congruence.
    + unfold then_, pq_try, seq, scheduleRetry. cbn.
      destruct (retryTimer s); cbn; congruence.
  - rewrite finish_done by (cbn; congruence). cbn. repeat split; auto.
Qed.

(** What the loop keeps is a subsequence of the queue, each item with its
    count raised by one. *)
Lemma survivors_sublist (queue : list QueueItem) (t : nat) :
  exists kept, sublist kept queue /\ survivors t queue = map incrRetry kept.
Proof.
  revert t; induction queue as [|item rest IH]; intros t.
  - exists []. split; [constructor|reflexivity].
  - destruct (IH (S t)) as (kept & Hs & He). cbn [survivors]. rewrite He.
    destruct (fst (attempt item _)) as [k|] eqn:E.
    + apply attempt_keeps in E as [-> _].
      exists (item :: kept). split; [constructor; exact Hs|reflexivity].
    + exists kept. split; [constructor; exact Hs|reflexivity].
Qed.

Lemma attempts_effects (ev : list Event) :
  attempts ev = attempts (List.filter is_effect ev).
Proof.
  unfold attempts, writes.
  induction ev as [|e ev IH]; [reflexivity|].
  destruct e; simpl; first [exact IH | f_equal; exact IH].
Qed.

Lemma writes_effects (ev : list Event) :
  writes ev = writes (List.filter is_effect ev).
Proof.
  unfold attempts, writes.
  induction ev as [|e ev IH]; [reflexivity|].
  destruct e; simpl; first [exact IH | f_equal; exact IH].
Qed.

Lemma drain_empty_quiet (t : nat) (s : State) :
  isProcessing s = false -> online t ->
  getItem_ok env (load_tick t) = false \/ persisted s = [] ->
  after (snd (drain t s)) = s /\
  attempts (emitted (snd (drain t s))) = [] /\
  writes (emitted (snd (drain t s))) = [].
Proof.
  intros Hf Hon Hq.
  destruct (drain_empty t s Hf Hon Hq) as (_ & E & _ & _ & F).
  rewrite attempts_effects, writes_effects, F. auto.
Qed.

(** Every pass either leaves the persisted queue as it was, or replaces it
    by what its loop kept of it; and it calls the transport either not at
    all or once for each persisted item, in the order of the queue. *)
Lemma drain_order (t : nat) (s : State) :
  (persisted (after (snd (drain t s))) = persisted s \/
   persisted (after (snd (drain t s))) =
     survivors (S (load_tick t)) (persisted s)) /\
  (attempts (emitted (snd (drain t s))) = [] \/
   attempts (emitted (snd (drain t s))) = map payload (persisted s)).
Proof.
  destruct (isProcessing s) eqn:Hf.
  { rewrite drain_busy by exact Hf. simpl. auto. }
  assert (online t -> getItem_ok env (load_tick t) = false \/ persisted s = [] ->
          persisted (after (snd (drain t s))) = persisted s /\
          attempts (emitted (snd (drain t s))) = []) as Hempty.
  { intros Hon Hq. destruct (drain_empty_quiet t s Hf Hon Hq) as (-> & -> & _).
    auto. }
  assert (online t -> getItem_ok env (load_tick t) = true -> persisted s <> [] ->
          (persisted (after (snd (drain t s))) = persisted s \/
           persisted (after (snd (drain t s))) =
             survivors (S (load_tick t)) (persisted s)) /\
          attempts (emitted (snd (drain t s))) = map payload (persisted s))
    as Hitems.
  { intros Hon Hr Hq.
    destruct (drain_items t s Hf Hon Hr Hq) as (_ & -> & _ & _ & -> & _).
    split; [|reflexivity].
    match goal with |- context [pq_saved ?r ?ok ?s0] =>
      destruct (pq_saved_facts r ok s0) as (F & _); destruct ok
    end; unfold persisted in *; rewrite F; auto. }
  assert (online t -> (persisted (after (snd (drain t s))) = persisted s \/
           persisted (after (snd (drain t s))) =
             survivors (S (load_tick t)) (persisted s)) /\
          (attempts (emitted (snd (drain t s))) = [] \/
           attempts (emitted (snd (drain t s))) = map payload (persisted s)))
    as Honline.
  { intros Hon. destruct (getItem_ok env (load_tick t)) eqn:Hr.
    - destruct (persisted s) as [|item q] eqn:Ep.
      + destruct Hempty as [-> ->]; auto.
      + destruct Hitems as [H ->]; auto; congruence.
    - destruct Hempty as [-> ->]; auto. }
  destruct NetInfo eqn:Hn.
  - destruct (fetch env t) as [[|]|] eqn:Hc.
    + apply Honline. intros _. exact Hc.
    + destruct (drain_offline t s Hf Hn) as (E & _ & _ & A & _ & _);
        [congruence|]. unfold persisted. rewrite E. auto.
    + destruct (drain_offline t s Hf Hn) as (E & _ & _ & A & _ & _);
        [congruence|]. unfold persisted. rewrite E. auto.
  - apply Honline. unfold online. congruence.
Qed.

Lemma sublist_map_inv {A B : Type} (f : A -> B) (l : list A) (k : list B) :
  sublist k (map f l) -> exists k', sublist k' l /\ k = map f k'.
Proof.
  revert k; induction l as [|x l IH]; intros k H; simpl in H.
  - inversion H; subst. exists []. split; [constructor|reflexivity].
  - inversion H as [|? ? ? H'|? ? ? H']; subst.
    + destruct (IH _ H') as (k' & S' & ->).
      exists (x :: k'). split; [constructor; exact S'|reflexivity].
    + destruct (IH _ H') as (k' & S' & ->).
      exists k'. split; [constructor; exact S'|reflexivity].
Qed.

Lemma bump_S (j : nat) (item : QueueItem) :
  bump j (incrRetry item) = bump (S j) item.
Proof.
  unfold bump, incrRetry. cbn [data headers timestamp retryCount].
  f_equal. lia.
Qed.

Lemma bump_O (queue : list QueueItem) : map (bump 0) queue = queue.
Proof.
  induction queue as [|x queue IH]; [reflexivity|].
  cbn [map]. rewrite IH. f_equal.
  destruct x; unfold bump; cbn [data headers timestamp retryCount].
  f_equal. lia.
Qed.

(** After any number of passes the persisted queue is a subsequence of
    the one before them, every item with its count raised by the number
    of passes that wrote. *)
Lemma drains_order (k : nat) :
  forall t s, exists j kept,
    (j <= k)%nat /\ sublist kept (persisted s) /\
    persisted (snd (drains k t s)) = map (bump j) kept.
Proof.
  induction k as [|k IH]; intros t s.
  - exists 0%nat, (persisted s). rewrite bump_O. simpl. auto.
  - cbn [drains]. destruct (drain_order t s) as [[E|E] _];
      destruct (drain t s) as [t' st]; cbn [fst snd] in *;
      destruct (IH t' (after st)) as (j & kept & Hj & Hs & Hp).
    + exists j, kept. rewrite E in Hs. auto.
    + destruct (survivors_sublist (persisted s) (S (load_tick t)))
        as (kept0 & Hs0 & E0).
      rewrite E, E0 in Hs. apply sublist_map_inv in Hs as (kept1 & Hs1 & ->).
      exists (S j), kept1. split; [lia|]. split; [etrans; eassumption|].
      rewrite Hp, List.map_map. apply List.map_ext. intros x. apply bump_S.
Qed.

(** C3.  A drain pass that gets to its loop calls the transport once for
    each persisted item, in the order of the queue, oldest first; a pass
    calls it in that order or not at all.  What a pass persists is a
    subsequence of the queue it loaded, in the same order (each item with
    its count raised by one), and so is the queue persisted after any
    number of passes. *)
Theorem processQueue_fifo :
  (forall t s,
      isProcessing s = false -> online t ->
      getItem_ok env (load_tick t) = true ->
      attempts (emitted (snd (drain t s))) = map payload (persisted s)) /\
  (forall t s,
      attempts (emitted (snd (drain t s))) = [] \/
      attempts (emitted (snd (drain t s))) = map payload (persisted s)) /\
  (forall t s, exists kept,
      sublist kept (persisted s) /\
      (persisted (after (snd (drain t s))) = persisted s \/
       persisted (after (snd (drain t s))) = map incrRetry kept)) /\
  (forall k t s, exists j kept,
      (j <= k)%nat /\ sublist kept (persisted s) /\
      persisted (snd (drains k t s)) = map (bump j) kept).
Proof.
  split; [|split; [|split]].
  - intros t s Hf Hon Hr. destruct (persisted s) as [|item q] eqn:Ep.
    + destruct (drain_empty_quiet t s Hf Hon (or_intror Ep)) as (_ & -> & _).
      reflexivity.
    + rewrite <- Ep. apply (drain_items t s Hf Hon Hr). congruence.
  - intros t s. apply drain_order.
  - intros t s.
    destruct (survivors_sublist (persisted s) (S (load_tick t)))
      as (kept & Hs & E).
    exists kept. split; [exact Hs|]. rewrite <- E. apply drain_order.
  - intros k t s. apply drains_order.
Qed.

(** ** Errors stay inside *)

Lemma pq_try_no_throw (body : Step) : next (pq_try body) <> Throw.
Proof. unfold pq_try. destruct (next body) eqn:E; simpl; congruence. Qed.

Lemma try_catch_no_throw (msg : string) (body : Step) :
  next (try_catch msg body) <> Throw.
Proof. unfold try_catch. destruct (next body) eqn:E; simpl; congruence. Qed.

Lemma resume_no_throw (t : nat) (task : Task) (s : State) :
  next (resume t task s) <> Throw.
Proof.
  destruct task; simpl; unfold aq_try;
    first [apply pq_try_no_throw | apply try_catch_no_throw].
Qed.

Lemma processQueue_no_throw (s : State) : next (processQueue s) <> Throw.
Proof.
  unfold processQueue. destruct (isProcessing s);
    [simpl; congruence|apply pq_try_no_throw].
Qed.

(** A pass ends: its promise is fulfilled and the flag is clear. *)
Lemma pq_try_return (body : Step) :
  next (pq_try body) = Return -> isProcessing (after (pq_try body)) = false.
Proof.
  unfold pq_try. destruct (next body) eqn:E; simpl; rewrite ?E; congruence.
Qed.

(** Resuming a pass in flight either suspends it again, as a pass and
    with the flag untouched, or ends it with the flag cleared. *)
Lemma resume_pass_cases (t : nat) (task : Task) (s : State) :
  is_pass task = true ->
  (exists task', next (resume t task s) = Await task' /\ is_pass task' = true /\
                 after (resume t task s) = s) \/
  (next (resume t task s) = Return /\
   isProcessing (after (resume t task s)) = false).
Proof.
  intros Hp. destruct task; simpl in Hp; try discriminate; simpl.
  - unfold pq_fetched. destruct (fetch env t) as [[|]|].
    + left. exists PQ_getQueue. auto.
    + right. split; [|apply pq_try_return];
        unfold pq_try, seq, scheduleRetry; simpl;
        destruct (retryTimer s); reflexivity.
    + right. auto.
  - unfold pq_loaded, AsyncStorage_getItem, getQueue.
    destruct (getItem_ok env t); [destruct (storage s) as [[|item q]|]|];
      simpl; auto.
    left. eexists; eauto.
  - left. unfold pq_attempted. destruct (attempt item _) as [keep ev].
    destruct rest; simpl; eexists; eauto.
  - right. destruct (pq_saved_facts remainingItems (setItem_ok env t) s)
      as (_ & N & _ & F). auto.
Qed.

(** A whole pass, with nothing interleaved, ends within its fuel. *)
Lemma drain_total (t : nat) (s : State) :
  isProcessing s = false ->
  next (snd (drain t s)) = Return /\
  isProcessing (after (snd (drain t s))) = false /\
  spawned (snd (drain t s)) = [].
Proof.
  intros Hf.
  assert (online t -> next (snd (drain t s)) = Return /\
          isProcessing (after (snd (drain t s))) = false /\
          spawned (snd (drain t s)) = []) as Honline.
  { intros Hon. destruct (getItem_ok env (load_tick t)) eqn:Hr.
    - destruct (persisted s) as [|item q] eqn:Ep.
      + destruct (drain_empty t s Hf Hon (or_intror Ep)) as (_ & -> & N & S' & _).
        auto.
      + destruct (drain_items t s Hf Hon Hr) as (_ & -> & N & S' & _);
          [congruence|].
        match goal with |- context [pq_saved ?r ?ok ?s0] =>
          destruct (pq_saved_facts r ok s0) as (_ & _ & _ & F)
        end. auto.
    - destruct (drain_empty t s Hf Hon (or_introl Hr))
        as (_ & -> & N & S' & _). auto. }
  destruct NetInfo eqn:Hn.
  - destruct (fetch env t) as [[|]|] eqn:Hc.
    + apply Honline. intros _. exact Hc.
    + destruct (drain_offline t s Hf Hn) as (_ & F & N & _ & _ & S');
        [congruence|auto].
    + destruct (drain_offline t s Hf Hn) as (_ & F & N & _ & _ & S');
        [congruence|auto].
  - apply Honline. unfold online. congruence.
Qed.

(** ** A pass alone is a run of the system *)

Lemma resume_pass_alone (t : nat) (task : Task) (s : State) :
  is_pass task = true ->
  spawned (resume t task s) = [] /\
  (forall task', next (resume t task s) = Await task' -> is_pass task' = true).
Proof.
  intros Hp. destruct task; simpl in Hp; try discriminate; cbn [resume].
  - unfold pq_fetched. destruct (fetch env t) as [[|]|]; simpl.
    + split; [reflexivity|]. intros task' H. injection H as <-. reflexivity.
    + unfold pq_try, seq, scheduleRetry.
      destruct (retryTimer _); simpl; split; auto; discriminate.
    + split; [reflexivity|discriminate].
  - unfold pq_loaded, AsyncStorage_getItem, getQueue.
    destruct (getItem_ok env t); [destruct (storage s) as [[|item q]|]|];
      simpl; split; auto; try discriminate.
    intros task' H. injection H as <-. reflexivity.
  - unfold pq_attempted. destruct (attempt item _) as [keep ev].
    destruct rest; simpl; split; auto; intros task' H; injection H as <-;
      reflexivity.
  - destruct (pq_saved_facts remainingItems (setItem_ok env t) s)
      as (_ & -> & -> & _). split; [reflexivity|discriminate].
Qed.

(** [finish] on a pass is the system settling the promises of that pass,
    one after the other, with nothing else in flight. *)
Lemma exec_finish (fuel : nat) :
  forall (t : nat) (st : Step) (tr : list Event),
    spawned st = [] ->
    (forall task, next st = Await task -> is_pass task = true) ->
    exists n,
      exec (repeat (Settle 0) n)
           (mkSys (after st) (suspended (next st)) t (tr ++ emitted st)) =
      Some (mkSys (after (snd (finish fuel t st)))
                  (suspended (next (snd (finish fuel t st))))
                  (fst (finish fuel t st))
                  (tr ++ emitted (snd (finish fuel t st)))).
Proof.
  induction fuel as [|fuel IH]; intros t st tr Hs Hp.
  - exists 0%nat. reflexivity.
  - cbn [finish]. destruct (next st) as [task| |] eqn:N;
      try (exists 0%nat; cbn [fst snd]; rewrite N; reflexivity).
    destruct (resume_pass_alone t task (after st) (Hp task eq_refl)) as [R1 R2].
    destruct (IH (S t) (then_ st (resume t task (after st))) tr) as [n Hn].
    + unfold then_. cbn [spawned]. rewrite Hs, R1. reflexivity.
    + exact R2.
    + exists (S n). cbn [repeat exec step state inflight tick suspended lookup].
      cbn [list_lookup]. unfold commit. cbn [delete list_delete app trace].
      rewrite R1, app_nil_r, <- app_assoc. exact Hn.
Qed.

(** A call of [processQueue] on a quiescent system, followed by the
    settling of its promises, is the pass [drain]. *)
Lemma exec_drain (sys : Sys) :
  inflight sys = [] ->
  exists n,
    exec (CallProcessQueue :: repeat (Settle 0) n) sys =
    Some (mkSys (after (snd (drain (tick sys) (state sys))))
                (suspended (next (snd (drain (tick sys) (state sys)))))
                (fst (drain (tick sys) (state sys)))
                (trace sys ++ emitted (snd (drain (tick sys) (state sys))))).
Proof.
  intros Hi. unfold drain.
  destruct (exec_finish (3 + length (persisted (state sys))) (tick sys)
              (processQueue (state sys)) (trace sys)) as [n Hn].
  - unfold processQueue, pq_begin, pq_load.
    destruct (isProcessing (state sys)), NetInfo; reflexivity.
  - unfold processQueue, pq_begin, pq_load.
    destruct (isProcessing (state sys)), NetInfo; simpl; intros task H;
      try discriminate; injection H as <-; reflexivity.
  - exists n. cbn [exec step]. unfold commit. rewrite Hi.
    assert (spawned (processQueue (state sys)) = []) as ->.
    { unfold processQueue, pq_begin, pq_load.
      destruct (isProcessing (state sys)), NetInfo; reflexivity. }
    rewrite app_nil_l, app_nil_r. exact Hn.
Qed.

(** C4.  A call of [processQueue] made while the in-progress flag is set
    returns at once: the state is unchanged, no method is left in flight
    and nothing is emitted (no transport call, no store read or write, no
    timer armed or cleared); as a step of the system it changes nothing.
    In every reachable state at most one drain pass is in flight, and
    one is in flight exactly when the flag is set. *)
Theorem processQueue_single_flight :
  (forall s, isProcessing s = true -> processQueue s = ret s) /\
  (forall sys, isProcessing (state sys) = true ->
               step CallProcessQueue sys = Some sys) /\
  (forall store sys,
      reachable store sys ->
      (length (passes (inflight sys)) <= 1)%nat /\
      (isProcessing (state sys) = true <-> length (passes (inflight sys)) = 1%nat)).
Proof.
  split; [|split].
  - intros s H. unfold processQueue. rewrite H. reflexivity.
  - intros sys H. simpl. unfold processQueue. rewrite H.
    destruct sys as [s l t tr]. unfold commit, ret. simpl.
    rewrite !app_nil_r. reflexivity.
  - intros store sys Hreach. apply reachable_exclusive in Hreach.
    unfold exclusive, flag in Hreach.
    destruct (isProcessing (state sys)); rewrite Hreach;
      split; [lia|split; [reflexivity|reflexivity]|lia|split; [discriminate|lia]].
Qed.


(** C6.  [getQueue] returns the empty queue when the key has no entry and
    when the read fails (then it logs); [saveQueue] returns normally,
    having logged, when the write fails, and the store is then unchanged;
    and no call of [addToQueue], [processQueue], [init] or [destroy], and
    no later step of a method in flight, ends with an exception. *)
Theorem queue_errors_are_swallowed :
  (forall s, storage s = None ->
             getQueue (AsyncStorage_getItem true s) = (Resolved [], [])) /\
  (forall s, getQueue (AsyncStorage_getItem false s) =
             (Resolved [], [ELog "Error getting location queue:"])) /\
  (forall r, fst (getQueue r) <> Rejected) /\
  (forall queue s,
      saveQueue (fst (AsyncStorage_setItem false queue s)) =
        (Resolved tt, [ELog "Error saving location queue:"]) /\
      snd (AsyncStorage_setItem false queue s) = s) /\
  (forall r, fst (saveQueue r) <> Rejected) /\
  (forall d h s, next (addToQueue d h s) <> Throw) /\
  (forall s, next (processQueue s) <> Throw) /\
  (forall s, next (init s) <> Throw) /\
  (forall s, next (destroy s) <> Throw) /\
  (forall t task s, next (resume t task s) <> Throw).
Proof.
  repeat split.
  - intros s H. unfold AsyncStorage_getItem. rewrite H. reflexivity.
  - intros [q|]; simpl; congruence.
  - intros [u|]; simpl; congruence.
  - intros d h s. apply try_catch_no_throw.
  - apply processQueue_no_throw.
  - intros s. unfold init, seq, detached.
    destruct NetInfo; simpl; [congruence|].
    destruct (scheduleRetry _); simpl; congruence.
  - intros s. unfold destroy, seq.
    destruct (networkUnsubscribe s); simpl;
      destruct (retryTimer s); simpl; congruence.
  - apply resume_no_throw.
Qed.

(** C7.  A pass that loads an empty queue (nothing persisted, an empty
    array, or a failed read) leaves the whole state as it found it: the
    store, the timers and [retryTimer] are untouched and the flag is
    clear again.  Its only effect is the read: no store write, no
    transport call, no timer armed or cleared. *)
Theorem processQueue_empty_queue_noop (t : nat) (s : State) :
  isProcessing s = false -> online t ->
  getItem_ok env (load_tick t) = false \/ persisted s = [] ->
  after (snd (drain t s)) = s /\
  next (snd (drain t s)) = Return /\
  spawned (snd (drain t s)) = [] /\
  List.filter is_effect (emitted (snd (drain t s))) = [EGetItem] /\
  writes (emitted (snd (drain t s))) = [] /\
  attempts (emitted (snd (drain t s))) = [].
Proof.
  intros Hf Hon Hq.
  destruct (drain_empty t s Hf Hon Hq) as (_ & E & N & S' & F).
  rewrite attempts_effects, writes_effects, F. auto 10.
Qed.

(** C9.  A call of [processQueue] that finds the flag clear runs to its
    end, whatever the host answers, and ends with the flag clear; as a
    run of the system, from a state with nothing in flight, the call
    followed by the settling of its promises leaves nothing in flight and
    the flag clear.  Step by step: resuming a pass in flight either
    suspends it again (as a pass, the state untouched) or fulfils its
    promise with the flag cleared; this covers the connectivity abort,
    the failed probe, the empty queue and the end after the save. *)
Theorem processQueue_clears_flag :
  (forall t s,
      isProcessing s = false ->
      next (snd (drain t s)) = Return /\
      isProcessing (after (snd (drain t s))) = false) /\
  (forall sys,
      inflight sys = [] -> isProcessing (state sys) = false ->
      exists n sys',
        exec (CallProcessQueue :: repeat (Settle 0) n) sys = Some sys' /\
        inflight sys' = [] /\ isProcessing (state sys') = false) /\
  (forall t task s,
      is_pass task = true ->
      (exists task', next (resume t task s) = Await task' /\
                     is_pass task' = true /\ after (resume t task s) = s) \/
      (next (resume t task s) = Return /\
       isProcessing (after (resume t task s)) = false)) /\
  (forall t s,
      isProcessing (after (resume t PQ_fetch s)) = false \/
      fetch env t = Resolved true) /\
  (forall t s,
      getItem_ok env t = false \/ persisted s = [] ->
      isProcessing (after (resume t PQ_getQueue s)) = false) /\
  (forall t remainingItems s,
      isProcessing (after (resume t (PQ_saveQueue remainingItems) s)) = false).
Proof.
  split; [|split; [|split; [|split; [|split]]]].
  - intros t s Hf. destruct (drain_total t s Hf) as (N & F & _). auto.
  - intros sys Hi Hf. destruct (exec_drain sys Hi) as [n Hn].
    destruct (drain_total (tick sys) (state sys) Hf) as (N & F & _).
    eexists n, _. split; [exact Hn|]. simpl. rewrite N. auto.
  - apply resume_pass_cases.
  - intros t s. destruct (resume_pass_cases t PQ_fetch s eq_refl)
      as [(task' & N & _)|[_ F]]; [|auto].
    right. simpl in N. unfold pq_fetched in N.
    destruct (fetch env t) as [[|]|]; [reflexivity| |discriminate].
    unfold pq_try, seq, scheduleRetry in N.
    destruct (retryTimer _); discriminate.
  - intros t s H. rewrite resume_getQueue_empty by exact H. reflexivity.
  - intros t rem s. apply (pq_saved_facts rem (setItem_ok env t) s).
Qed.

(** ** Retry without NetInfo *)

Lemma scheduleRetry_timers (s : State) : timers (fst (scheduleRetry s)) <> [].
Proof.
  unfold scheduleRetry. destruct (retryTimer s); simpl;
    intros H; apply app_eq_nil in H as [_ H]; discriminate.
Qed.

Lemma scheduleRetry_armed (s : State) : armed (fst (scheduleRetry s)) = true.
Proof.
  unfold scheduleRetry, armed. destruct (retryTimer s); simpl;
    rewrite List.existsb_app; simpl; rewrite Pos.eqb_refl;
    apply orb_true_iff; right; reflexivity.
Qed.

Lemma processQueue_sets_flag (s : State) :
  isProcessing (after (processQueue s)) = true.
Proof.
  unfold processQueue. destruct (isProcessing s) eqn:E; simpl; [exact E|].
  unfold pq_begin, pq_load. destruct NetInfo; reflexivity.
Qed.

Lemma processQueue_timers (s : State) :
  timers (after (processQueue s)) = timers s.
Proof.
  unfold processQueue. destruct (isProcessing s); simpl; [reflexivity|].
  unfold pq_begin, pq_load. destruct NetInfo; reflexivity.
Qed.

(** The listeners either change nothing or leave the flag set. *)
Lemma notify_cases (ls : list positive) (c : bool) (s : State) :
  (after (notify ls c s) = s /\ next (notify ls c s) = Return /\
   spawned (notify ls c s) = []) \/
  isProcessing (after (notify ls c s)) = true.
Proof.
  revert s; induction ls as [|l ls IH]; intros s; simpl; [auto|].
  unfold detached, onNetInfo.
  destruct (c && negb (isProcessing s)) eqn:E.
  - right. simpl.
    pose proof (processQueue_sets_flag s) as F.
    destruct (IH (after (processQueue s))) as [(-> & _)|H]; assumption.
  - simpl. destruct (IH s) as [(E1 & E2 & E3)|H]; [left|right; exact H].
    rewrite E1, E2, E3. auto.
Qed.

Lemma healing_of_flag (sys : Sys) :
  exclusive sys -> isProcessing (state sys) = true -> healing sys.
Proof.
  unfold exclusive, flag, healing. intros E F _. rewrite F in E. right.
  destruct (passes (inflight sys)); [discriminate|congruence].
Qed.

Section TimerOnly.

Hypothesis NetInfo_absent : NetInfo = false.
Hypothesis reads_ok : forall t, getItem_ok env t = true.
Hypothesis writes_ok : forall t, setItem_ok env t = true.

Lemma processQueue_no_probe (s : State) :
  Forall (fun task => probes task = false)
         (suspended (next (processQueue s)) ++ spawned (processQueue s)).
Proof.
  unfold processQueue, pq_begin, pq_load. rewrite NetInfo_absent.
  destruct (isProcessing s); simpl; repeat constructor.
Qed.

Lemma notify_no_probe (ls : list positive) (c : bool) (s : State) :
  Forall (fun task => probes task = false)
         (suspended (next (notify ls c s)) ++ spawned (notify ls c s)).
Proof.
  revert s; induction ls as [|l ls IH]; intros s; simpl; [constructor|].
  unfold detached, onNetInfo.
  destruct (c && negb (isProcessing s)); simpl.
  - pose proof (processQueue_no_probe s) as P.
    specialize (IH (after (processQueue s))).
    apply Forall_app in P as [P1 P2]. apply Forall_app in IH as [I1 I2].
    rewrite !Forall_app. auto.
  - exact (IH s).
Qed.

Lemma resume_no_probe (t : nat) (task : Task) (s : State) :
  probes task = false ->
  Forall (fun task' => probes task' = false)
         (suspended (next (resume t task s)) ++ spawned (resume t task s)).
Proof.
  intros Hp. destruct task; simpl in Hp; try discriminate; cbn [resume].
  - unfold pq_loaded, AsyncStorage_getItem, getQueue. rewrite reads_ok.
    destruct (storage s) as [[|item q]|]; simpl; repeat constructor.
  - unfold pq_attempted. destruct (attempt item _) as [keep ev].
    destruct rest; simpl; repeat constructor.
  - destruct (pq_saved_facts remainingItems (setItem_ok env t) s)
      as (_ & -> & -> & _). constructor.
  - unfold aq_loaded, AsyncStorage_getItem, getQueue. rewrite reads_ok.
    simpl. repeat constructor.
  - unfold aq_stored, AsyncStorage_setItem. rewrite writes_ok, NetInfo_absent.
    unfold aq_kick, aq_try.
    destruct (negb (isProcessing (set_storage queue s)));
      [|simpl; constructor].
    pose proof (processQueue_no_probe (set_storage queue s)) as P.
    destruct (try_catch_facts "Error adding to location queue:"
                (detached processQueue ret (set_storage queue s)))
      as (_ & -> & ->).
    simpl. apply Forall_app in P as [P1 P2]. rewrite !Forall_app.
    repeat split; auto.
Qed.

Lemma passes_nonempty (l : list Task) : passes l <> [] <-> (0 < length (passes l))%nat.
Proof. destruct (passes l); simpl; split; intros; try lia; congruence. Qed.

Lemma init_timers (s : State) : timers (after (init s)) <> [].
Proof.
  unfold init, seq, detached. rewrite NetInfo_absent. simpl.
  pose proof (scheduleRetry_timers (after (processQueue s))) as T.
  destruct (scheduleRetry _); exact T.
Qed.

Lemma init_no_probe (s : State) :
  Forall (fun task => probes task = false)
         (suspended (next (init s)) ++ spawned (init s)).
Proof.
  pose proof (processQueue_no_probe s) as P.
  unfold init, seq, detached. rewrite NetInfo_absent. simpl.
  destruct (scheduleRetry _); simpl. rewrite app_nil_r.
  apply Forall_app in P as [P1 P2]. apply Forall_app. auto.
Qed.

(** A pass that ends leaves nothing persisted, or a timeout pending. *)
Lemma resume_pass_end (t : nat) (task : Task) (s : State) :
  is_pass task = true -> probes task = false ->
  next (resume t task s) = Return ->
  persisted (after (resume t task s)) = [] \/
  timers (after (resume t task s)) <> [].
Proof.
  intros Hp Hn. destruct task; simpl in Hp, Hn; try discriminate; cbn [resume].
  - unfold pq_loaded, AsyncStorage_getItem, getQueue, persisted.
    rewrite reads_ok.
    destruct (storage s) as [[|item q]|] eqn:E; simpl; rewrite ?E; auto;
      discriminate.
  - unfold pq_attempted. destruct (attempt item _) as [keep ev].
    destruct rest; simpl; discriminate.
  - intros _. rewrite writes_ok.
    unfold pq_saved, AsyncStorage_setItem, saveQueue.
    destruct remainingItems as [|item q]; [left; reflexivity|right].
    cbn [length Nat.ltb Nat.leb]. unfold pq_try, seq.
    pose proof (scheduleRetry_timers (set_storage (item :: q) s)) as T.
    destruct (scheduleRetry _); exact T.
Qed.

(** After its write, [addToQueue] leaves the flag set. *)
Lemma resume_stored_flag (t : nat) (queue : list QueueItem) (s : State) :
  isProcessing (after (resume t (AQ_setItem queue) s)) = true.
Proof.
  cbn [resume]. unfold aq_stored, AsyncStorage_setItem.
  rewrite writes_ok, NetInfo_absent. unfold aq_try, aq_kick.
  destruct (try_catch_facts "Error adding to location queue:"
    (if negb (isProcessing (set_storage queue s))
     then detached processQueue ret (set_storage queue s)
     else ret (set_storage queue s))) as (-> & _).
  destruct (isProcessing (set_storage queue s)) eqn:E; simpl; [exact E|].
  apply processQueue_sets_flag.
Qed.

Lemma step_self_healing (a : Action) (sys sys' : Sys) :
  is_destroy a = false -> self_healing sys -> step a sys = Some sys' ->
  self_healing sys'.
Proof.
  intros Hd (Hx & Hn & Hh) Hs.
  pose proof (step_exclusive a sys sys' Hx Hs) as Hx'.
  split; [exact Hx'|].
  destruct a; cbn [step] in Hs; simpl in Hd; try discriminate.
  - (* init *)
    injection Hs as <-. split.
    + simpl. apply Forall_app; split; [exact Hn|apply init_no_probe].
    + intros _. left. simpl. apply init_timers.
  - (* addToQueue *)
    injection Hs as <-. split.
    + simpl. apply Forall_app; split; [exact Hn|repeat constructor].
    + unfold healing in *. simpl. rewrite passes_app. simpl.
      rewrite app_nil_r. exact Hh.
  - (* processQueue *)
    injection Hs as <-. split.
    + simpl. apply Forall_app; split; [exact Hn|apply processQueue_no_probe].
    + apply healing_of_flag; [exact Hx'|]. simpl. apply processQueue_sets_flag.
  - (* a timeout fires *)
    destruct (existsb _ _); [|discriminate]. injection Hs as <-. split.
    + simpl. apply Forall_app; split; [exact Hn|].
      rewrite app_nil_r.
      pose proof (processQueue_no_probe (drop_timer id (state sys))) as Q.
      apply Forall_app in Q as [Q1 Q2]. apply Forall_app. auto.
    + apply healing_of_flag; [exact Hx'|]. simpl. apply processQueue_sets_flag.
  - (* connectivity change *)
    destruct (listeners (state sys)) as [|l ls] eqn:L; [discriminate|].
    pose proof (notify_no_probe (l :: ls) isConnected (state sys)) as Q.
    pose proof (notify_cases (l :: ls) isConnected (state sys)) as C.
    remember (notify (l :: ls) isConnected (state sys)) as st eqn:Est.
    injection Hs as <-. split.
    + simpl. apply Forall_app; split; [exact Hn|exact Q].
    + destruct C as [(E1 & E2 & E3)|F].
      * unfold healing in *. cbn [commit state inflight].
        rewrite E1, E2, E3. simpl. rewrite app_nil_r. exact Hh.
      * apply healing_of_flag; [exact Hx'|exact F].
  - (* a promise settles *)
    destruct (inflight sys !! i) as [task|] eqn:L; [|discriminate].
    injection Hs as <-.
    assert (probes task = false) as Hp.
    { rewrite Forall_lookup in Hn. exact (Hn _ _ L). }
    split.
    + simpl. apply Forall_app; split; [apply Forall_delete; exact Hn|].
      apply resume_no_probe. exact Hp.
    + pose proof (passes_delete _ _ _ L) as D.
      destruct (is_pass task) eqn:P.
      * assert (isProcessing (state sys) = true) as F.
        { unfold exclusive, flag in Hx.
          destruct (isProcessing (state sys)); [reflexivity|lia]. }
        destruct (resume_pass_cases (tick sys) task (state sys) P)
          as [(task' & N & P' & E)|[N F']].
        -- apply healing_of_flag; [exact Hx'|]. simpl. rewrite E. exact F.
        -- destruct (resume_pass_end (tick sys) task (state sys) P Hp N)
             as [E|T]; intros Q; simpl in *; [congruence|auto].
      * destruct task; simpl in P, Hp; try discriminate.
        -- (* addToQueue has loaded the queue *)
           unfold healing in *. cbn [commit state inflight resume].
           unfold aq_loaded, AsyncStorage_getItem, getQueue.
           rewrite reads_ok. cbn.
           rewrite passes_app. cbn. rewrite app_nil_r.
           intros Q. destruct (Hh Q) as [T|T]; [left; exact T|right].
           apply passes_nonempty. apply passes_nonempty in T. lia.
        -- (* addToQueue has written the queue *)
           apply healing_of_flag; [exact Hx'|]. simpl.
           apply resume_stored_flag.
Qed.

Lemma exec_self_healing (acts : list Action) (sys sys' : Sys) :
  forallb (fun a => negb (is_destroy a)) acts = true ->
  self_healing sys -> exec acts sys = Some sys' -> self_healing sys'.
Proof.
  revert sys; induction acts as [|a acts IH]; intros sys Hd Hi H; simpl in *.
  - injection H as <-. exact Hi.
  - destruct (step a sys) as [sys1|] eqn:S; [|discriminate].
    apply andb_prop in Hd as [Hd1 Hd2]. apply negb_true_iff in Hd1.
    eauto using step_self_healing.
Qed.

End TimerOnly.

Lemma pq_saved_timers (remainingItems : list QueueItem) (ok : bool) (s : State) :
  (remainingItems <> [] ->
   armed (after (pq_try (pq_saved remainingItems ok s))) = true) /\
  (remainingItems = [] ->
   timers (after (pq_try (pq_saved remainingItems ok s))) = timers s /\
   retryTimer (after (pq_try (pq_saved remainingItems ok s))) = retryTimer s).
Proof.
  unfold pq_saved, AsyncStorage_setItem, saveQueue. split.
  - intros H. destruct remainingItems as [|item q]; [congruence|].
    cbn [length Nat.ltb Nat.leb].
    destruct ok; unfold pq_try, seq;
      match goal with |- context [scheduleRetry ?x] =>
        pose proof (scheduleRetry_armed x) as A;
        destruct (scheduleRetry x); exact A
      end.
  - intros ->. destruct ok; simpl; auto.
Qed.

(** C8, as the code has it.  Without NetInfo, [init] starts a drain pass
    and arms one timeout of [RETRY_INTERVAL]; a timeout that fires is
    gone and calls [processQueue]; a pass arms a new timeout when it
    ends with items left, and none when it ends with nothing left.  As
    long as the store's reads and writes succeed and [destroy] is not
    called, in every reachable state with pending items a timeout is
    pending or a drain pass is in flight. *)
Theorem init_timer_fallback :
  NetInfo = false ->
  (forall s,
      armed (after (init s)) = true /\
      isProcessing (after (init s)) = true /\
      (isProcessing s = false -> spawned (init s) = [PQ_getQueue]) /\
      exists id, List.filter is_effect (emitted (init s)) =
                 (if isProcessing s then [] else [EGetItem]) ++
                 match retryTimer s with
                 | Some old => [EClearTimeout old]
                 | None => []
                 end ++ [ESetTimeout id RETRY_INTERVAL]) /\
  (forall id sys sys',
      step (TimerFires id) sys = Some sys' ->
      In id (timers (state sys)) /\ ~ In id (timers (state sys')) /\
      isProcessing (state sys') = true) /\
  (forall remainingItems ok s,
      (remainingItems <> [] ->
       armed (after (pq_try (pq_saved remainingItems ok s))) = true) /\
      (remainingItems = [] ->
       timers (after (pq_try (pq_saved remainingItems ok s))) = timers s /\
       retryTimer (after (pq_try (pq_saved remainingItems ok s))) = retryTimer s)) /\
  ((forall t, getItem_ok env t = true) ->
   (forall t, setItem_ok env t = true) ->
   forall store acts sys,
     forallb (fun a => negb (is_destroy a)) acts = true ->
     exec (CallInit :: acts) (boot store) = Some sys ->
     persisted (state sys) <> [] ->
     timers (state sys) <> [] \/ passes (inflight sys) <> []).
Proof.
  intros Hn. split; [|split; [|split]].
  - intros s. unfold init, seq, detached. rewrite Hn. cbn [negb fst snd].
    pose proof (scheduleRetry_armed (after (processQueue s))) as A.
    pose proof (scheduleRetry_isProcessing (after (processQueue s))) as F.
    rewrite processQueue_sets_flag in F.
    assert (retryTimer (after (processQueue s)) = retryTimer s) as R.
    { unfold processQueue, pq_begin, pq_load. rewrite Hn.
      destruct (isProcessing s); reflexivity. }
    unfold scheduleRetry in *. rewrite R in *.
    unfold processQueue, pq_begin, pq_load in *. rewrite Hn in *.
    destruct (isProcessing s); destruct (retryTimer s); simpl in *;
      repeat split; auto; eauto; try discriminate.
  - intros id sys sys' H. cbn [step] in H.
    destruct (existsb (Pos.eqb id) (timers (state sys))) eqn:E; [|discriminate].
    injection H as <-. cbn [commit state onTimeout detached ret after].
    rewrite processQueue_timers, processQueue_sets_flag.
    split; [|split; [|reflexivity]].
    + apply List.existsb_exists in E as (x & Hx & Ex).
      apply Pos.eqb_eq in Ex. subst x. exact Hx.
    + simpl. intros Hin. apply List.filter_In in Hin as [_ Hin].
      rewrite Pos.eqb_refl in Hin. discriminate.
  - intros rem ok s. apply pq_saved_timers.
  - intros Hr Hw store acts sys Hd He.
    change (exec (CallInit :: acts) (boot store))
      with (exec acts (commit (boot store) [] 0%nat (init (constructor store))))
      in He.
    assert (self_healing sys) as (_ & _ & H); [|exact H].
    eapply (exec_self_healing Hn Hr Hw acts); [exact Hd| |exact He].
    split; [|split].
    + apply (step_exclusive CallInit (boot store)); reflexivity.
    + apply (init_no_probe Hn).
    + intros _. left. apply (init_timers Hn).
Qed.

(** ** The retry timeout *)

Lemma tracked_frame (s s' : State) :
  timers s' = timers s -> retryTimer s' = retryTimer s ->
  timer_tracked s -> timer_tracked s'.
Proof. unfold timer_tracked. intros -> ->. auto. Qed.

Lemma scheduleRetry_tracked (s : State) :
  timer_tracked s -> timer_tracked (fst (scheduleRetry s)).
Proof.
  unfold timer_tracked, scheduleRetry. intros [E|(id & E & R)].
  - destruct (retryTimer s); simpl; rewrite E; simpl; right; eauto.
  - rewrite R. simpl. rewrite E. simpl. rewrite Pos.eqb_refl. simpl.
    right; eauto.
Qed.

(** Cancelling the tracked timeout, as [destroy] does, leaves none. *)
Lemma clear_tracked (s : State) :
  timer_tracked s ->
  timers (fst (match retryTimer s with
               | Some id => clearTimeout id s
               | None => (s, [])
               end)) = [].
Proof.
  unfold timer_tracked. intros [E|(id & E & R)].
  - destruct (retryTimer s); simpl; rewrite E; reflexivity.
  - rewrite R. simpl. rewrite E. simpl. rewrite Pos.eqb_refl. reflexivity.
Qed.

Lemma drop_timer_tracked (id : positive) (s : State) :
  timer_tracked s -> timer_tracked (drop_timer id s).
Proof.
  unfold timer_tracked. intros [E|(id' & E & R)]; simpl; rewrite E; simpl.
  - auto.
  - destruct (Pos.eqb id' id); simpl; eauto.
Qed.

Lemma pq_try_tracked (body : Step) :
  timer_tracked (after body) -> timer_tracked (after (pq_try body)).
Proof.
  unfold pq_try. destruct (next body); simpl; auto;
    apply tracked_frame; reflexivity.
Qed.

Lemma try_catch_tracked (msg : string) (body : Step) :
  timer_tracked (after body) -> timer_tracked (after (try_catch msg body)).
Proof. unfold try_catch. destruct (next body); simpl; auto. Qed.

Lemma seq_tracked (sync : State -> State * list Event) (rest : State -> Step)
    (s : State) :
  timer_tracked (fst (sync s)) ->
  (forall s', timer_tracked s' -> timer_tracked (after (rest s'))) ->
  timer_tracked (after (seq sync rest s)).
Proof.
  unfold seq. intros H1 H2. destruct (sync s) as [s1 ev]; simpl in *. auto.
Qed.

Lemma detached_tracked (callee rest : State -> Step) (s : State) :
  timer_tracked (after (callee s)) ->
  (forall s', timer_tracked s' -> timer_tracked (after (rest s'))) ->
  timer_tracked (after (detached callee rest s)).
Proof. unfold detached. simpl. auto. Qed.

Lemma processQueue_tracked (s : State) :
  timer_tracked s -> timer_tracked (after (processQueue s)).
Proof.
  unfold processQueue. destruct (isProcessing s); simpl; [auto|].
  unfold pq_begin, pq_load. destruct NetInfo; simpl;
    apply tracked_frame; reflexivity.
Qed.

Lemma onNetInfo_tracked (c : bool) (s : State) :
  timer_tracked s -> timer_tracked (after (onNetInfo c s)).
Proof.
  intros H. unfold onNetInfo. destruct (c && negb (isProcessing s)); simpl;
    auto using processQueue_tracked.
Qed.

Lemma notify_tracked (ls : list positive) (c : bool) (s : State) :
  timer_tracked s -> timer_tracked (after (notify ls c s)).
Proof.
  revert s; induction ls as [|l ls IH]; intros s H; simpl; [exact H|].
  apply IH, onNetInfo_tracked, H.
Qed.

Lemma init_tracked (s : State) :
  timer_tracked s -> timer_tracked (after (init s)).
Proof.
  intros H. unfold init. apply seq_tracked.
  - destruct NetInfo; simpl; [|exact H].
    revert H. apply tracked_frame; reflexivity.
  - intros s1 H1. apply detached_tracked; [apply processQueue_tracked, H1|].
    intros s2 H2. destruct (negb NetInfo); simpl; [|exact H2].
    apply seq_tracked; [apply scheduleRetry_tracked, H2|auto].
Qed.

Lemma resume_tracked (t : nat) (task : Task) (s : State) :
  timer_tracked s -> timer_tracked (after (resume t task s)).
Proof.
  intros H.
  assert (forall s0, timer_tracked s0 ->
            timer_tracked (after (seq scheduleRetry ret s0))) as R.
  { intros s0 H0. apply seq_tracked; [apply scheduleRetry_tracked, H0|auto]. }
  assert (forall b, timer_tracked (set_isProcessing b s)) as F.
  { intros b. revert H. apply tracked_frame; reflexivity. }
  assert (forall q, timer_tracked (set_storage q s)) as G.
  { intros q. revert H. apply tracked_frame; reflexivity. }
  destruct task; cbn [resume]; unfold aq_try;
    first [apply pq_try_tracked | apply try_catch_tracked].
  - unfold pq_fetched. destruct (fetch env t) as [[|]|]; simpl; auto.
  - unfold pq_loaded, AsyncStorage_getItem, getQueue.
    destruct (getItem_ok env t); [destruct (storage s) as [[|item q]|]|];
      simpl; auto.
  - unfold pq_attempted. destruct (attempt item _) as [keep ev].
    destruct rest; simpl; auto.
  - unfold pq_saved, AsyncStorage_setItem.
    destruct (setItem_ok env t); simpl;
      destruct (0 <? length remainingItems)%nat; simpl; auto.
  - unfold aq_loaded, AsyncStorage_getItem, getQueue.
    destruct (getItem_ok env t); simpl; auto.
  - unfold aq_stored, AsyncStorage_setItem.
    destruct (setItem_ok env t); simpl; auto.
    destruct NetInfo; simpl; auto.
    unfold aq_kick. destruct (negb _); simpl; auto using processQueue_tracked.
  - unfold aq_fetched. destruct (fetch env t) as [c|]; simpl; auto.
    apply (onNetInfo_tracked c s H).
Qed.

Lemma destroy_timers (s : State) :
  timer_tracked s -> timers (after (destroy s)) = [].
Proof.
  intros H. unfold destroy, seq.
  assert (timer_tracked (fst (match networkUnsubscribe s with
                              | Some id => unsubscribe id s
                              | None => (s, [])
                              end))) as H1.
  { destruct (networkUnsubscribe s); simpl; [|exact H].
    revert H. apply tracked_frame; reflexivity. }
  destruct (match networkUnsubscribe s with
            | Some id => unsubscribe id s
            | None => (s, [])
            end) as [s1 ev1]; simpl in *.
  pose proof (clear_tracked s1 H1) as C.
  destruct (match retryTimer s1 with
            | Some id => clearTimeout id s1
            | None => (s1, [])
            end) as [s2 ev2]; simpl in *. exact C.
Qed.

Lemma step_tracked (a : Action) (sys sys' : Sys) :
  timer_tracked (state sys) -> step a sys = Some sys' ->
  timer_tracked (state sys').
Proof.
  intros H Hs. destruct a; cbn [step] in Hs.
  - injection Hs as <-. apply init_tracked, H.
  - injection Hs as <-. left. apply destroy_timers, H.
  - injection Hs as <-. exact H.
  - injection Hs as <-. apply processQueue_tracked, H.
  - destruct (existsb _ _); [|discriminate]. injection Hs as <-.
    unfold commit, onTimeout; simpl.
    apply processQueue_tracked, drop_timer_tracked, H.
  - destruct (listeners (state sys)) as [|l ls]; [discriminate|].
    injection Hs as <-. apply (notify_tracked (l :: ls)), H.
  - destruct (inflight sys !! i) as [task|]; [|discriminate].
    injection Hs as <-. apply resume_tracked, H.
Qed.

Lemma exec_tracked (acts : list Action) (sys sys' : Sys) :
  timer_tracked (state sys) -> exec acts sys = Some sys' ->
  timer_tracked (state sys').
Proof.
  revert sys; induction acts as [|a acts IH]; intros sys H Hs; simpl in Hs.
  - injection Hs as <-. exact H.
  - destruct (step a sys) as [sys1|] eqn:S; [|discriminate].
    eauto using step_tracked.
Qed.

Lemma reachable_tracked (store : option (list QueueItem)) (sys : Sys) :
  reachable store sys -> timer_tracked (state sys).
Proof. intros [acts H]. eapply exec_tracked; [|exact H]. left. reflexivity. Qed.

(** X10.  In every reachable state at most one retry timeout is pending,
    and a pending one is the one [this.retryTimer] holds: [scheduleRetry]
    cancels the previous timeout before it arms the next, so timeouts do
    not pile up, however often [init], [addToQueue] and [processQueue]
    are called. *)
Theorem scheduleRetry_single_timer (store : option (list QueueItem)) (sys : Sys) :
  reachable store sys ->
  (length (timers (state sys)) <= 1)%nat /\
  (forall id, In id (timers (state sys)) -> retryTimer (state sys) = Some id).
Proof.
  intros H. apply reachable_tracked in H as [E|(id & E & R)]; rewrite E.
  - split; [simpl; lia|intros id []].
  - split; [simpl; lia|]. intros id' [<-|[]]. exact R.
Qed.

(** X11.  [destroy] cancels the retry: in every reachable state it leaves
    no timeout pending, and it removes the listener whose handle
    [networkUnsubscribe] holds.  It leaves the store, the flag and the
    methods in flight as they are: a drain pass in flight goes on, and
    if that pass ends with items left it arms a timeout again. *)
Theorem destroy_cancels_retry (store : option (list QueueItem)) (sys sys' : Sys) :
  reachable store sys -> step CallDestroy sys = Some sys' ->
  timers (state sys') = [] /\
  (forall id, networkUnsubscribe (state sys) = Some id ->
              ~ In id (listeners (state sys'))) /\
  storage (state sys') = storage (state sys) /\
  isProcessing (state sys') = isProcessing (state sys) /\
  inflight sys' = inflight sys /\
  (forall i remainingItems sys'',
      inflight sys' !! i = Some (PQ_saveQueue remainingItems) ->
      remainingItems <> [] ->
      step (Settle i) sys' = Some sys'' ->
      armed (state sys'') = true).
Proof.
  intros Hr Hs. apply reachable_tracked in Hr.
  cbn [step] in Hs. injection Hs as <-.
  split; [apply destroy_timers, Hr|].
  unfold destroy, seq, commit; simpl.
  split; [|split; [|split; [|split]]].
  - intros id E. rewrite E. simpl.
    destruct (retryTimer (state sys)); simpl;
      rewrite List.filter_In, Pos.eqb_refl; intros [_ H]; discriminate.
  - destruct (networkUnsubscribe (state sys)); simpl;
      destruct (retryTimer (state sys)); reflexivity.
  - destruct (networkUnsubscribe (state sys)); simpl;
      destruct (retryTimer (state sys)); reflexivity.
  - destruct (networkUnsubscribe (state sys)); simpl;
      destruct (retryTimer (state sys)); simpl; rewrite !app_nil_r; reflexivity.
  - intros i rem sys'' L Hne Hs. cbn [step] in Hs.
    cbn [inflight] in L, Hs. rewrite L in Hs. injection Hs as <-.
    cbn [commit state resume]. apply pq_saved_timers. exact Hne.
Qed.

(** ** Store faults in [addToQueue] *)

(** X12.  [addToQueue] under store faults.  When the read fails and the
    write succeeds, the store is overwritten with the new item alone:
    [getQueue] has answered the failed read with the empty queue, so
    whatever was persisted is lost.  When the write fails, the update is
    dropped: the state is as before, the call returns normally, having
    logged, and no drain pass is started. *)
Theorem addToQueue_store_faults (t : nat) (d : Payload) (h : Headers) (s : State) :
  (getItem_ok env t = false -> setItem_ok env (S t) = true ->
   storage (after (snd (enqueue t d h s))) = Some [mkItem d h (now env t) 0] /\
   next (snd (enqueue t d h s)) = Return) /\
  (setItem_ok env (S t) = false ->
   after (snd (enqueue t d h s)) = s /\
   next (snd (enqueue t d h s)) = Return /\
   spawned (snd (enqueue t d h s)) = [] /\
   In (ELog "Error adding to location queue:") (emitted (snd (enqueue t d h s)))).
Proof.
  split.
  - intros Hr Hw. unfold enqueue, addToQueue. simpl.
    unfold aq_loaded, AsyncStorage_getItem, getQueue. rewrite Hr. simpl.
    unfold aq_stored, AsyncStorage_setItem. rewrite Hw.
    unfold aq_kick, aq_fetched.
    destruct NetInfo; simpl;
      try destruct (fetch env (S (S t))) as [[|]|]; simpl;
      destruct (isProcessing s); simpl;
      rewrite ?(proj1 (quiet_processQueue _)); auto.
  - intros Hw. unfold enqueue, addToQueue. simpl.
    unfold aq_loaded, AsyncStorage_getItem, getQueue.
    destruct (getItem_ok env t); simpl;
      unfold aq_stored, AsyncStorage_setItem; rewrite Hw; simpl;
      repeat split; auto 10.
Qed.

(** ** A pass that cannot deliver or cannot save *)

(** X13.  With NetInfo, a pass that finds the device offline ends at
    once: the store is neither read nor written, the transport is not
    called, the flag is clear again and a retry timeout is armed.  A
    pass whose connectivity probe fails ends the same way, but arms no
    timeout: the timers are as they were. *)
Theorem processQueue_offline_defers (t : nat) (s : State) :
  NetInfo = true -> isProcessing s = false ->
  (fetch env t = Resolved false ->
   storage (after (snd (drain t s))) = storage s /\
   isProcessing (after (snd (drain t s))) = false /\
   next (snd (drain t s)) = Return /\
   armed (after (snd (drain t s))) = true /\
   ~ In EGetItem (emitted (snd (drain t s))) /\
   attempts (emitted (snd (drain t s))) = [] /\
   writes (emitted (snd (drain t s))) = []) /\
  (fetch env t = Rejected ->
   after (snd (drain t s)) = s /\
   next (snd (drain t s)) = Return /\
   ~ In EGetItem (emitted (snd (drain t s))) /\
   attempts (emitted (snd (drain t s))) = [] /\
   writes (emitted (snd (drain t s))) = []).
Proof.
  intros Hn Hf.
  assert (set_isProcessing false (set_isProcessing true s) = s) as Es.
  { destruct s; simpl in *; subst; reflexivity. }
  unfold drain, processQueue, pq_begin. rewrite Hf, Hn.
  change (3 + length (persisted s))%nat
    with (S (S (S (length (persisted s))))).
  rewrite (finish_step _ _ _ PQ_fetch) by reflexivity.
  cbn [resume]. unfold pq_fetched. split; intros ->.
  - assert (forall st, next st = Return ->
              finish (S (S (length (persisted s)))) (S t) st = (S t, st)) as F.
    { intros st E. simpl. rewrite E. reflexivity. }
    rewrite F; cbn [snd];
      unfold then_, pq_try, seq, scheduleRetry, armed; cbn;
      destruct (retryTimer s); cbn; try reflexivity;
      rewrite ?existsb_app; cbn; rewrite ?Pos.eqb_refl, ?orb_true_r;
      repeat split; auto; intros H; simpl in H; intuition discriminate.
  - rewrite finish_done by (cbn; congruence). cbn. rewrite Es.
    repeat split; auto. intros H; simpl in H; intuition discriminate.
Qed.

Lemma survivors_delivered (queue : list QueueItem) (t : nat) :
  (forall t' item, In item queue ->
     logsApi env t' (data item) (headers item) = Resolved false) ->
  survivors t queue = [].
Proof.
  revert t; induction queue as [|item rest IH]; intros t H; [reflexivity|].
  cbn [survivors]. rewrite (H t item) by (left; reflexivity). simpl.
  apply IH. intros t' x Hx. apply H. right. exact Hx.
Qed.

(** X14.  When every delivery succeeds, one pass sends every persisted
    item once, in order, and leaves the persisted queue empty; it arms
    no timeout (the timers are as they were) and ends with the flag
    clear. *)
Theorem processQueue_delivers_all (t : nat) (s : State) :
  isProcessing s = false -> online t ->
  getItem_ok env (load_tick t) = true ->
  setItem_ok env (S (load_tick t) + length (persisted s)) = true ->
  (forall t' item, In item (persisted s) ->
     logsApi env t' (data item) (headers item) = Resolved false) ->
  persisted (after (snd (drain t s))) = [] /\
  attempts (emitted (snd (drain t s))) = map payload (persisted s) /\
  timers (after (snd (drain t s))) = timers s /\
  retryTimer (after (snd (drain t s))) = retryTimer s /\
  isProcessing (after (snd (drain t s))) = false /\
  next (snd (drain t s)) = Return.
Proof.
  intros Hf Hon Hr Hw Hd.
  destruct (drain_persisted t s Hf Hon Hr Hw) as (P & F & N).
  rewrite (survivors_delivered _ _ Hd) in P.
  split; [exact P|].
  destruct (persisted s) as [|item q] eqn:Ep.
  - destruct (drain_empty_quiet t s Hf Hon (or_intror Ep)) as (-> & -> & _).
    auto.
  - assert (persisted s <> []) as Hq by (rewrite Ep; discriminate).
    destruct (drain_items t s Hf Hon Hr Hq) as (_ & E & _ & _ & A & _).
    rewrite Ep in *. rewrite A, E, (survivors_delivered _ _ Hd).
    match goal with |- context [pq_saved [] ?ok ?s0] =>
      destruct (pq_saved_timers [] ok s0) as [_ T];
      destruct (pq_saved_facts [] ok s0) as (_ & _ & _ & F4)
    end.
    destruct (T eq_refl) as [T1 T2]. rewrite T1, T2, F4. auto.
Qed.

(** X15.  When the save at the end of a pass fails, every persisted item
    has been sent, but the store is as it was: the items that were
    delivered stay persisted (they will be sent again by the next pass)
    and no retry count is recorded.  The pass still ends normally, with
    the flag clear, and arms a timeout exactly when its loop kept
    items. *)
Theorem processQueue_failed_save (t : nat) (s : State) :
  isProcessing s = false -> online t ->
  getItem_ok env (load_tick t) = true -> persisted s <> [] ->
  setItem_ok env (S (load_tick t) + length (persisted s)) = false ->
  storage (after (snd (drain t s))) = storage s /\
  attempts (emitted (snd (drain t s))) = map payload (persisted s) /\
  writes (emitted (snd (drain t s))) =
    [survivors (S (load_tick t)) (persisted s)] /\
  (survivors (S (load_tick t)) (persisted s) <> [] ->
   armed (after (snd (drain t s))) = true) /\
  (survivors (S (load_tick t)) (persisted s) = [] ->
   timers (after (snd (drain t s))) = timers s) /\
  isProcessing (after (snd (drain t s))) = false /\
  next (snd (drain t s)) = Return.
Proof.
  intros Hf Hon Hr Hq Hw.
  destruct (drain_items t s Hf Hon Hr Hq) as (_ & E & N & _ & A & W).
  rewrite E, A, W, Hw.
  match goal with |- context [pq_saved ?r ?ok ?s0] =>
    destruct (pq_saved_facts r ok s0) as (F1 & _ & _ & F4);
    destruct (pq_saved_timers r ok s0) as (T1 & T2)
  end.
  rewrite F1, F4. repeat split; auto.
  intros H. apply T2 in H as [H _]. exact H.
Qed.

(** ** [init] called twice *)

(** X16.  With NetInfo, [init] registers a new listener each time it is
    called and keeps the handle of the last one only: after two calls,
    [destroy] removes the second listener and the first one stays
    registered, however often [destroy] is called. *)
Theorem init_twice_leaks_listener (s : State) :
  NetInfo = true ->
  let s2 := after (init (after (init s))) in
  networkUnsubscribe s2 = Some (Pos.succ (fresh s)) /\
  In (fresh s) (listeners s2) /\ In (Pos.succ (fresh s)) (listeners s2) /\
  In (fresh s) (listeners (after (destroy s2))) /\
  ~ In (Pos.succ (fresh s)) (listeners (after (destroy s2))) /\
  In (fresh s) (listeners (after (destroy (after (destroy s2))))).
Proof.
  intros Hn. cbv zeta.
  assert (forall s0, listeners (after (init s0)) = listeners s0 ++ [fresh s0] /\
                     fresh (after (init s0)) = Pos.succ (fresh s0) /\
                     networkUnsubscribe (after (init s0)) = Some (fresh s0)) as I.
  { intros s0. unfold init, seq, detached, processQueue, pq_begin.
    rewrite Hn. simpl. destruct (isProcessing s0); simpl; auto. }
  assert (forall s0 id, networkUnsubscribe s0 = Some id ->
            listeners (after (destroy s0)) =
              List.filter (fun x => negb (Pos.eqb x id)) (listeners s0) /\
            networkUnsubscribe (after (destroy s0)) = Some id) as D.
  { intros s0 id E. unfold destroy, seq. rewrite E. simpl.
    destruct (retryTimer s0); simpl; auto. }
  assert (Pos.eqb (fresh s) (Pos.succ (fresh s)) = false) as Ne.
  { apply Pos.eqb_neq. apply Pos.succ_discr. }
  destruct (I s) as (L1 & F1 & _).
  destruct (I (after (init s))) as (L2 & _ & U2).
  rewrite F1 in U2. rewrite L1, F1 in L2.
  destruct (D _ _ U2) as [D1 D2]. destruct (D _ _ D2) as [D3 _].
  rewrite D3, D1, L2.
  split; [exact U2|].
  rewrite !List.filter_In, !in_app_iff, Ne. simpl.
  repeat split; auto 10.
  intros [_ H]. rewrite Pos.eqb_refl in H. discriminate.
Qed.

(** ** An item enqueued while a pass is in flight *)

(** X17.  The save at the end of a pass overwrites what [addToQueue]
    stored in the meantime.  Without NetInfo and on a store that works:
    a pass loads the queue [[item0]]; while its transport call is
    pending, [addToQueue] persists [[item0; newItem]] (and starts no
    pass, since one is in flight); the pass then saves what it kept of
    the queue it had loaded.  The new item is not in the store any
    more, and it was never sent. *)
Theorem addToQueue_lost_update (item0 : QueueItem) (d : Payload) (h : Headers) :
  NetInfo = false ->
  (forall t, getItem_ok env t = true) -> (forall t, setItem_ok env t = true) ->
  0 <= retryCount item0 ->
  exists sys,
    exec [CallProcessQueue; Settle 0; CallAddToQueue d h; Settle 1; Settle 1;
          Settle 0; Settle 0]
         (boot (Some [item0])) = Some sys /\
    In (ESetItem [item0; mkItem d h (now env 1) 0]) (trace sys) /\
    attempts (trace sys) = [payload item0] /\
    persisted (state sys) =
      option_list (fst (attempt item0 (logsApi env 3 (data item0) (headers item0)))) /\
    ~ In (mkItem d h (now env 1) 0) (persisted (state sys)) /\
    inflight sys = [] /\ isProcessing (state sys) = false.
Proof.
  intros Hn Hr Hw H0.
  set (newItem := mkItem d h (now env 1) 0).
  set (s1 := mkState true None None (Some [item0]) [] [] 1%positive).
  set (tr2 := [EGetItem; ELogsApi (data item0) (headers item0)]).
  set (tr4 := tr2 ++ [EGetItem; ESetItem [item0; newItem]]).
  assert (step CallProcessQueue (boot (Some [item0])) =
          Some (mkSys s1 [PQ_getQueue] 0 [EGetItem])) as E1.
  { cbn [step boot state]. unfold processQueue, pq_begin, pq_load.
    rewrite Hn. reflexivity. }
  assert (step (Settle 0) (mkSys s1 [PQ_getQueue] 0 [EGetItem]) =
          Some (mkSys s1 [PQ_logsApi item0 [] []] 1 tr2)) as E2.
  { cbn [step inflight lookup list_lookup tick state resume].
    unfold AsyncStorage_getItem. rewrite Hr. reflexivity. }
  assert (step (CallAddToQueue d h) (mkSys s1 [PQ_logsApi item0 [] []] 1 tr2) =
          Some (mkSys s1 [PQ_logsApi item0 [] []; AQ_getQueue d h] 1
                      (tr2 ++ [EGetItem]))) as E3.
  { reflexivity. }
  assert (step (Settle 1) (mkSys s1 [PQ_logsApi item0 [] []; AQ_getQueue d h] 1
                                 (tr2 ++ [EGetItem])) =
          Some (mkSys s1 [PQ_logsApi item0 [] []; AQ_setItem [item0; newItem]]
                      2 tr4)) as E4.
  { cbn [step inflight lookup list_lookup tick state resume].
    unfold AsyncStorage_getItem. rewrite Hr. reflexivity. }
  assert (step (Settle 1) (mkSys s1 [PQ_logsApi item0 [] []; AQ_setItem [item0; newItem]]
                                 2 tr4) =
          Some (mkSys (set_storage [item0; newItem] s1) [PQ_logsApi item0 [] []]
                      3 tr4)) as E5.
  { cbn [step inflight lookup list_lookup tick state resume].
    unfold aq_stored, AsyncStorage_setItem. rewrite Hw, Hn.
    unfold commit. cbn. reflexivity. }
  destruct (attempt_events item0 (logsApi env 3 (data item0) (headers item0)))
    as (A & _ & _).
  destruct (attempt item0 (logsApi env 3 (data item0) (headers item0)))
    as [keep ev] eqn:Ea. cbn [fst snd] in *.
  assert (step (Settle 0) (mkSys (set_storage [item0; newItem] s1)
                                 [PQ_logsApi item0 [] []] 3 tr4) =
          Some (mkSys (set_storage [item0; newItem] s1)
                      [PQ_saveQueue (option_list keep)] 4
                      (tr4 ++ ev ++ [ESetItem (option_list keep)]))) as E6.
  { cbn [step inflight lookup list_lookup tick state resume].
    unfold pq_attempted. rewrite Ea. reflexivity. }
  destruct (pq_saved_facts (option_list keep) true
              (set_storage [item0; newItem] s1)) as (F1 & F2 & F3 & F4).
  destruct (pq_saved_events (option_list keep) true
              (set_storage [item0; newItem] s1)) as (F5 & _).
  eexists. split.
  - cbn [exec]. rewrite E1. cbn [exec]. rewrite E2. cbn [exec]. rewrite E3.
    cbn [exec]. rewrite E4. cbn [exec]. rewrite E5. cbn [exec]. rewrite E6.
    cbn [exec step inflight lookup list_lookup tick state]. reflexivity.
  - cbn [commit state inflight trace resume delete list_delete].
    rewrite Hw, F2, F3, F4. unfold persisted. rewrite F1.
    rewrite !attempts_app, F5, A. subst tr4 tr2. cbn.
    repeat split; auto 10.
    destruct keep as [k|] eqn:K; [|intros []].
    assert (fst (attempt item0 (logsApi env 3 (data item0) (headers item0)))
            = Some k) as Ek by (rewrite Ea; reflexivity).
    apply attempt_keeps in Ek as [-> _].
    intros [H|[]]. unfold newItem, incrRetry in H.
    injection H as _ _ _ H. lia.
Qed.

(** ** Two calls of [addToQueue] at once *)

(** X24.  Two calls of [addToQueue] whose reads both settle before
    either write: each call writes the queue it has read with its own
    item appended, so the second write replaces the first.  Without
    NetInfo, on a working store that starts empty, the first item is
    written and overwritten; the drain pass that the first call starts
    loads the second item only, and the first item is never sent. *)
Theorem addToQueue_concurrent_calls (d1 d2 : Payload) (h1 h2 : Headers) :
  NetInfo = false ->
  (forall t, getItem_ok env t = true) -> (forall t, setItem_ok env t = true) ->
  let item1 := mkItem d1 h1 (now env 0) 0 in
  let item2 := mkItem d2 h2 (now env 1) 0 in
  exists sys,
    exec [CallAddToQueue d1 h1; CallAddToQueue d2 h2;
          Settle 0; Settle 0; Settle 0; Settle 0; Settle 0; Settle 0; Settle 0]
         (boot None) = Some sys /\
    attempts (trace sys) = [payload item2] /\
    writes (trace sys) =
      [[item1]; [item2];
       option_list (fst (attempt item2 (logsApi env 5 d2 h2)))] /\
    persisted (state sys) =
      option_list (fst (attempt item2 (logsApi env 5 d2 h2))) /\
    inflight sys = [] /\ isProcessing (state sys) = false.
Proof.
  intros Hn Hr Hw. cbv zeta.
  set (item1 := mkItem d1 h1 (now env 0) 0).
  set (item2 := mkItem d2 h2 (now env 1) 0).
  set (s0 := constructor (@None (list QueueItem))).
  set (s1 := mkState true None None (Some [item1]) [] [] 1%positive).
  set (s2 := mkState true None None (Some [item2]) [] [] 1%positive).
  set (tr3 := [EGetItem; EGetItem; ESetItem [item1]; ESetItem [item2]]).
  assert (exec [CallAddToQueue d1 h1; CallAddToQueue d2 h2] (boot None) =
          Some (mkSys s0 [AQ_getQueue d1 h1; AQ_getQueue d2 h2] 0
                      [EGetItem; EGetItem])) as E1 by reflexivity.
  assert (step (Settle 0) (mkSys s0 [AQ_getQueue d1 h1; AQ_getQueue d2 h2] 0
                                 [EGetItem; EGetItem]) =
          Some (mkSys s0 [AQ_getQueue d2 h2; AQ_setItem [item1]] 1
                      [EGetItem; EGetItem; ESetItem [item1]])) as E2.
  { cbn [step inflight lookup list_lookup tick state resume].
    unfold AsyncStorage_getItem. rewrite Hr. reflexivity. }
  assert (step (Settle 0) (mkSys s0 [AQ_getQueue d2 h2; AQ_setItem [item1]] 1
                                 [EGetItem; EGetItem; ESetItem [item1]]) =
          Some (mkSys s0 [AQ_setItem [item1]; AQ_setItem [item2]] 2 tr3)) as E3.
  { cbn [step inflight lookup list_lookup tick state resume].
    unfold AsyncStorage_getItem. rewrite Hr. reflexivity. }
  assert (step (Settle 0) (mkSys s0 [AQ_setItem [item1]; AQ_setItem [item2]] 2 tr3) =
          Some (mkSys s1 [AQ_setItem [item2]; PQ_getQueue] 3
                      (tr3 ++ [EGetItem]))) as E4.
  { cbn [step inflight lookup list_lookup tick state resume].
    unfold aq_stored, AsyncStorage_setItem. rewrite Hw, Hn.
    unfold aq_kick, processQueue, pq_begin, pq_load. rewrite Hn. reflexivity. }
  assert (step (Settle 0) (mkSys s1 [AQ_setItem [item2]; PQ_getQueue] 3
                                 (tr3 ++ [EGetItem])) =
          Some (mkSys s2 [PQ_getQueue] 4 (tr3 ++ [EGetItem]))) as E5.
  { cbn [step inflight lookup list_lookup tick state resume].
    unfold aq_stored, AsyncStorage_setItem. rewrite Hw, Hn.
    unfold commit. cbn. rewrite ?app_nil_r. reflexivity. }
  assert (step (Settle 0) (mkSys s2 [PQ_getQueue] 4 (tr3 ++ [EGetItem])) =
          Some (mkSys s2 [PQ_logsApi item2 [] []] 5
                      (tr3 ++ [EGetItem; ELogsApi d2 h2]))) as E6.
  { cbn [step inflight lookup list_lookup tick state resume].
    unfold AsyncStorage_getItem. rewrite Hr. reflexivity. }
  destruct (attempt_events item2 (logsApi env 5 d2 h2)) as (A & W & _).
  destruct (attempt item2 (logsApi env 5 d2 h2)) as [keep ev] eqn:Ea.
  cbn [fst snd] in *.
  assert (step (Settle 0) (mkSys s2 [PQ_logsApi item2 [] []] 5
                                 (tr3 ++ [EGetItem; ELogsApi d2 h2])) =
          Some (mkSys s2 [PQ_saveQueue (option_list keep)] 6
                      ((tr3 ++ [EGetItem; ELogsApi d2 h2]) ++ ev ++
                       [ESetItem (option_list keep)]))) as E7.
  { cbn [step inflight lookup list_lookup tick state resume].
    unfold pq_attempted. cbn [data headers item2]. rewrite Ea. reflexivity. }
  destruct (pq_saved_facts (option_list keep) true s2) as (F1 & F2 & F3 & F4).
  destruct (pq_saved_events (option_list keep) true s2) as (F5 & F6).
  eexists. split.
  - change [CallAddToQueue d1 h1; CallAddToQueue d2 h2; Settle 0; Settle 0;
            Settle 0; Settle 0; Settle 0; Settle 0; Settle 0]
      with ([CallAddToQueue d1 h1; CallAddToQueue d2 h2] ++
            [Settle 0; Settle 0; Settle 0; Settle 0; Settle 0; Settle 0; Settle 0]).
    assert (forall l1 l2 sys sys1,
              exec l1 sys = Some sys1 -> exec (l1 ++ l2) sys = exec l2 sys1) as X.
    { induction l1 as [|a l1 IH]; intros l2 sys sys1 H; simpl in *.
      - injection H as <-. reflexivity.
      - destruct (step a sys); [eauto|discriminate]. }
    rewrite (X _ _ _ _ E1).
    cbn [exec]. rewrite E2. cbn [exec]. rewrite E3. cbn [exec]. rewrite E4.
    cbn [exec]. rewrite E5. cbn [exec]. rewrite E6. cbn [exec]. rewrite E7.
    cbn [exec step inflight lookup list_lookup tick state]. reflexivity.
  - cbn [commit state inflight trace resume delete list_delete].
    rewrite Hw, F2, F3, F4. unfold persisted. rewrite F1.
    rewrite !attempts_app, !writes_app, F5, F6, A, W. subst tr3. cbn.
    repeat split; auto.
Qed.

(** ** Progress *)

Lemma backlog_app (l1 l2 : list Task) :
  backlog (l1 ++ l2) = (backlog l1 + backlog l2)%nat.
Proof. induction l1 as [|x l1 IH]; simpl; [reflexivity|]. rewrite IH. lia. Qed.

Lemma processQueue_backlog (s : State) :
  (backlog (suspended (next (processQueue s)) ++ spawned (processQueue s))
   <= 54)%nat.
Proof.
  unfold processQueue, pq_begin, pq_load.
  destruct (isProcessing s), NetInfo; simpl; lia.
Qed.

(** Settling the promise a method awaits leaves less to await. *)
Lemma resume_backlog (t : nat) (task : Task) (s : State) :
  within_capacity (persisted s) ->
  (backlog (suspended (next (resume t task s)) ++ spawned (resume t task s))
   < weight task)%nat.
Proof.
  intros Hc. unfold within_capacity, persisted in Hc.
  assert (forall st, (backlog (suspended (next (pq_try st)) ++ spawned (pq_try st))
                      <= backlog (suspended (next st) ++ spawned st))%nat) as T.
  { intros st. unfold pq_try.
    destruct (next st) eqn:E; simpl; rewrite ?E; simpl; lia. }
  assert (forall msg st,
             backlog (suspended (next (try_catch msg st)) ++ spawned (try_catch msg st))
             = backlog (suspended (next st) ++ spawned st)) as C.
  { intros msg st. destruct (try_catch_facts msg st) as (_ & -> & ->).
    reflexivity. }
  assert (forall s0, (backlog (suspended (next (detached processQueue ret s0)) ++
                               spawned (detached processQueue ret s0))
                      <= 54)%nat) as K.
  { intros s0. pose proof (processQueue_backlog s0) as B.
    unfold detached. simpl. rewrite app_nil_r.
    rewrite backlog_app in *. lia. }
  unfold MAX_QUEUE_SIZE in *.
  destruct task; cbn [resume weight]; unfold aq_try; rewrite ?C;
    try (eapply Nat.le_lt_trans; [apply T|]).
  - unfold pq_fetched. destruct (fetch env t) as [[|]|]; simpl; try lia.
    unfold seq. destruct (scheduleRetry _); simpl. lia.
  - unfold pq_loaded, AsyncStorage_getItem, getQueue.
    destruct (getItem_ok env t); [destruct (storage s) as [[|item q]|]|];
      simpl in *; lia.
  - unfold pq_attempted. destruct (attempt item _) as [keep ev].
    destruct rest; simpl; lia.
  - unfold pq_saved, AsyncStorage_setItem, seq.
    destruct (setItem_ok env t); simpl;
      destruct (0 <? length remainingItems)%nat; simpl;
      try destruct (scheduleRetry _); simpl; lia.
  - unfold aq_loaded, AsyncStorage_getItem, getQueue.
    destruct (getItem_ok env t); simpl; lia.
  - unfold aq_stored, AsyncStorage_setItem.
    destruct (setItem_ok env t); simpl; [|lia].
    destruct NetInfo; simpl; [lia|].
    unfold aq_kick. destruct (negb _); [|simpl; lia].
    pose proof (K (set_storage queue s)). lia.
  - unfold aq_fetched. destruct (fetch env t) as [c|]; simpl; [|lia].
    destruct (c && negb (isProcessing s)); [|simpl; lia].
    pose proof (K s). lia.
Qed.

Lemma settle_all (n : nat) :
  forall sys,
    sound within_capacity sys -> (backlog (inflight sys) <= n)%nat ->
    exists k sys',
      (k <= n)%nat /\ exec (repeat (Settle 0) k) sys = Some sys' /\
      inflight sys' = [].
Proof.
  induction n as [|n IH]; intros sys Hs Hb.
  - exists 0%nat, sys. repeat split; [lia|].
    destruct (inflight sys) as [|task l]; [reflexivity|].
    simpl in Hb. destruct task; simpl in Hb; lia.
  - destruct (inflight sys) as [|task others] eqn:E.
    { exists 0%nat, sys. repeat split; [lia|exact E]. }
    assert (step (Settle 0) sys =
            Some (commit sys others (S (tick sys))
                         (resume (tick sys) task (state sys)))) as St.
    { cbn [step]. rewrite E. reflexivity. }
    pose proof (resume_backlog (tick sys) task (state sys) (proj1 Hs)) as R.
    destruct (IH (commit sys others (S (tick sys))
                         (resume (tick sys) task (state sys))))
      as (k & sys' & Hk & He & Hi).
    + eapply step_sound; [| | |exact Hs|exact St];
        auto using push_bounded_capacity, attempt_capacity.
      unfold within_capacity. simpl. lia.
    + cbn [commit inflight]. rewrite backlog_app.
      simpl in Hb. lia.
    + exists (S k), sys'. repeat split; [lia| |exact Hi].
      cbn [repeat exec]. rewrite St. exact He.
Qed.

(** X22.  The queue does not wedge.  From every reachable state (of a
    store that started within capacity), if the host settles the pending
    promises one after the other and nothing else is called, then after
    a bounded number of them no method is in flight and the flag is
    clear, whatever the host answers: every pass and every [addToQueue]
    in flight, and every pass they start, runs to its end. *)
Theorem settling_quiesces (store : option (list QueueItem)) (sys : Sys) :
  within_capacity (default [] store) -> reachable store sys ->
  exists k sys',
    (k <= backlog (inflight sys))%nat /\
    exec (repeat (Settle 0) k) sys = Some sys' /\
    inflight sys' = [] /\ isProcessing (state sys') = false.
Proof.
  intros Hc Hr.
  pose proof (reachable_exclusive store sys Hr) as Hx.
  apply (reachable_sound within_capacity) in Hr;
    auto using push_bounded_capacity, attempt_capacity;
    [|unfold within_capacity; simpl; lia].
  destruct (settle_all (backlog (inflight sys)) sys Hr (Nat.le_refl _))
    as (k & sys' & Hk & He & Hi).
  exists k, sys'. repeat split; try assumption.
  apply (exec_exclusive _ _ _ Hx) in He.
  unfold exclusive, flag in He. rewrite Hi in He. simpl in He.
  destruct (isProcessing (state sys')); [discriminate|reflexivity].
Qed.

End Model.


(** * Concrete runs *)



(** Items A, B, C that all fail are attempted in the order A, B, C in the
    first pass and again in the second. *)
Lemma processQueue_fifo_witness :
  let s0 := constructor (Some [item_A; item_B; item_C]) in
  let pass1 := drain false host_down 0 s0 in
  let pass2 := drain false host_down (fst pass1) (after (snd pass1)) in
  attempts (emitted (snd pass1)) = [(1, 0); (2, 0); (3, 0)]%nat /\
  attempts (emitted (snd pass2)) = [(1, 0); (2, 0); (3, 0)]%nat.
Proof.
  cbv zeta. split.
  - exact (proj1 (processQueue_fifo false host_down) 0%nat
             (constructor (Some [item_A; item_B; item_C])) eq_refl
             (fun H => ltac:(discriminate H)) eq_refl).
  - exact (proj1 (processQueue_fifo false host_down)
             (fst (drain false host_down 0
                     (constructor (Some [item_A; item_B; item_C]))))
             (after (snd (drain false host_down 0
                            (constructor (Some [item_A; item_B; item_C])))))
             eq_refl (fun H => ltac:(discriminate H)) eq_refl).
Defined.

(** While the pass started by [init] is in flight, a second call of
    [processQueue] changes nothing. *)
Lemma processQueue_single_flight_witness :
  let s1 := after (init false (constructor (Some [item_A]))) in
  isProcessing s1 = true /\ processQueue false s1 = ret s1.
Proof.
  cbv zeta. split; [reflexivity|].
  apply (proj1 (processQueue_single_flight false host_down)). reflexivity.
Defined.

(** With nothing persisted, [getQueue] returns the empty queue. *)
Lemma queue_errors_are_swallowed_witness :
  storage (constructor (@None (list (@QueueItem nat nat)))) = None /\
  getQueue (AsyncStorage_getItem true (constructor (@None (list (@QueueItem nat nat)))))
  = (Resolved [], []).
Proof.
  split; [reflexivity|].
  apply (proj1 (queue_errors_are_swallowed false host_down)). reflexivity.
Defined.

(** A pass on an empty store gives the state back. *)
Lemma processQueue_empty_queue_noop_witness :
  let s0 := constructor (@None (list (@QueueItem nat nat))) in
  after (snd (drain false host_down 0 s0)) = s0 /\
  writes (emitted (snd (drain false host_down 0 s0))) = [].
Proof.
  cbv zeta.
  destruct (processQueue_empty_queue_noop false host_down 0%nat
              (constructor None) eq_refl (fun H => ltac:(discriminate H))
              (or_intror eq_refl)) as (E & _ & _ & _ & W & _).
  split; [exact E|exact W].
Defined.

(** A pass over a store that cannot be read still ends with the flag
    clear. *)
Lemma processQueue_clears_flag_witness :
  let s0 := constructor (Some [item_A]) in
  isProcessing s0 = false /\
  next (snd (drain false host_unreadable 0 s0)) = Return /\
  isProcessing (after (snd (drain false host_unreadable 0 s0))) = false.
Proof.
  cbv zeta. split; [reflexivity|].
  apply (proj1 (processQueue_clears_flag false host_unreadable)). reflexivity.
Defined.

(** Without NetInfo, [init] on a store with one item arms a timeout. *)
Lemma init_timer_fallback_witness :
  armed (after (init false (constructor (Some [item_A])))) = true.
Proof.
  apply (proj1 (init_timer_fallback false host_down eq_refl)).
Defined.

(** C8 as stated fails.  Without NetInfo and after [init]: (1) on a
    working store, once the first timeout has fired on an empty queue, an
    item that is enqueued is persisted while no timeout is pending (the
    pass that [addToQueue] started is in flight); (2) on a store whose
    reads fail, once the timeout has fired, the item is still persisted,
    no timeout is pending and nothing is in flight: no drain pass will
    run until the next call. *)
Lemma init_fallback_not_always_armed :
  (exists sys,
      exec false host_down
           [CallInit; Settle 0; TimerFires 1; Settle 0;
            CallAddToQueue 1%nat 0%nat; Settle 0; Settle 0]
           (boot None) = Some sys /\
      persisted (state sys) <> [] /\ timers (state sys) = [] /\
      armed (state sys) = false) /\
  (exists sys,
      exec false host_unreadable
           [CallInit; Settle 0; TimerFires 1; Settle 0]
           (boot (Some [item_A])) = Some sys /\
      persisted (state sys) = [item_A] /\ timers (state sys) = [] /\
      armed (state sys) = false /\ inflight sys = []).
Proof.
  split.
  - eexists. split; [vm_compute; reflexivity|].
    simpl. repeat split; discriminate.
  - eexists. split; [vm_compute; reflexivity|].
    simpl. repeat split.
Qed.


(** After two calls of [init] and one of [processQueue] a single timeout
    is pending. *)
Lemma scheduleRetry_single_timer_witness :
  match exec false host_down [CallInit; CallInit; CallProcessQueue] (boot None) with
  | Some sys => (length (timers (state sys)) <= 1)%nat
  | None => False
  end.
Proof.
  destruct (exec false host_down [CallInit; CallInit; CallProcessQueue] (boot None))
    as [sys|] eqn:E; [|vm_compute in E; discriminate E].
  apply (scheduleRetry_single_timer false host_down None sys).
  exists [CallInit; CallInit; CallProcessQueue]. exact E.
Defined.

(** A first pass has failed to deliver item A and has armed a timeout;
    [destroy] cancels it. *)
Lemma destroy_cancels_retry_witness :
  match exec false host_down [CallInit; Settle 0; Settle 0; Settle 0]
             (boot (Some [item_A])) with
  | Some sys =>
      timers (state sys) <> [] /\
      match step false host_down CallDestroy sys with
      | Some sys' => timers (state sys') = []
      | None => False
      end
  | None => False
  end.
Proof.
  destruct (exec false host_down [CallInit; Settle 0; Settle 0; Settle 0]
                 (boot (Some [item_A]))) as [sys|] eqn:E;
    [|vm_compute in E; discriminate E].
  split.
  - vm_compute in E. injection E as <-. discriminate.
  - destruct (step false host_down CallDestroy sys) as [sys'|] eqn:D;
      [|discriminate D].
    apply (destroy_cancels_retry false host_down (Some [item_A]) sys sys');
      [|exact D].
    exists [CallInit; Settle 0; Settle 0; Settle 0]. exact E.
Defined.

(** On a store that cannot be read, enqueuing payload 7 replaces the two
    persisted items by the new one. *)
Lemma addToQueue_store_faults_witness :
  storage (after (snd (enqueue false host_unreadable 0 7%nat 0%nat
                         (constructor (Some [item_A; item_B])))))
  = Some [mkItem 7%nat 0%nat 0 0].
Proof.
  exact (proj1 (proj1 (addToQueue_store_faults false host_unreadable 0%nat
                         7%nat 0%nat (constructor (Some [item_A; item_B])))
                      eq_refl eq_refl)).
Defined.

(** With NetInfo and no connection, a pass leaves item A persisted and
    arms a timeout. *)
Lemma processQueue_offline_defers_witness :
  let s0 := constructor (Some [item_A]) in
  storage (after (snd (drain true host_offline 0 s0))) = storage s0 /\
  armed (after (snd (drain true host_offline 0 s0))) = true.
Proof.
  cbv zeta.
  destruct (proj1 (processQueue_offline_defers true host_offline 0%nat
                     (constructor (Some [item_A])) eq_refl eq_refl) eq_refl)
    as (S & _ & _ & A & _).
  split; [exact S|exact A].
Defined.

(** On a host that delivers everything, one pass sends A, B and C and
    empties the store. *)
Lemma processQueue_delivers_all_witness :
  let s0 := constructor (Some [item_A; item_B; item_C]) in
  persisted (after (snd (drain false host_up 0 s0))) = [] /\
  attempts (emitted (snd (drain false host_up 0 s0)))
  = [(1, 0); (2, 0); (3, 0)]%nat.
Proof.
  cbv zeta.
  destruct (processQueue_delivers_all false host_up 0%nat
              (constructor (Some [item_A; item_B; item_C])) eq_refl
              (fun H => ltac:(discriminate H)) eq_refl eq_refl
              (fun _ _ _ => eq_refl)) as (P & A & _).
  split; [exact P|exact A].
Defined.

(** On a store that cannot be written, item A is delivered and stays
    persisted. *)
Lemma processQueue_failed_save_witness :
  let s0 := constructor (Some [item_A]) in
  storage (after (snd (drain false host_unwritable 0 s0))) = Some [item_A] /\
  attempts (emitted (snd (drain false host_unwritable 0 s0))) = [(1, 0)]%nat.
Proof.
  cbv zeta.
  destruct (processQueue_failed_save false host_unwritable 0%nat
              (constructor (Some [item_A])) eq_refl
              (fun H => ltac:(discriminate H)) eq_refl
              ltac:(discriminate) eq_refl) as (S & A & _).
  split; [exact S|exact A].
Defined.

(** Two calls of [init] on a fresh instance: listener 1 outlives
    [destroy]. *)
Lemma init_twice_leaks_listener_witness :
  let s2 := after (init true (after (init true (constructor (@None (list (@QueueItem nat nat))))))) in
  In 1%positive (listeners (after (destroy s2))).
Proof.
  cbv zeta.
  exact (proj1 (proj2 (proj2 (proj2
           (init_twice_leaks_listener true (constructor None) eq_refl))))).
Defined.

(** Payload 9 enqueued while the pass over item A is in flight: item A is
    delivered, the store ends up empty, and payload 9 was never sent. *)
Lemma addToQueue_lost_update_witness :
  exists sys,
    exec false host_up
         [CallProcessQueue; Settle 0; CallAddToQueue 9%nat 0%nat; Settle 1;
          Settle 1; Settle 0; Settle 0]
         (boot (Some [item_A])) = Some sys /\
    persisted (state sys) = [] /\
    attempts (trace sys) = [(1, 0)]%nat.
Proof.
  destruct (addToQueue_lost_update false host_up item_A 9%nat 0%nat eq_refl
              (fun _ => eq_refl) (fun _ => eq_refl) (Z.le_refl 0))
    as (sys & E & _ & A & P & _).
  exists sys. split; [exact E|]. split; [exact P|exact A].
Defined.

(** After [init] and a call of [addToQueue], settling what is pending
    brings the system to rest. *)
Lemma settling_quiesces_witness :
  match exec false host_down [CallInit; CallAddToQueue 1%nat 0%nat] (boot None) with
  | Some sys =>
      exists k sys',
        exec false host_down (repeat (Settle 0) k) sys = Some sys' /\
        inflight sys' = [] /\ isProcessing (state sys') = false
  | None => False
  end.
Proof.
  destruct (exec false host_down [CallInit; CallAddToQueue 1%nat 0%nat] (boot None))
    as [sys|] eqn:E; [|vm_compute in E; discriminate E].
  destruct (settling_quiesces false host_down None sys)
    as (k & sys' & _ & He & Hi & Hf).
  - unfold within_capacity. simpl. apply Nat.le_0_l.
  - exists [CallInit; CallAddToQueue 1%nat 0%nat]. exact E.
  - exists k, sys'. split; [exact He|]. split; [exact Hi|exact Hf].
Defined.

(** Payloads 1 and 2 enqueued at the same time on [host_up]: only
    payload 2 is sent. *)
Lemma addToQueue_concurrent_calls_witness :
  exists sys,
    exec false host_up
         [CallAddToQueue 1%nat 0%nat; CallAddToQueue 2%nat 0%nat;
          Settle 0; Settle 0; Settle 0; Settle 0; Settle 0; Settle 0; Settle 0]
         (boot None) = Some sys /\
    attempts (trace sys) = [(2, 0)]%nat /\
    persisted (state sys) = [].
Proof.
  destruct (addToQueue_concurrent_calls false host_up 1%nat 2%nat 0%nat 0%nat
              eq_refl (fun _ => eq_refl) (fun _ => eq_refl))
    as (sys & E & A & _ & P & _).
  exists sys. split; [exact E|]. split; [exact A|exact P].
Defined.

End LocationUpdateQueue.

Module PaymentCalculationsFacts.
Import PaymentCalculations.

(** The module's own test cases pass. *)
Example runTests_pass : runTests = true.
Proof. vm_compute. reflexivity. Qed.

(** ** Doubles that are not negative *)

Lemma max0_not_negative (x : float) : not_negative (Prim2SF (max0 x)) = true.
Proof.
  unfold max0. destruct (isNaN x); [reflexivity|].
  destruct (PrimFloat.ltb PrimFloat.zero x) eqn:L; [|reflexivity].
  rewrite ltb_spec in L.
  change (Prim2SF PrimFloat.zero) with (S754_zero false) in L.
  destruct (Prim2SF x) as [s|s| |s m e]; try destruct s; simpl in *;
    try reflexivity; discriminate.
Qed.

Lemma SFadd_not_negative (a b : spec_float) :
  not_negative a = true -> not_negative b = true ->
  not_negative (SF64add a b) = true.
Proof.
  unfold SF64add, SFadd.
  destruct a as [sa|sa| |sa ma ea], b as [sb|sb| |sb mb eb];
    try destruct sa; try destruct sb; simpl; try reflexivity; try discriminate.
  intros _ _. unfold binary_round, binary_round_aux.
  repeat match goal with
         | |- context [let '(_, _) := ?x in _] => destruct x
         end.
  destruct (shr_m _); [reflexivity| |reflexivity].
  destruct (_ <=? _); reflexivity.
Qed.


Lemma max0_number (x : float) : isNaN x = false -> isNaN (max0 x) = false.
Proof.
  intros H. unfold max0. rewrite H.
  destruct (PrimFloat.ltb PrimFloat.zero x); [exact H|reflexivity].
Qed.

(** ** The result of the calculation *)

(** The slip behind the NaN: for a B2C order whose [order_cost] does not
    parse as a number the function returns [orderType] B2C and a
    [totalAmount] that is NaN.  The comment at the [isNaN(deliveryFees)]
    check says the fee is then taken as 0; the code only logs, and
    [Math.max(0, NaN)] is NaN. *)
Lemma calculateDriverCollection_nan_total :
  let result := calculateDriverCollection (Some order_with_bad_cost) in
  orderType result = "B2C"%string /\
  isNaN (totalAmount result) = true /\
  isNaN (deliveryFees (breakdown result)) = true /\
  PrimFloat.eqb (customerPayment (breakdown result)) 80%float = true.
Proof. vm_compute. repeat split. Qed.





(** ** How an order is classified *)

Lemma is_string_default (v : JsValue) (literal : string) :
  is_string (js_or v (JsString literal)) literal =
  negb (truthy v) || is_string v literal.
Proof.
  unfold js_or. destruct (truthy v); simpl; [reflexivity|].
  apply String.eqb_refl.
Qed.

Lemma truthy_nullish (v : JsValue) :
  truthy (js_nullish v (JsBool false)) = truthy v.
Proof. destruct v; reflexivity. Qed.

Lemma truthy_default (v d : JsValue) :
  truthy v = true -> js_or v d = v.
Proof. unfold js_or. intros ->. reflexivity. Qed.

Lemma cashToCollect_missing (o : Order) :
  truthy (cash_to_be_collected o) = false -> truthy (amount o) = false ->
  cashToCollect o = PrimFloat.zero.
Proof.
  unfold cashToCollect, js_or. intros H1 H2. rewrite H1, H2. reflexivity.
Qed.

(** The fallback is taken exactly when there is no order or the amount
    does not parse. *)
Lemma orderType_error (o : Order) :
  orderType (calculateDriverCollection (Some o)) = "Error"%string <->
  isNaN (cashToCollect o) = true.
Proof.
  unfold calculateDriverCollection. fold (cashToCollect o).
  destruct (isNaN (cashToCollect o)); [split; reflexivity|].
  destruct (_ || _); [split; discriminate|].
  destruct (_ || _); split; discriminate.
Qed.

Lemma max0_add_zero (x : float) :
  PrimFloat.add (max0 x) PrimFloat.zero = max0 x.
Proof.
  unfold max0. destruct (isNaN x); [reflexivity|].
  destruct (PrimFloat.ltb PrimFloat.zero x) eqn:L; [|reflexivity].
  apply Prim2SF_inj. rewrite add_spec. rewrite ltb_spec in L.
  change (Prim2SF PrimFloat.zero) with (S754_zero false) in *.
  destruct (Prim2SF x) as [s|s| |s m e]; try destruct s; simpl in *;
    try reflexivity; discriminate.
Qed.

(** X1.  An order is B2B exactly when its amount parses and
    [order_source] is missing (or another falsy value) or
    ['dispatch_panel'], or [delivery_fee_paid_by] is missing or
    ['restaurant']: the defaults of lines 291-292 make every order that
    lacks one of the two fields B2B, whatever [collect_delivery_fees]
    and the other field say.  It is B2C exactly when it is not B2B and
    [collect_delivery_fees] is truthy, the fee is paid by the customer
    or the source is the customer app or the website.  A B2B order's
    total is the amount clamped at 0; the delivery fee has no part in
    it. *)
Theorem calculateDriverCollection_classification (o : Order) :
  let result := calculateDriverCollection (Some o) in
  let restaurant_pays :=
    truthy (order_source o) = false \/
    is_string (order_source o) "dispatch_panel" = true \/
    truthy (delivery_fee_paid_by o) = false \/
    is_string (delivery_fee_paid_by o) "restaurant" = true in
  let customer_pays :=
    truthy (collect_delivery_fees o) = true \/
    is_string (delivery_fee_paid_by o) "customer" = true \/
    is_string (order_source o) "customer_app" = true \/
    is_string (order_source o) "website" = true in
  (orderType result = "B2B"%string <->
   isNaN (cashToCollect o) = false /\ restaurant_pays) /\
  (orderType result = "B2C"%string <->
   isNaN (cashToCollect o) = false /\ ~ restaurant_pays /\ customer_pays) /\
  (orderType result = "B2B"%string ->
   totalAmount result = max0 (cashToCollect o) /\
   includesDeliveryFees result = false /\
   deliveryFees (breakdown result) = PrimFloat.zero).
Proof.
  cbv zeta. unfold calculateDriverCollection. fold (cashToCollect o).
  destruct (isNaN (cashToCollect o)) eqn:N.
  { repeat split; try discriminate; intros [H _]; discriminate. }
  rewrite !is_string_default, truthy_nullish.
  assert ((negb (truthy (order_source o))
           || is_string (order_source o) "dispatch_panel")
          || (negb (truthy (delivery_fee_paid_by o))
              || is_string (delivery_fee_paid_by o) "restaurant") = true <->
          truthy (order_source o) = false \/
          is_string (order_source o) "dispatch_panel" = true \/
          truthy (delivery_fee_paid_by o) = false \/
          is_string (delivery_fee_paid_by o) "restaurant" = true) as B.
  { rewrite !orb_true_iff, !negb_true_iff. tauto. }
  destruct (_ || _) eqn:R in B |- *.
  { cbn [orderType totalAmount includesDeliveryFees breakdown deliveryFees].
    pose proof (proj1 B eq_refl) as Hb.
    repeat split; auto; try discriminate. intros (_ & H & _). elim (H Hb). }
  assert (~ (truthy (order_source o) = false \/
             is_string (order_source o) "dispatch_panel" = true \/
             truthy (delivery_fee_paid_by o) = false \/
             is_string (delivery_fee_paid_by o) "restaurant" = true)) as NB.
  { intros H. apply B in H. discriminate. }
  apply orb_false_iff in R as [R1 R2].
  apply orb_false_iff in R1 as [T1 _]. apply orb_false_iff in R2 as [T2 _].
  apply negb_false_iff in T1, T2.
  rewrite (truthy_default _ (JsString "dispatch_panel") T1),
    (truthy_default _ (JsString "restaurant") T2).
  assert (truthy (collect_delivery_fees o)
          || is_string (delivery_fee_paid_by o) "customer"
          || is_string (order_source o) "customer_app"
          || is_string (order_source o) "website" = true <->
          truthy (collect_delivery_fees o) = true \/
          is_string (delivery_fee_paid_by o) "customer" = true \/
          is_string (order_source o) "customer_app" = true \/
          is_string (order_source o) "website" = true) as C.
  { rewrite !orb_true_iff. tauto. }
  destruct (_ || _) eqn:R in C |- *;
    cbn [orderType totalAmount includesDeliveryFees breakdown deliveryFees].
  - pose proof (proj1 C eq_refl) as Hc.
    repeat split; auto; try discriminate. intros [_ H]. elim (NB H).
  - repeat split; try discriminate.
    + intros [_ H]. elim (NB H).
    + intros (_ & _ & H). apply C in H. discriminate.
Qed.

(** X2.  In every result the total is the sum of the two amounts of the
    breakdown (as doubles; all three are NaN together in the one case in
    which the total is NaN); the delivery fee is included exactly for a
    B2C order, and when it is not included the breakdown's fee is 0 and
    the total is the customer payment. *)
Theorem calculateDriverCollection_breakdown_adds_up (orderData : option Order) :
  let result := calculateDriverCollection orderData in
  totalAmount result =
    PrimFloat.add (customerPayment (breakdown result))
                  (deliveryFees (breakdown result)) /\
  (includesDeliveryFees result = true <-> orderType result = "B2C"%string) /\
  (includesDeliveryFees result = false ->
   deliveryFees (breakdown result) = PrimFloat.zero /\
   totalAmount result = customerPayment (breakdown result)).
Proof.
  cbv zeta. unfold calculateDriverCollection, getErrorFallback.
  destruct orderData as [o|].
  2: { cbn. repeat split; discriminate. }
  destruct (isNaN (parseFloat _)) eqn:N.
  { cbn [totalAmount breakdown customerPayment deliveryFees orderType
         includesDeliveryFees].
    rewrite max0_add_zero. repeat split; discriminate. }
  destruct (_ || _).
  { cbn [totalAmount breakdown customerPayment deliveryFees orderType
         includesDeliveryFees].
    rewrite max0_add_zero. repeat split; discriminate. }
  destruct (_ || _);
    cbn [totalAmount breakdown customerPayment deliveryFees orderType
         includesDeliveryFees].
  - repeat split; discriminate.
  - rewrite max0_add_zero. repeat split; discriminate.
Qed.

(** X3.  A result of type Error always has a total of 0: the fallback is
    taken only when there is no order or its amount does not parse, and
    then there is no customer payment to fall back on. *)
Theorem calculateDriverCollection_error_is_zero (orderData : option Order) :
  let result := calculateDriverCollection orderData in
  (orderType result = "Error"%string <->
   match orderData with
   | Some o => isNaN (cashToCollect o) = true
   | None => True
   end) /\
  (orderType result = "Error"%string ->
   totalAmount result = PrimFloat.zero /\
   customerPayment (breakdown result) = PrimFloat.zero /\
   includesDeliveryFees result = false).
Proof.
  cbv zeta. destruct orderData as [o|]; [|repeat split].
  split; [apply orderType_error|].
  intros H. apply orderType_error in H.
  unfold calculateDriverCollection, getErrorFallback.
  fold (cashToCollect o). rewrite H. cbn - [max0]. repeat split.
Qed.


(** ** The label *)

(** X5.  [getCollectionLabel] has two results, not three: it returns
    ['Total to Collect'] when the delivery fees are included and the type
    is not B2B, and ['Customer Payment'] otherwise; the last [return] is
    never reached.  For the result of a calculation the label is
    ['Total to Collect'] exactly for a B2C order. *)
Theorem getCollectionLabel_two_labels :
  (forall type includes : JsValue,
      getCollectionLabel type includes =
      if truthy includes && negb (is_string type "B2B")
      then "Total to Collect"%string else "Customer Payment"%string) /\
  (forall type includes : JsValue,
      getCollectionLabel type includes <> "Amount to Collect"%string) /\
  (forall orderData : option Order,
      let result := calculateDriverCollection orderData in
      getCollectionLabel (JsString (orderType result))
                         (JsBool (includesDeliveryFees result)) =
      if String.eqb (orderType result) "B2C"
      then "Total to Collect"%string else "Customer Payment"%string).
Proof.
  split; [|split].
  - intros type includes. unfold getCollectionLabel.
    destruct (is_string type "B2B"), (truthy includes); simpl;
      rewrite ?orb_true_r; reflexivity.
  - intros type includes. unfold getCollectionLabel.
    destruct (is_string type "B2B"), (truthy includes); simpl;
      rewrite ?orb_true_r; discriminate.
  - intros orderData. cbv zeta.
    unfold calculateDriverCollection, getErrorFallback.
    destruct orderData as [o|]; [|reflexivity].
    destruct (isNaN _); [reflexivity|].
    destruct (_ || _); [reflexivity|].
    destruct (_ || _); reflexivity.
Qed.

(** ** Validation *)

Lemma validateOrderData_errors (o : Order) :
  errors (validateOrderData (Some o)) =
  (if negb (truthy (cash_to_be_collected o)) && negb (truthy (amount o))
   then ["Missing cash_to_be_collected or amount field"%string] else []) ++
  (if isNaN (cashToCollect o)
   then ["Invalid cash_to_be_collected value"%string] else []).
Proof. reflexivity. Qed.

Lemma validateOrderData_isValid (o : Order) :
  isValid (validateOrderData (Some o)) = true <->
  (truthy (cash_to_be_collected o) = true \/ truthy (amount o) = true) /\
  isNaN (cashToCollect o) = false.
Proof.
  unfold validateOrderData. fold (cashToCollect o). cbn [isValid].
  destruct (truthy (cash_to_be_collected o)), (truthy (amount o)),
    (isNaN (cashToCollect o)); cbn; split; auto; try discriminate;
    intros [[H|H] H']; discriminate.
Qed.

(** X6.  [validateOrderData] reports at most one error: a missing order,
    a missing amount, or an amount that does not parse (a missing amount
    is read as 0, which parses).  An order it accepts is never given the
    Error fallback by [calculateDriverCollection], and its customer
    payment is a number. *)
Theorem validateOrderData_accepts_calculable (orderData : option Order) :
  let validation := validateOrderData orderData in
  let result := calculateDriverCollection orderData in
  (length (errors validation) <= 1)%nat /\
  (isValid validation = true <-> errors validation = []) /\
  (isValid validation = true ->
   orderType result <> "Error"%string /\
   isNaN (customerPayment (breakdown result)) = false).
Proof.
  cbv zeta. destruct orderData as [o|].
  2: { cbn. repeat split; try lia; discriminate. }
  split; [|split].
  - rewrite validateOrderData_errors.
    destruct (truthy (cash_to_be_collected o)) eqn:T1; cbn [negb andb];
      [destruct (isNaN _); cbn; lia|].
    destruct (truthy (amount o)) eqn:T2; cbn [negb andb];
      [destruct (isNaN _); cbn; lia|].
    rewrite cashToCollect_missing by assumption. cbn. lia.
  - unfold validateOrderData. cbn [isValid errors].
    destruct (_ ++ _); cbn; split; auto; discriminate.
  - intros H. apply validateOrderData_isValid in H as [_ N].
    split.
    + intros E. apply orderType_error in E. congruence.
    + unfold calculateDriverCollection. fold (cashToCollect o). rewrite N.
      destruct (_ || _); [apply max0_number, N|].
      destruct (_ || _); apply max0_number, N.
Qed.

(** X7.  An order whose amount is missing (both [cash_to_be_collected]
    and [amount] absent, [null], 0 or the empty string) is reported
    invalid with the one error ['Missing ...'], yet the calculation does
    not take the Error fallback for it: the amount is read as 0 and the
    customer payment is 0. *)
Theorem validateOrderData_missing_amount (o : Order) :
  truthy (cash_to_be_collected o) = false -> truthy (amount o) = false ->
  errors (validateOrderData (Some o)) =
    ["Missing cash_to_be_collected or amount field"%string] /\
  isValid (validateOrderData (Some o)) = false /\
  orderType (calculateDriverCollection (Some o)) <> "Error"%string /\
  customerPayment (breakdown (calculateDriverCollection (Some o))) =
    PrimFloat.zero.
Proof.
  intros T1 T2. pose proof (cashToCollect_missing o T1 T2) as Z.
  split; [|split; [|split]].
  - rewrite validateOrderData_errors, T1, T2, Z. reflexivity.
  - unfold validateOrderData. fold (cashToCollect o).
    rewrite T1, T2, Z. reflexivity.
  - intros E. apply orderType_error in E. rewrite Z in E. discriminate.
  - unfold calculateDriverCollection. fold (cashToCollect o). rewrite Z.
    cbn - [parseFloat js_or is_string truthy].
    destruct (_ || _); [reflexivity|]. destruct (_ || _); reflexivity.
Qed.

Lemma validateOrderData_warnings (o : Order) :
  In "Negative cash_to_be_collected value detected"%string
     (warnings (validateOrderData (Some o))) <->
  PrimFloat.ltb (cashToCollect o) PrimFloat.zero = true.
Proof.
  unfold validateOrderData. fold (cashToCollect o). cbn [warnings].
  rewrite !in_app_iff.
  destruct (PrimFloat.ltb (cashToCollect o) PrimFloat.zero).
  - split; [reflexivity|]. intros _. right. left. reflexivity.
  - split; [|discriminate].
    destruct (negb (truthy (order_source o))),
      (negb (truthy (delivery_fee_paid_by o))), (collect_delivery_fees o);
      cbn; intuition discriminate.
Qed.

Lemma ltb_zero_max0 (x : float) :
  PrimFloat.ltb x PrimFloat.zero = true ->
  isNaN x = false /\ PrimFloat.is_zero x = false /\ max0 x = PrimFloat.zero.
Proof.
  intros L. unfold max0, isNaN, PrimFloat.is_nan, PrimFloat.is_zero.
  rewrite !FloatAxioms.eqb_spec, FloatAxioms.ltb_spec.
  rewrite FloatAxioms.ltb_spec in L.
  change (Prim2SF PrimFloat.zero) with (S754_zero false) in *.
  destruct (Prim2SF x) as [s|s| |s m e]; try destruct s; try discriminate;
    unfold SFeqb, SFltb in *; cbn [SFcompare] in *;
    rewrite ?Z.compare_refl, ?Pos.compare_cont_refl; cbn; auto.
Qed.

(** X8.  A negative amount is a warning, not an error: the order is
    valid, and the calculation clamps the customer payment to 0 (it is
    not the Error fallback). *)
Theorem validateOrderData_negative_amount (o : Order) :
  In "Negative cash_to_be_collected value detected"%string
     (warnings (validateOrderData (Some o))) ->
  isValid (validateOrderData (Some o)) = true /\
  orderType (calculateDriverCollection (Some o)) <> "Error"%string /\
  customerPayment (breakdown (calculateDriverCollection (Some o))) =
    PrimFloat.zero.
Proof.
  intros H. apply validateOrderData_warnings in H.
  destruct (ltb_zero_max0 _ H) as (N & Z & M).
  split; [|split].
  - apply validateOrderData_isValid. split; [|exact N].
    destruct (truthy (cash_to_be_collected o)) eqn:T1; [auto|].
    destruct (truthy (amount o)) eqn:T2; [auto|].
    rewrite (cashToCollect_missing o T1 T2) in Z. discriminate.
  - intros E. apply orderType_error in E. congruence.
  - unfold calculateDriverCollection. fold (cashToCollect o). rewrite N, M.
    destruct (_ || _); [reflexivity|]. destruct (_ || _); reflexivity.
Qed.


(** ** Amounts with trailing text *)

Lemma is_digit_cases (c : ascii) :
  is_digit c = true ->
  c = "0"%char \/ c = "1"%char \/ c = "2"%char \/ c = "3"%char \/
  c = "4"%char \/ c = "5"%char \/ c = "6"%char \/ c = "7"%char \/
  c = "8"%char \/ c = "9"%char.
Proof.
  destruct c as [[] [] [] [] [] [] [] []]; vm_compute; intros H;
    try discriminate H; tauto.
Qed.

Lemma is_digit_digit_of (c : ascii) :
  is_digit c = false -> digit_of c = None.
Proof. unfold is_digit. destruct (digit_of c); [discriminate|reflexivity]. Qed.

(** Reading a run of digits that is followed by another character. *)
Lemma digits_app (ds : string) (c : ascii) (rest : string) :
  all_digits ds = true -> is_digit c = false ->
  forall acc count,
    digits (ds ++ String c rest) acc count =
    (fst (fst (digits ds acc count)), snd (fst (digits ds acc count)),
     String c rest) /\
    snd (digits ds acc count) = EmptyString /\
    snd (fst (digits ds acc count)) = count + Z.of_nat (String.length ds) /\
    (0 <= acc -> 0 <= fst (fst (digits ds acc count))).
Proof.
  intros Hd Hc. induction ds as [|d ds IH]; intros acc count.
  - simpl. rewrite (is_digit_digit_of c Hc). repeat split; auto; lia.
  - cbn [all_digits] in Hd. apply andb_prop in Hd as [Hd1 Hd2].
    cbn [append digits String.length]. unfold is_digit in Hd1.
    destruct (digit_of d) as [v|] eqn:E; [|discriminate].
    destruct (IH Hd2 (10 * acc + v) (count + 1)) as (I1 & I2 & I3 & I4).
    rewrite I1, I2, I3. repeat split; auto; [lia|].
    intros Ha. apply I4.
    unfold digit_of in E.
    destruct (_ && _) eqn:R; [|discriminate]. injection E as <-.
    apply andb_prop in R as [R _]. apply Nat.leb_le in R. lia.
Qed.

(** [parseFloat] reads the digits at the head of a string and ignores
    what follows them, unless that continues the number. *)
Lemma parseFloat_string_digits (ds : string) (c : ascii) (rest : string) :
  ds <> EmptyString -> all_digits ds = true ->
  is_digit c = false -> c <> "."%char -> c <> "e"%char -> c <> "E"%char ->
  parseFloat_string (ds ++ String c rest) = parseFloat_string ds.
Proof.
  intros Hne Hd Hc H1 H2 H3.
  destruct ds as [|d ds]; [congruence|]. clear Hne.
  pose proof Hd as Hd'. cbn [all_digits] in Hd'.
  apply andb_prop in Hd' as [Hd1 _].
  assert (forall tail,
    parseFloat_string (String d tail) =
      let '(int_part, int_count, rest) := digits (String d tail) 0 0 in
      let '(mantissa, frac_count, rest) :=
        match rest with
        | String "." t => digits t int_part 0
        | _ => (int_part, 0, rest)
        end in
      if (int_count =? 0) && (frac_count =? 0) then PrimFloat.nan
      else
        match mantissa with
        | Zpos m => decimal_to_float false m (exponent rest - frac_count)
        | _ => PrimFloat.zero
        end) as P.
  { intros tail.
    destruct (is_digit_cases d Hd1) as [->|[->|[->|[->|[->|[->|[->|[->|[->| ->]]]]]]]]];
      reflexivity. }
  change (String d ds ++ String c rest)%string
    with (String d (ds ++ String c rest)).
  rewrite !P.
  change (String d (ds ++ String c rest))
    with (String d ds ++ String c rest)%string.
  destruct (digits_app (String d ds) c rest Hd Hc 0 0) as (D1 & D2 & D3 & D4).
  rewrite D1.
  destruct (digits (String d ds) 0 0) as [[value count] tail] eqn:E.
  cbn [fst snd] in *. subst tail count.
  assert ((0 + Z.of_nat (String.length (String d ds)) =? 0) = false) as L.
  { apply Z.eqb_neq. simpl String.length. lia. }
  rewrite L. cbn [andb].
  assert (match String c rest with
          | String "." t => digits t value 0
          | _ => (value, 0, String c rest)
          end = (value, 0, String c rest)) as ->.
  { destruct c as [[] [] [] [] [] [] [] []]; try reflexivity. congruence. }
  assert (exponent (String c rest) = 0) as ->.
  { unfold exponent.
    assert (Ascii.eqb c "e" = false) as -> by (apply Ascii.eqb_neq; exact H2).
    assert (Ascii.eqb c "E" = false) as -> by (apply Ascii.eqb_neq; exact H3).
    reflexivity. }
  reflexivity.
Qed.

(** X23.  An amount is read with [parseFloat], which stops at the first
    character that cannot continue a number: an amount made of digits
    followed by other text (['50 AED'], ['12abc']) is read as the number
    its digits spell.  [validateOrderData] and [calculateDriverCollection]
    cannot tell such an order from the one whose amount is the digits
    alone: they return the same validation and the same collection. *)
Theorem amount_trailing_text_ignored (ds : string) (c : ascii) (rest : string)
    (source paid_by collect other cost : JsValue) :
  ds <> EmptyString -> all_digits ds = true ->
  is_digit c = false -> c <> "."%char -> c <> "e"%char -> c <> "E"%char ->
  let with_text :=
    mkOrder source paid_by collect (JsString (ds ++ String c rest)) other cost in
  let digits_only := mkOrder source paid_by collect (JsString ds) other cost in
  cashToCollect with_text = parseFloat_string ds /\
  validateOrderData (Some with_text) = validateOrderData (Some digits_only) /\
  calculateDriverCollection (Some with_text) =
    calculateDriverCollection (Some digits_only).
Proof.
  intros Hne Hd Hc H1 H2 H3. cbv zeta.
  pose proof (parseFloat_string_digits ds c rest Hne Hd Hc H1 H2 H3) as P.
  assert (forall s a z, s <> EmptyString ->
            js_or (js_or (JsString s) a) z = JsString s /\
            truthy (JsString s) = true) as J.
  { intros s a z Hs. unfold js_or.
    assert (truthy (JsString s) = true) as T.
    { simpl. destruct s; [congruence|reflexivity]. }
    rewrite T, T. auto. }
  assert ((ds ++ String c rest)%string <> EmptyString) as Hne'.
  { destruct ds; discriminate. }
  destruct (J _ other (JsNumber PrimFloat.zero) Hne') as [J1 T1].
  destruct (J _ other (JsNumber PrimFloat.zero) Hne) as [J2 T2].
  unfold cashToCollect, validateOrderData, calculateDriverCollection,
    getErrorFallback.
  cbn [cash_to_be_collected amount order_source delivery_fee_paid_by
       collect_delivery_fees order_cost].
  rewrite J1, J2, T1, T2. cbn [parseFloat]. rewrite P. repeat split.
Qed.

(** X9.  The module's own test run: all five test cases pass, none
    fails. *)
Theorem runTests_all_passed :
  runTests = true /\ runTests_summary = (5, 5, 0)%nat.
Proof. split; vm_compute; reflexivity. Qed.

(** An order of the customer app whose amount is the number 0. *)
Lemma validateOrderData_missing_amount_witness :
  isValid (validateOrderData (Some order_without_amount)) = false /\
  orderType (calculateDriverCollection (Some order_without_amount))
  <> "Error"%string.
Proof.
  destruct (validateOrderData_missing_amount order_without_amount
              eq_refl eq_refl) as (_ & V & E & _).
  split; [exact V|exact E].
Defined.

(** An order with the amount ['-5.00']. *)
Lemma validateOrderData_negative_amount_witness :
  isValid (validateOrderData (Some order_with_negative_amount)) = true /\
  customerPayment
    (breakdown (calculateDriverCollection (Some order_with_negative_amount)))
  = PrimFloat.zero.
Proof.
  assert (In "Negative cash_to_be_collected value detected"%string
            (warnings (validateOrderData (Some order_with_negative_amount))))
    as H by (vm_compute; auto).
  destruct (validateOrderData_negative_amount order_with_negative_amount H)
    as (V & _ & P).
  split; [exact V|exact P].
Defined.

(** The amount ['50 AED'] is read as 50. *)
Lemma amount_trailing_text_ignored_witness :
  calculateDriverCollection
    (Some (mkOrder JsUndefined JsUndefined JsUndefined (JsString "50 AED")
                   JsUndefined JsUndefined)) =
  calculateDriverCollection
    (Some (mkOrder JsUndefined JsUndefined JsUndefined (JsString "50")
                   JsUndefined JsUndefined)).
Proof.
  exact (proj2 (proj2
    (amount_trailing_text_ignored "50" " " "AED"
       JsUndefined JsUndefined JsUndefined JsUndefined JsUndefined
       ltac:(discriminate) eq_refl eq_refl
       ltac:(discriminate) ltac:(discriminate) ltac:(discriminate)))).
Defined.

End PaymentCalculationsFacts.

Module FormatCurrencyFacts.
Import PaymentCalculations.

(** The example of lines 412-414, and the same amount with the ISO code
    only and with neither. *)
Example formatCurrency_example :
  formatCurrency (JsNumber 50.5%float) (Some currency_AED) None =
    Normal (String "5" (String "0" (String "." (String "5" (String "0"
      (String " " (String "216" (String "175" (String "."
        (String "216" (String "165" EmptyString))))))))))) /\
  formatCurrency (JsNumber 50.5%float)
                 (Some (mkCurrency JsUndefined (JsString "AED"))) None =
    Normal "50.50 AED"%string /\
  formatCurrency (JsNumber 50.5%float)
                 (Some (mkCurrency JsUndefined JsUndefined)) None =
    Normal "50.50"%string.
Proof. vm_compute. repeat split. Qed.

(** ** Digits *)

Lemma decimal_head (n : Z) :
  exists c rest, decimal n = String c rest /\ is_digit c = true.
Proof.
  unfold decimal. destruct (N.to_uint (Z.to_N n)); simpl; eauto.
Qed.

Lemma all_solid_uint (u : Decimal.uint) :
  all_solid (NilEmpty.string_of_uint u) = true.
Proof. induction u; simpl; auto. Qed.

Lemma all_solid_decimal (n : Z) : all_solid (decimal n) = true.
Proof.
  unfold decimal, NilZero.string_of_uint.
  destruct (N.to_uint (Z.to_N n)) eqn:E; try reflexivity;
    rewrite <- E; apply all_solid_uint.
Qed.

Lemma all_solid_zeros (n : nat) : all_solid (zeros n) = true.
Proof. induction n; simpl; auto. Qed.

Lemma all_solid_app (s t : string) :
  all_solid (s ++ t) = all_solid s && all_solid t.
Proof.
  induction s as [|c s IH]; simpl; [reflexivity|].
  rewrite IH, andb_assoc. reflexivity.
Qed.

Lemma all_solid_substring (s : string) :
  forall n m, all_solid s = true -> all_solid (substring n m s) = true.
Proof.
  induction s as [|c s IH]; intros n m H; simpl in *.
  - destruct n, m; reflexivity.
  - apply andb_prop in H as [H1 H2].
    destruct n; [destruct m; simpl; [reflexivity|]|auto].
    rewrite H1. simpl. auto.
Qed.

Lemma is_digit_solid (c : ascii) : is_digit c = true -> solid c = true.
Proof.
  unfold is_digit, digit_of, solid, is_space.
  destruct c as [[] [] [] [] [] [] [] []]; vm_compute; congruence.
Qed.

(** ** What [toFixed] and [Number::toString] print *)

Lemma fixed_point_head (n f : Z) :
  0 <= f ->
  exists c rest, fixed_point n f = String c rest /\ is_digit c = true.
Proof.
  intros Hf. unfold fixed_point.
  destruct (decimal_head n) as (c & rest & E & D). rewrite E.
  destruct (f =? 0) eqn:F0; [eauto|]. apply Z.eqb_neq in F0.
  set (k := Z.of_nat (String.length (String c rest))).
  assert (1 <= k) as Hk by (unfold k; simpl; lia).
  destruct (k <=? f) eqn:L.
  - replace (Z.to_nat (f + 1 - f)) with 1%nat by lia.
    apply Z.leb_le in L.
    destruct (Z.to_nat (f + 1 - k)) as [|j] eqn:J; [lia|].
    simpl. exists "0"%char. eexists. split; reflexivity.
  - apply Z.leb_gt in L.
    destruct (Z.to_nat (k - f)) as [|j] eqn:J; [lia|].
    simpl. eauto.
Qed.

Lemma all_solid_fixed_point (n f : Z) : all_solid (fixed_point n f) = true.
Proof.
  unfold fixed_point. pose proof (all_solid_decimal n) as D.
  destruct (f =? 0); [exact D|].
  assert (all_solid (if Z.of_nat (String.length (decimal n)) <=? f
                     then (zeros (Z.to_nat (f + 1 - Z.of_nat (String.length (decimal n))))
                           ++ decimal n)%string
                     else decimal n) = true) as M.
  { destruct (_ <=? _); [|exact D].
    rewrite all_solid_app, all_solid_zeros, D. reflexivity. }
  rewrite !all_solid_app. simpl.
  rewrite !all_solid_substring by exact M. reflexivity.
Qed.

Lemma Number_toString_positive_head (x : float) (num den : Z) :
  exists c rest,
    Number_toString_positive x num den = String c rest /\ is_digit c = true.
Proof.
  unfold Number_toString_positive.
  destruct (shortest _ _ _ _ _ _) as [s0 e0].
  destruct (strip_zeros _ _ _) as [s e].
  destruct (decimal_head s) as (c & rest & E & D). rewrite E.
  set (k := Z.of_nat (String.length (String c rest))).
  assert (1 <= k) as Hk by (unfold k; simpl; lia).
  destruct (_ && _).
  - destruct (k <=? e + k); [simpl; eauto|].
    destruct (0 <? e + k) eqn:P.
    + apply Z.ltb_lt in P.
      destruct (Z.to_nat (e + k)) as [|j] eqn:J; [lia|]. simpl. eauto.
    + exists "0"%char. eexists. split; reflexivity.
  - destruct (k =? 1); simpl; eauto.
Qed.

Lemma all_solid_Number_toString_positive (x : float) (num den : Z) :
  all_solid (Number_toString_positive x num den) = true.
Proof.
  unfold Number_toString_positive.
  destruct (shortest _ _ _ _ _ _) as [s0 e0].
  destruct (strip_zeros _ _ _) as [s e].
  pose proof (all_solid_decimal s) as D.
  assert (forall n, all_solid (decimal n) = true) as D' by apply all_solid_decimal.
  destruct (_ && _).
  - destruct (_ <=? _);
      [rewrite all_solid_app, all_solid_zeros, D; reflexivity|].
    destruct (_ <? _).
    + rewrite !all_solid_app. simpl.
      rewrite !all_solid_substring by exact D. reflexivity.
    + simpl. rewrite all_solid_app, all_solid_zeros, D. reflexivity.
  - destruct (_ <? _); destruct (_ =? _);
      rewrite !all_solid_app; simpl; rewrite ?all_solid_app; simpl;
      rewrite ?all_solid_substring by exact D; rewrite ?D, ?D'; reflexivity.
Qed.

Lemma isNaN_spec (x : float) :
  isNaN x = match Prim2SF x with S754_nan => true | _ => false end.
Proof.
  unfold isNaN, PrimFloat.is_nan. rewrite FloatAxioms.eqb_spec.
  destruct (Prim2SF x) as [s|s| |s m e]; try destruct s; try reflexivity;
    unfold SFeqb; cbn [SFcompare];
    rewrite Z.compare_refl, Pos.compare_cont_refl; reflexivity.
Qed.

(** Every character [toFixed] prints is an ASCII character other than
    white space. *)
Lemma all_solid_toFixed (x f : float) (text : string) :
  toFixed x f = Normal text -> all_solid text = true.
Proof.
  unfold toFixed. destruct (ToIntegerOrInfinity f) as [d|]; [|discriminate].
  destruct (_ || _); [discriminate|]. intros H. injection H as <-.
  destruct (Prim2SF x) as [s|s| |s m e]; try destruct s; try reflexivity;
    try apply all_solid_fixed_point;
    destruct (fraction m e) as [num den]; rewrite all_solid_app;
    (destruct (_ <=? _);
     [rewrite all_solid_Number_toString_positive
     |rewrite all_solid_fixed_point]); reflexivity.
Qed.

(** For a number that is not below zero, [toFixed] prints a digit first,
    or [Infinity]. *)
Lemma toFixed_head (x f : float) (text : string) :
  isNaN x = false -> not_negative (Prim2SF x) = true ->
  toFixed x f = Normal text ->
  exists c rest, text = String c rest /\ (is_digit c = true \/ c = "I"%char).
Proof.
  rewrite isNaN_spec. unfold toFixed.
  destruct (ToIntegerOrInfinity f) as [d|]; [|discriminate].
  destruct (_ || _) eqn:R; [discriminate|].
  apply orb_false_iff in R as [R _]. apply Z.ltb_ge in R.
  intros N P H. injection H as <-.
  destruct (Prim2SF x) as [s|s| |s m e]; try discriminate;
    simpl in P; apply negb_true_iff in P; subst s.
  - destruct (fixed_point_head 0 d R) as (c & rest & -> & D). eauto.
  - exists "I"%char. eexists. split; [reflexivity|auto].
  - unfold fraction. cbn [append].
    destruct (_ <=? _).
    + match goal with |- context [Number_toString_positive ?a ?b ?c] =>
        destruct (Number_toString_positive_head a b c) as (c0 & rest & -> & D)
      end. eauto.
    + match goal with |- context [fixed_point ?a ?b] =>
        destruct (fixed_point_head a b R) as (c0 & rest & -> & D)
      end. eauto.
Qed.

(** ** What [trim] removes *)

Lemma white_space_solid (c : ascii) (rest : string) :
  solid c = true -> white_space (String c rest) = None.
Proof.
  unfold solid, white_space, byte. intros H.
  apply andb_prop in H as [H1 H2]. apply N.ltb_lt in H1.
  apply negb_true_iff in H2. rewrite H2.
  assert (forall n, (128 <= n)%N -> (N_of_ascii c =? n)%N = false) as B.
  { intros n Hn. apply N.eqb_neq. lia. }
  rewrite !B by lia. simpl. destruct rest as [|c2 [|c3 r]]; reflexivity.
Qed.

(** White space holds no solid character. *)
Lemma white_space_has_solid (s rest : string) :
  white_space s = Some rest -> has_solid rest = has_solid s.
Proof.
  assert (forall c n, (128 <= n)%N -> byte c n = true -> solid c = false) as B.
  { intros c n Hn H. unfold byte in H. apply N.eqb_eq in H. unfold solid.
    replace (N_of_ascii c <? 128)%N with false; [reflexivity|].
    symmetry. apply N.ltb_ge. lia. }
  assert (forall c, (128 <=? N_of_ascii c)%N = true -> solid c = false) as B'.
  { intros c H. apply N.leb_le in H. unfold solid.
    replace (N_of_ascii c <? 128)%N with false; [reflexivity|].
    symmetry. apply N.ltb_ge. lia. }
  unfold white_space. destruct s as [|c1 s1]; [discriminate|].
  destruct (is_space c1) eqn:S1.
  { intros H. injection H as <-. simpl. unfold solid. rewrite S1.
    rewrite andb_false_r. reflexivity. }
  destruct s1 as [|c2 s2]; [discriminate|].
  destruct (byte c1 194 && byte c2 160) eqn:T2.
  { intros H. injection H as <-. apply andb_prop in T2 as [T1 T2]. simpl.
    rewrite (B c1 194%N), (B c2 160%N) by (assumption || lia). reflexivity. }
  destruct s2 as [|c3 s3]; [discriminate|].
  destruct (_ || _) eqn:T3; [|discriminate].
  intros H. injection H as <-. simpl.
  assert (solid c1 = false /\ solid c2 = false /\ solid c3 = false)
    as (-> & -> & ->); [|reflexivity].
  rewrite !orb_true_iff, !andb_true_iff in T3.
  destruct T3 as [[[[[[H1 H2] H3]|[[H1 H2] H3]]|[[H1 H2] H3]]
                    |[[H1 H2] H3]]|[[H1 H2] H3]];
    (split; [eapply B; [|exact H1]; lia|]);
    (split; [eapply B; [|exact H2]; lia|]);
    try (eapply B; [|exact H3]; lia).
  rewrite !orb_true_iff, andb_true_iff in H3.
  destruct H3 as [[[[H3 _]|H3]|H3]|H3];
    [apply B'; exact H3|eapply B; [|exact H3]; lia..].
Qed.

Lemma trimStart_from_has_solid (fuel : nat) (s : string) :
  has_solid (trimStart_from fuel s) = has_solid s.
Proof.
  revert s; induction fuel as [|fuel IH]; intros s; simpl; [reflexivity|].
  destruct (white_space s) as [rest|] eqn:W; [|reflexivity].
  rewrite IH. apply white_space_has_solid. exact W.
Qed.

(** A string that holds a solid character is not white space only. *)
Lemma trimStart_has_solid (s : string) :
  has_solid s = true -> trimStart s <> EmptyString.
Proof.
  intros H E. unfold trimStart in E.
  rewrite <- (trimStart_from_has_solid (String.length s) s), E in H.
  discriminate.
Qed.

Lemma trimStart_solid (c : ascii) (rest : string) :
  solid c = true -> trimStart (String c rest) = String c rest.
Proof.
  intros H. unfold trimStart. simpl String.length. cbn [trimStart_from].
  rewrite white_space_solid by exact H. reflexivity.
Qed.

Lemma trimEnd_keeps (c : ascii) (rest : string) :
  has_solid (String c rest) = true ->
  trimEnd (String c rest) = String c (trimEnd rest).
Proof.
  intros H. cbn [trimEnd].
  destruct (trimStart (String c rest)) eqn:E; [|reflexivity].
  elim (trimStart_has_solid _ H E).
Qed.

Lemma trimEnd_app (s t : string) :
  all_solid s = true -> (trimEnd (s ++ t) = s ++ trimEnd t)%string.
Proof.
  induction s as [|c s IH]; intros H; cbn [append all_solid] in *;
    [reflexivity|].
  apply andb_prop in H as [H1 H2].
  rewrite trimEnd_keeps by (cbn [has_solid]; rewrite H1; reflexivity).
  rewrite IH by exact H2. reflexivity.
Qed.

Lemma has_solid_app (s t : string) :
  has_solid (s ++ t) = has_solid s || has_solid t.
Proof.
  induction s as [|c s IH]; simpl; [reflexivity|].
  rewrite IH, orb_assoc. reflexivity.
Qed.

(** A string whose last character is solid has nothing to trim at its
    end. *)
Lemma trimEnd_solid_last (s : string) (last : ascii) :
  solid last = true ->
  (trimEnd (s ++ String last EmptyString) = s ++ String last EmptyString)%string.
Proof.
  intros H. induction s as [|c s IH].
  - cbn [append].
    rewrite trimEnd_keeps by (cbn [has_solid]; rewrite H; reflexivity).
    reflexivity.
  - cbn [append]. rewrite trimEnd_keeps.
    + rewrite IH. reflexivity.
    + cbn [has_solid]. rewrite has_solid_app. cbn [has_solid]. rewrite H.
      rewrite !orb_true_r. reflexivity.
Qed.

(** ** The collection amount *)

Lemma totalAmount_not_negative (orderData : option Order) :
  not_negative (Prim2SF (totalAmount (calculateDriverCollection orderData)))
  = true.
Proof.
  unfold calculateDriverCollection, getErrorFallback.
  destruct orderData as [o|]; [|reflexivity].
  destruct (isNaN (parseFloat _)); [reflexivity|].
  destruct (_ || _);
    [apply PaymentCalculationsFacts.max0_not_negative|].
  destruct (_ || _); cbn [totalAmount].
  - rewrite add_spec.
    apply PaymentCalculationsFacts.SFadd_not_negative;
      apply PaymentCalculationsFacts.max0_not_negative.
  - apply PaymentCalculationsFacts.max0_not_negative.
Qed.

(** X19.  [formatCurrency] answers ['0.00'] when there is no currency,
    when the amount is not a number and when it is NaN, whatever
    [decimals] is: the fallback has two decimals even if another number
    was asked for, and an invalid [decimals] goes unnoticed.  For a
    number and a currency it throws a [RangeError] exactly when
    [decimals], truncated to an integer, is not between 0 and 100; with
    [decimals] left out it never throws. *)
Theorem formatCurrency_failure_modes :
  (forall amount decimals,
      formatCurrency amount None decimals = Normal "0.00"%string) /\
  (forall amount currency decimals,
      (forall x, amount <> JsNumber x) ->
      formatCurrency amount currency decimals = Normal "0.00"%string) /\
  (forall x currency decimals,
      isNaN x = true ->
      formatCurrency (JsNumber x) currency decimals = Normal "0.00"%string) /\
  (forall x currency decimals,
      isNaN x = false ->
      (formatCurrency (JsNumber x) (Some currency) decimals = RangeError <->
       match ToIntegerOrInfinity (default 2%float decimals) with
       | Some f => f < 0 \/ 100 < f
       | None => True
       end)) /\
  (forall amount currency,
      formatCurrency amount currency None <> RangeError).
Proof.
  split; [|split; [|split; [|split]]].
  - intros amount decimals. reflexivity.
  - intros amount currency decimals H. unfold formatCurrency.
    destruct currency; [|reflexivity].
    destruct amount; try reflexivity. elim (H x). reflexivity.
  - intros x currency decimals H. unfold formatCurrency.
    destruct currency; [|reflexivity]. rewrite H. reflexivity.
  - intros x currency decimals H. unfold formatCurrency, toFixed. rewrite H.
    destruct (ToIntegerOrInfinity _) as [f|]; [|split; auto].
    destruct (Z.ltb_spec f 0); simpl; [split; auto|].
    destruct (Z.ltb_spec 100 f); simpl; [split; auto|].
    split; [discriminate|]. lia.
  - intros amount currency. unfold formatCurrency.
    destruct currency; [|discriminate].
    destruct amount; try discriminate.
    destruct (isNaN x); [discriminate|].
    unfold toFixed.
    change (ToIntegerOrInfinity (default 2%float None)) with (Some 2).
    simpl. discriminate.
Qed.

(** X20.  What [formatCurrency] prints for a number: the text of
    [toFixed], then, if the currency has a symbol (or else an ISO code),
    a space and that symbol.  Without either it is the text of [toFixed]
    alone: [trim] removes the separating space.  (The symbol is taken
    here to end with an ASCII character that is not white space.) *)
Theorem formatCurrency_text (x : float) (currency : Currency) (f : float)
    (text : string) :
  isNaN x = false -> toFixed x f = Normal text ->
  let symbol :=
    ToString (js_or (js_or (symbol currency) (iso_code currency))
                    (JsString "")) in
  (symbol = EmptyString ->
   formatCurrency (JsNumber x) (Some currency) (Some f) = Normal text) /\
  (forall body last,
      symbol = (body ++ String last EmptyString)%string -> solid last = true ->
      formatCurrency (JsNumber x) (Some currency) (Some f) =
      Normal (text ++ " " ++ symbol)%string).
Proof.
  intros N T. cbv zeta. unfold formatCurrency.
  change (default 2%float (Some f)) with f. cbv zeta. rewrite N, T.
  pose proof (all_solid_toFixed x f text T) as A.
  assert (exists c rest, text = String c rest /\ solid c = true)
    as (c & rest & E & Sc).
  { destruct text as [|c rest].
    - exfalso. revert T. unfold toFixed.
      destruct (ToIntegerOrInfinity f) as [d|]; [|discriminate].
      destruct (_ || _) eqn:R; [discriminate|].
      apply orb_false_iff in R as [R _]. apply Z.ltb_ge in R.
      intros H. injection H as H. revert H.
      destruct (Prim2SF x) as [s|s| |s m e]; try destruct s; try discriminate;
        try (destruct (fixed_point_head 0 d R) as (c & r & -> & _);
             discriminate);
        unfold fraction; cbn [append];
        (destruct (_ <=? _);
         [match goal with |- context [Number_toString_positive ?a ?b ?c] =>
            destruct (Number_toString_positive_head a b c) as (c0 & r & -> & _)
          end
         |match goal with |- context [fixed_point ?a ?b] =>
            destruct (fixed_point_head a b R) as (c0 & r & -> & _)
          end]); discriminate.
    - simpl in A. apply andb_prop in A as [A _]. eauto. }
  assert (forall t, trim (text ++ t)%string = (text ++ trimEnd t)%string) as Tr.
  { intros t. unfold trim.
    assert (trimStart (text ++ t)%string = (text ++ t)%string) as ->.
    { rewrite E. cbn [append]. apply trimStart_solid. exact Sc. }
    apply trimEnd_app. exact A. }
  split.
  - intros ->. rewrite Tr. f_equal. simpl.
    clear. induction text as [|c text IH]; simpl; congruence.
  - intros body last -> Hl. rewrite Tr. f_equal. f_equal.
    change (" " ++ body ++ String last "")%string
      with ((String " " body) ++ String last "")%string.
    apply trimEnd_solid_last. exact Hl.
Qed.

(** X21.  The text shown for a collection amount: for every order and
    every currency, [formatCurrency] of the [totalAmount] of
    [calculateDriverCollection] does not throw, and what it returns
    starts with a digit or is [Infinity ...]: it is never empty, never
    starts with a minus sign and never reads [NaN] (a NaN total is shown
    as ['0.00']). *)
Theorem formatCurrency_of_collection (orderData : option Order)
    (currency : option Currency) :
  exists c rest,
    formatCurrency
      (JsNumber (totalAmount (calculateDriverCollection orderData)))
      currency None = Normal (String c rest) /\
    (is_digit c = true \/ c = "I"%char).
Proof.
  pose proof (totalAmount_not_negative orderData) as P.
  remember (totalAmount (calculateDriverCollection orderData)) as x eqn:Ex.
  clear Ex. unfold formatCurrency.
  change (default 2%float None) with 2%float. cbv zeta.
  destruct currency as [cur|];
    [|exists "0"%char; eexists; split; [reflexivity|left; reflexivity]].
  destruct (isNaN x) eqn:N;
    [exists "0"%char; eexists; split; [reflexivity|left; reflexivity]|].
  destruct (toFixed x 2%float) as [text|] eqn:T.
  2: { exfalso. revert T. unfold toFixed.
       change (ToIntegerOrInfinity 2%float) with (Some 2). discriminate. }
  destruct (toFixed_head x 2%float text N P T) as (c & rest & -> & D).
  assert (solid c = true) as Sc.
  { destruct D as [D| ->]; [apply is_digit_solid, D|reflexivity]. }
  exists c. eexists. split; [|exact D].
  unfold trim. simpl append. rewrite trimStart_solid by exact Sc.
  rewrite trimEnd_keeps by (simpl; rewrite Sc; reflexivity).
  reflexivity.
Qed.

(** The amount 50.5 with the ISO code AED and two decimals. *)
Lemma formatCurrency_text_witness :
  formatCurrency (JsNumber 50.5%float)
                 (Some (mkCurrency JsUndefined (JsString "AED")))
                 (Some 2%float) = Normal "50.50 AED"%string.
Proof.
  assert (toFixed 50.5%float 2%float = Normal "50.50"%string) as T
    by (vm_compute; reflexivity).
  exact (proj2 (formatCurrency_text 50.5%float
                  (mkCurrency JsUndefined (JsString "AED")) 2%float
                  "50.50"%string eq_refl T)
               "AE"%string "D"%char eq_refl eq_refl).
Defined.

End FormatCurrencyFacts.

Module DynamicAppKeysFacts.
Import DynamicAppKeys.

(** X18.  [getAppCode] returns ['976d51'] on every platform and for
    every bundle identifier: the one [case] and the [default] return the
    same code. *)
Theorem getAppCode_constant (os : OS) (bundleId : string) :
  getAppCode os bundleId = "976d51"%string /\
  getAppCode os bundleId = shortCodes_yabalash.
Proof.
  unfold getAppCode, shortCodes_yabalash.
  destruct os; simpl; try (split; reflexivity);
    destruct (String.eqb bundleId _); split; reflexivity.
Qed.

End DynamicAppKeysFacts.
